(** * TroopOneCalendar: the extraction and normalisation pipeline of
      [troop_calendar_sync.py]

    The script scrapes an event listing, visits every detail page, recovers a
    start/end date, a location and a title from the flattened page text with
    regular expressions, and renders the events as an iCalendar document.

    Modelling conventions.
    - A Python [str] is a list of code points.  Code points are restricted to
      the range 0..255 and represented by [ascii]; on that range [\d] is
      [0-9], [\s] and [str.split]/[str.strip] share [str.isspace], and
      case-insensitive matching of an ASCII literal is ASCII case folding.
    - Python's [re] is a backtracking matcher.  [Regex.mt] is such a matcher
      over the constructs the script's patterns use; [Regex.Matches] is the
      declarative reading of a pattern against which it is verified.
    - Calls that leave the repository ([dateutil.parser.parse],
      [hashlib.sha1], BeautifulSoup's element selection) are section
      variables or function arguments.
    - The environment read by [os.getenv] is a lookup function, and the
      pages that the browser fetches are arguments of the loop.
    - [datetime.strftime] leaves the [%Y] field to the C library of the
      platform; whether a year below 1000 is padded to four digits is the
      parameter [year_padded].
    - Exceptions are explicit: a computation that can raise returns
      [outcome]. *)

From Stdlib Require Import String Ascii ZArith NArith Lia Bool Arith List.
Import ListNotations.
Open Scope list_scope.

Set Implicit Arguments.

(** ** Strings *)

Definition str := list ascii.

Definition lit (s : string) : str := list_ascii_of_string s.

Definition code (a : ascii) : N := N_of_ascii a.

Definition str_eqb (s t : str) : bool :=
  if list_eq_dec ascii_dec s t then true else false.

(** [str.isdigit] / [\d] on code points below 256. *)
Definition is_digit (a : ascii) : bool :=
  (48 <=? code a)%N && (code a <=? 57)%N.

(** [str.isspace] / [\s] on code points below 256:
    TAB LF VT FF CR, FS GS RS US, SPACE, NEL, NBSP. *)
Definition is_space (a : ascii) : bool :=
  ((9 <=? code a)%N && (code a <=? 13)%N)
  || ((28 <=? code a)%N && (code a <=? 32)%N)
  || (code a =? 133)%N || (code a =? 160)%N.

Definition is_upper (a : ascii) : bool :=
  (65 <=? code a)%N && (code a <=? 90)%N.

Definition lower (a : ascii) : ascii :=
  if is_upper a then ascii_of_N (code a + 32) else a.

(** One pattern character under [re.I]. *)
Definition chr_i (l a : ascii) : bool := Ascii.eqb (lower l) (lower a).

(** One pattern character, case-sensitive. *)
Definition chr (l a : ascii) : bool := Ascii.eqb l a.

Definition newline : ascii := ascii_of_N 10.
Definition space : ascii := ascii_of_N 32.

(** ** A backtracking matcher for the patterns of the script *)

Module Regex.

(** The constructs that occur in the script's patterns.  Repetition is only
    ever applied to a character class (digits, white space, any
    character, a negated set), which is what [Rep] provides: [Rep p lo hi greedy] is [p{lo,hi}] or
    [p{lo,hi}?]; [hi = None] is an open upper bound.  [Eos] is [$] without
    [re.MULTILINE]. *)
Inductive re : Type :=
| Eps
| Cls (p : ascii -> bool)
| Seq (a b : re)
| Alt (a b : re)
| Rep (p : ascii -> bool) (lo : nat) (hi : option nat) (greedy : bool)
| Grp (n : nat) (r : re)
| Eos.

Definition caps := list (nat * str).

(** [$] matches at the end of the string and just before a newline that is
    the last character. *)
Definition at_endb (rest : str) : bool :=
  match rest with
  | [] => true
  | [a] => Ascii.eqb a newline
  | _ => false
  end.

Definition within (hi : option nat) (n : nat) : Prop :=
  match hi with None => True | Some h => n <= h end.

(** [Matches r s rest c c'] : pattern [r] can consume [s] when [rest]
    follows, turning the capture list [c] into [c']. *)
Inductive Matches : re -> str -> str -> caps -> caps -> Prop :=
| MEps rest c : Matches Eps [] rest c c
| MCls p a rest c : p a = true -> Matches (Cls p) [a] rest c c
| MSeq a b s1 s2 rest c c1 c2 :
    Matches a s1 (s2 ++ rest) c c1 -> Matches b s2 rest c1 c2 ->
    Matches (Seq a b) (s1 ++ s2) rest c c2
| MAltL a b s rest c c1 :
    Matches a s rest c c1 -> Matches (Alt a b) s rest c c1
| MAltR a b s rest c c1 :
    Matches b s rest c c1 -> Matches (Alt a b) s rest c c1
| MRep p lo hi g s rest c :
    Forall (fun a => p a = true) s -> lo <= length s -> within hi (length s) ->
    Matches (Rep p lo hi g) s rest c c
| MGrp n r s rest c c1 :
    Matches r s rest c c1 -> Matches (Grp n r) s rest c ((n, s) :: c1)
| MEos rest c : at_endb rest = true -> Matches Eos [] rest c c.

(** [s] contains a substring matched by [r]. *)
Definition Contains (r : re) (s : str) : Prop :=
  exists pre m post c, s = pre ++ m ++ post /\ Matches r m post [] c.

Definition can_take (hi : option nat) : bool :=
  match hi with Some O => false | _ => true end.

Definition dec (hi : option nat) : option nat := option_map pred hi.

Section Matcher.
Variable A : Type.

Definition cont := str -> caps -> option A.

(** Greedy repetition: take one more character if the class and the
    upper bound allow it, and only when everything after that fails
    stop here (if the lower bound is met). *)
Fixpoint rep_greedy (p : ascii -> bool) (lo : nat) (hi : option nat)
         (s : str) (c : caps) (k : cont) : option A :=
  let stop := match lo with O => k s c | S _ => None end in
  match s with
  | a :: s' =>
      if p a && can_take hi then
        match rep_greedy p (pred lo) (dec hi) s' c k with
        | Some x => Some x
        | None => stop
        end
      else stop
  | [] => stop
  end.

(** Lazy repetition: stop as soon as the lower bound is met, take one
    more character only when everything after stopping fails. *)
Fixpoint rep_lazy (p : ascii -> bool) (lo : nat) (hi : option nat)
         (s : str) (c : caps) (k : cont) : option A :=
  let more :=
    match s with
    | a :: s' =>
        if p a && can_take hi then rep_lazy p (pred lo) (dec hi) s' c k
        else None
    | [] => None
    end in
  match lo with
  | O => match k s c with Some x => Some x | None => more end
  | S _ => more
  end.

Fixpoint mt (r : re) (s : str) (c : caps) (k : cont) : option A :=
  match r with
  | Eps => k s c
  | Cls p =>
      match s with
      | a :: s' => if p a then k s' c else None
      | [] => None
      end
  | Seq a b => mt a s c (fun s1 c1 => mt b s1 c1 k)
  | Alt a b =>
      match mt a s c k with
      | Some x => Some x
      | None => mt b s c k
      end
  | Rep p lo hi g =>
      if g then rep_greedy p lo hi s c k else rep_lazy p lo hi s c k
  | Grp n r' =>
      mt r' s c
         (fun s1 c1 => k s1 ((n, firstn (length s - length s1) s) :: c1))
  | Eos => if at_endb s then k s c else None
  end.
End Matcher.

(** A match object: the text before the match, group 0, the text after it
    and the numbered groups. *)
Record match_obj : Type := MatchObj {
  m_pre : str;
  m_all : str;
  m_post : str;
  m_groups : caps
}.

Definition attempt (r : re) (s : str) : option (str * caps) :=
  mt r s [] (fun rest c => Some (rest, c)).

(** [re.search]: the first start position, left to right, at which the
    backtracking matcher succeeds. *)
Fixpoint search_from (r : re) (pre s : str) : option match_obj :=
  match attempt r s with
  | Some (rest, c) =>
      Some (MatchObj pre (firstn (length s - length rest) s) rest c)
  | None =>
      match s with
      | [] => None
      | a :: s' => search_from r (pre ++ [a]) s'
      end
  end.

Definition search (r : re) (s : str) : option match_obj := search_from r [] s.

Fixpoint assoc (n : nat) (c : caps) : option str :=
  match c with
  | [] => None
  | (m, s) :: c' => if Nat.eqb n m then Some s else assoc n c'
  end.

(** [m.group(n)] for a group that took part in the match. *)
Definition group (n : nat) (m : match_obj) : str :=
  match assoc n (m_groups m) with Some s => s | None => [] end.

(** [re.sub] with the empty replacement and the matches of [re.finditer(r, s)], for a
    pattern that matches no empty string: after a match the scan resumes
    where the match ended.  A match consumes a character, so [length s]
    rounds reach the end of [s]. *)
Fixpoint sub_from (fuel : nat) (r : re) (s : str) : str :=
  match fuel with
  | O => s
  | S fuel' =>
      match search r s with
      | None => s
      | Some m => m_pre m ++ sub_from fuel' r (m_post m)
      end
  end.

Definition sub_empty (r : re) (s : str) : str := sub_from (S (length s)) r s.

Fixpoint finditer_from (fuel : nat) (r : re) (s : str) : list str :=
  match fuel with
  | O => []
  | S fuel' =>
      match search r s with
      | None => []
      | Some m => m_all m :: finditer_from fuel' r (m_post m)
      end
  end.

Definition finditer (r : re) (s : str) : list str :=
  finditer_from (S (length s)) r s.

(** A literal, case-sensitive or under [re.I]. *)
Fixpoint lit_cs (s : str) : re :=
  match s with
  | [] => Eps
  | a :: s' => Seq (Cls (chr a)) (lit_cs s')
  end.

Fixpoint lit_ci (s : str) : re :=
  match s with
  | [] => Eps
  | a :: s' => Seq (Cls (chr_i a)) (lit_ci s')
  end.

End Regex.

(** ** Python string operations used by the script *)

Module Py.

Fixpoint lstrip_by (p : ascii -> bool) (s : str) : str :=
  match s with
  | a :: s' => if p a then lstrip_by p s' else s
  | [] => []
  end.

Definition rstrip_by (p : ascii -> bool) (s : str) : str :=
  rev (lstrip_by p (rev s)).

(** [s.strip()] *)
Definition strip (s : str) : str := rstrip_by is_space (lstrip_by is_space s).

(** [s.lstrip(chars)] and [s.rstrip(chars)] for a one-character [chars]. *)
Definition lstrip_chr (ch : ascii) (s : str) : str := lstrip_by (chr ch) s.
Definition rstrip_chr (ch : ascii) (s : str) : str := rstrip_by (chr ch) s.

(** [s.split()]: the maximal runs of non-space characters.  [cur] is the
    run being read, reversed. *)
Fixpoint split_aux (cur : str) (s : str) : list str :=
  match s with
  | [] => match cur with [] => [] | _ => [rev cur] end
  | a :: s' =>
      if is_space a then
        match cur with
        | [] => split_aux [] s'
        | _ => rev cur :: split_aux [] s'
        end
      else split_aux (a :: cur) s'
  end.

Definition split (s : str) : list str := split_aux [] s.

(** [sep.join(l)] *)
Fixpoint join (sep : str) (l : list str) : str :=
  match l with
  | [] => []
  | [x] => x
  | x :: l' => x ++ sep ++ join sep l'
  end.

(** The idiom [" ".join(s.split())]. *)
Definition collapse (s : str) : str := join [space] (split s).

(** [s.startswith(p)] *)
Fixpoint startswith (p s : str) : bool :=
  match p, s with
  | [], _ => true
  | a :: p', b :: s' => Ascii.eqb a b && startswith p' s'
  | _ :: _, [] => false
  end.

(** [needle in s] *)
Fixpoint contains (needle s : str) : bool :=
  startswith needle s
  || match s with [] => false | _ :: s' => contains needle s' end.

(** [s.replace(ch, by)] for a one-character [ch]. *)
Definition replace_chr (ch : ascii) (by_ : str) (s : str) : str :=
  flat_map (fun a => if Ascii.eqb a ch then by_ else [a]) s.

Definition digit_val (a : ascii) : Z := (Z.of_N (code a) - 48)%Z.

(** [int(s)] for a string of decimal digits. *)
Definition int (s : str) : Z :=
  fold_left (fun acc a => (10 * acc + digit_val a)%Z) s 0%Z.

Definition digit_chr (d : Z) : ascii := ascii_of_N (Z.to_N (48 + d)%Z).

(** [n] in decimal, zero-padded to exactly [w] digits (the [%m], [%d],
    [%H], [%M] and [%S] fields of [strftime], and C's [%04d]). *)
Fixpoint zpad (w : nat) (n : Z) : str :=
  match w with
  | O => []
  | S w' => zpad w' (n / 10)%Z ++ [digit_chr (n mod 10)%Z]
  end.

(** The decimal digits of [n] without padding; [fuel] bounds their
    number. *)
Fixpoint digits_of (fuel : nat) (n : N) : str :=
  match fuel with
  | O => []
  | S fuel' =>
      (if (n <? 10)%N then [] else digits_of fuel' (n / 10)%N)
      ++ [ascii_of_N (48 + n mod 10)%N]
  end.

(** C's [%d]: a minus sign for a negative number, and the decimal digits
    of its absolute value (a number has no more decimal digits than
    binary ones). *)
Definition decimal (n : Z) : str :=
  (if (n <? 0)%Z then ["-"%char] else [])
  ++ digits_of (S (N.to_nat (N.log2 (Z.abs_N n)))) (Z.abs_N n).

(** Truthiness of a string. *)
Definition nonempty (s : str) : bool :=
  match s with [] => false | _ => true end.

End Py.

(** ** Exceptions *)

Inductive exn : Type := ValueError | OverflowError.

Inductive outcome (A : Type) : Type :=
| Ok (a : A)
| Raise (e : exn).

Arguments Ok {A} a.
Arguments Raise {A} e.

Definition bind {A B : Type} (x : outcome A) (f : A -> outcome B) : outcome B :=
  match x with
  | Ok a => f a
  | Raise e => Raise e
  end.

Notation "x <- e1 ;; e2" := (bind e1 (fun x => e2))
  (at level 100, e1 at next level, right associativity).

(** ** [datetime] and [timedelta] *)

Module Datetime.

Open Scope Z_scope.

(** The fields of a [datetime] without its [tzinfo] (a naive datetime). *)
Record naive : Type := mkNaive {
  year : Z;
  month : Z;
  day : Z;
  hour : Z;
  minute : Z;
  second : Z;
  microsecond : Z
}.

(** An aware [datetime]: its fields in its own zone, and the UTC offset of
    that zone in seconds (every zone of the script is a fixed offset). *)
Record datetime : Type := mkDatetime {
  local : naive;
  utcoffset : Z
}.

(** A normalised [timedelta] without a sub-second part. *)
Record timedelta : Type := mkTimedelta {
  td_days : Z;
  td_seconds : Z
}.

Definition MINYEAR : Z := 1.
Definition MAXYEAR : Z := 9999.
Definition MAXORDINAL : Z := 3652059.

Definition is_leap (y : Z) : bool :=
  (y mod 4 =? 0) && (negb (y mod 100 =? 0) || (y mod 400 =? 0)).

Definition DAYS_IN_MONTH : list Z :=
  [-1; 31; 28; 31; 30; 31; 30; 31; 31; 30; 31; 30; 31].

Definition DAYS_BEFORE_MONTH : list Z :=
  [-1; 0; 31; 59; 90; 120; 151; 181; 212; 243; 273; 304; 334].

Definition b2z (b : bool) : Z := if b then 1 else 0.

Definition days_in_month (y m : Z) : Z :=
  if (m =? 2) && is_leap y then 29 else nth (Z.to_nat m) DAYS_IN_MONTH 0.

Definition days_before_year (y : Z) : Z :=
  let y' := y - 1 in y' * 365 + y' / 4 - y' / 100 + y' / 400.

Definition days_before_month (y m : Z) : Z :=
  nth (Z.to_nat m) DAYS_BEFORE_MONTH 0 + b2z ((2 <? m) && is_leap y).

Definition ymd2ord (y m d : Z) : Z :=
  days_before_year y + days_before_month y m + d.

Definition DI400Y : Z := 146097.
Definition DI100Y : Z := 36524.
Definition DI4Y : Z := 1461.

(** [_ord2ymd] of the reference implementation of [datetime]. *)
Definition ord2ymd (n0 : Z) : Z * Z * Z :=
  let n := n0 - 1 in
  let n400 := n / DI400Y in
  let n := n mod DI400Y in
  let y := n400 * 400 + 1 in
  let n100 := n / DI100Y in
  let n := n mod DI100Y in
  let n4 := n / DI4Y in
  let n := n mod DI4Y in
  let n1 := n / 365 in
  let n := n mod 365 in
  let y := y + n100 * 100 + n4 * 4 + n1 in
  if (n1 =? 4) || (n100 =? 4) then (y - 1, 12, 31)
  else
    let leapyear := (n1 =? 3) && (negb (n4 =? 24) || (n100 =? 3)) in
    let m := Z.shiftr (n + 50) 5 in
    let preceding :=
      nth (Z.to_nat m) DAYS_BEFORE_MONTH 0 + b2z ((2 <? m) && leapyear) in
    if n <? preceding then
      let m := m - 1 in
      let preceding :=
        preceding
        - (nth (Z.to_nat m) DAYS_IN_MONTH 0 + b2z ((m =? 2) && leapyear)) in
      (y, m, n - preceding + 1)
    else (y, m, n - preceding + 1).

(** The field check of the [date] constructor. *)
Definition valid_date (y m d : Z) : bool :=
  (MINYEAR <=? y) && (y <=? MAXYEAR) && (1 <=? m) && (m <=? 12)
  && (1 <=? d) && (d <=? days_in_month y m).

Definition valid_time (h mi s us : Z) : bool :=
  (0 <=? h) && (h <=? 23) && (0 <=? mi) && (mi <=? 59)
  && (0 <=? s) && (s <=? 59) && (0 <=? us) && (us <=? 999999).

Definition valid (d : naive) : bool :=
  valid_date (year d) (month d) (day d)
  && valid_time (hour d) (minute d) (second d) (microsecond d).

(** [datetime(y, m, d, 0, 0, tzinfo=tz)] *)
Definition make (y m d : Z) (tz : Z) : outcome datetime :=
  if valid_date y m d then Ok (mkDatetime (mkNaive y m d 0 0 0 0) tz)
  else Raise ValueError.

(** [d.replace(tzinfo=tz)] *)
Definition replace_tzinfo (tz : Z) (d : naive) : datetime := mkDatetime d tz.

Definition toordinal (d : naive) : Z := ymd2ord (year d) (month d) (day d).

Definition seconds_of_day (d : naive) : Z :=
  hour d * 3600 + minute d * 60 + second d.

(** [d + td]: the ordinal and the time of day are folded into one
    [timedelta], the two are added, and the sum is unfolded again;
    [OverflowError] when the day leaves [1..MAXORDINAL]. *)
Definition add_naive (d : naive) (td : timedelta) : outcome naive :=
  let secs := seconds_of_day d + td_seconds td in
  let days := toordinal d + td_days td + secs / 86400 in
  let secs := secs mod 86400 in
  let h := secs / 3600 in
  let rem := secs mod 3600 in
  if (0 <? days) && (days <=? MAXORDINAL) then
    let '(y, m, dd) := ord2ymd days in
    Ok (mkNaive y m dd h (rem / 60) (rem mod 60) (microsecond d))
  else Raise OverflowError.

Definition add (d : datetime) (td : timedelta) : outcome datetime :=
  r <- add_naive (local d) td ;; Ok (mkDatetime r (utcoffset d)).

(** The comparison key of two datetimes that carry the same [tzinfo]:
    their fields in order. *)
Definition fields (d : naive) : list Z :=
  [year d; month d; day d; hour d; minute d; second d; microsecond d].

Fixpoint lex_leb (a b : list Z) : bool :=
  match a, b with
  | [], _ => true
  | _ :: _, [] => false
  | x :: a', y :: b' => (x <? y) || ((x =? y) && lex_leb a' b')
  end.

(** [a <= b] for datetimes with the same [tzinfo]. *)
Definition leb (a b : datetime) : bool :=
  lex_leb (fields (local a)) (fields (local b)).

(** Whole seconds from the start of day 0 of the proleptic calendar to
    [d], in the zone of [d]. *)
Definition to_seconds (d : datetime) : Z :=
  toordinal (local d) * 86400 + seconds_of_day (local d).

(** The [%Y] field of [strftime].  [datetime.strftime] leaves this field
    to the C library, and the libraries differ on a year below 1000: glibc
    writes the year as it is ([123]), the libraries of Windows and macOS
    pad it with zeros to four digits ([0123]).  [padded] says which of the
    two the platform does. *)
Definition strftime_Y (padded : bool) (y : Z) : str :=
  if padded then Py.zpad 4 y else Py.decimal y.

(** [d.strftime("%m/%d/%Y")] *)
Definition strftime_mdy (padded : bool) (d : naive) : str :=
  Py.zpad 2 (month d) ++ lit "/" ++ Py.zpad 2 (day d) ++ lit "/"
  ++ strftime_Y padded (year d).

(** [d.strftime("%Y%m%d")] *)
Definition strftime_date (padded : bool) (d : naive) : str :=
  strftime_Y padded (year d) ++ Py.zpad 2 (month d) ++ Py.zpad 2 (day d).

(** [d.strftime("%Y%m%dT%H%M%SZ")] *)
Definition strftime_utc (padded : bool) (d : naive) : str :=
  strftime_date padded d ++ lit "T" ++ Py.zpad 2 (hour d)
  ++ Py.zpad 2 (minute d) ++ Py.zpad 2 (second d) ++ lit "Z".

(** [d.astimezone(timezone.utc)]: subtract the offset of [d]. *)
Definition astimezone_utc (d : datetime) : outcome datetime :=
  r <- add_naive (local d)
                 (mkTimedelta ((- utcoffset d) / 86400)
                              ((- utcoffset d) mod 86400)) ;;
  Ok (mkDatetime r 0).

Close Scope Z_scope.

End Datetime.

(** ** The patterns of the script *)

Module Pat.
Import Regex.

Definition seqs (l : list re) : re := fold_right Seq Eps l.

Definition c (a : ascii) : re := Cls (chr a).

(** [\d{lo,hi}] *)
Definition digits (lo hi : nat) : re := Rep is_digit lo (Some hi) true.

(** [\s*] *)
Definition spaces : re := Rep is_space 0 None true.

(** [.] *)
Definition dot (a : ascii) : bool := negb (Ascii.eqb a newline).

Definition dquote : ascii := ascii_of_N 34.

(** The negated set of line 63: anything but a single quote, a double
    quote and the two parentheses. *)
Definition not_quote_paren (a : ascii) : bool :=
  negb (existsb (Ascii.eqb a) ["'"%char; dquote; "("%char; ")"%char]).

(** The negated set of line 96: anything but a double quote, a single
    quote, the two angle brackets and the space. *)
Definition not_delim (a : ascii) : bool :=
  negb (existsb (Ascii.eqb a)
                [dquote; "'"%char; "<"%char; ">"%char; " "%char]).

(** [(\d{1,2}/\d{1,2}/\d{2,4})], line 293. *)
Definition text_date : re :=
  Grp 1 (seqs [digits 1 2; c "/"; digits 1 2; c "/"; digits 2 4]).

(** [\((\d{2})/(\d{2})/(\d{2,4})\)], line 306. *)
Definition title_date : re :=
  seqs [c "("; Grp 1 (digits 2 2); c "/"; Grp 2 (digits 2 2); c "/";
        Grp 3 (digits 2 4); c ")"].

(** [(\d{1,2}:\d{2}\s*(AM|PM))] with [re.I], line 323. *)
Definition clock : re :=
  Grp 1 (seqs [digits 1 2; c ":"; digits 2 2; spaces;
               Grp 2 (Alt (lit_ci (lit "AM")) (lit_ci (lit "PM")))]).

(** [Location:\s*(.+?)(?:\s{2,}|$)] with [re.I], line 336. *)
Definition location : re :=
  seqs [lit_ci (lit "Location:"); spaces; Grp 1 (Rep dot 1 None false);
        Alt (Rep is_space 2 None true) Eos].

(** [\s*\(\d{1,2}/\d{1,2}/\d{2,4}\)\s*$], line 340. *)
Definition title_suffix : re :=
  seqs [spaces; c "("; digits 1 2; c "/"; digits 1 2; c "/"; digits 2 4;
        c ")"; spaces; Eos].

(** [FormDetail\.aspx\?] and one or more of [not_quote_paren], with
    [re.I], line 63. *)
Definition linkto : re :=
  seqs [lit_ci (lit "FormDetail.aspx?"); Rep not_quote_paren 1 None true].

(** [FormDetail\.aspx\?], any number of [not_delim], [ID=\d+], any number
    of [not_delim], with [re.I], line 96. *)
Definition scan : re :=
  seqs [lit_ci (lit "FormDetail.aspx?"); Rep not_delim 0 None true;
        lit_ci (lit "ID="); Rep is_digit 1 None true;
        Rep not_delim 0 None true].

(** [ID=(\d+)], line 272. *)
Definition id_param : re :=
  seqs [lit_cs (lit "ID="); Grp 1 (Rep is_digit 1 None true)].

End Pat.

(** ** The script *)

Definition LOCAL_TZ : Z := (-5 * 3600)%Z.

(** An entry of [found]: [{"url": ..., "title": ...}]. *)
Record link : Type := mkLink {
  url : str;
  title : str
}.

(** What the script reads of an element of the parsed listing page: whether
    it is an anchor, its [href] and [onclick] attributes, and its
    [get_text(" ", strip=True)]. *)
Record element : Type := mkElement {
  is_anchor : bool;
  attr_href : option str;
  attr_onclick : option str;
  el_text : str
}.

(** [el.get(name, empty) or empty] *)
Definition attr_or_empty (a : option str) : str :=
  match a with Some s => s | None => [] end.

Definition has_onclick (e : element) : bool :=
  match attr_onclick e with Some _ => true | None => false end.

(** An entry of [events]. *)
Record event : Type := mkEvent {
  summary : str;
  dtstart : Datetime.datetime;
  dtend : Datetime.datetime;
  description : str;
  location : str;
  ev_url : str;
  all_day : bool
}.

(** The result of one round of the loop over the links: an event is
    appended, or the round is left by [continue]. *)
Inductive detail : Type :=
| Emitted (e : event)
| Dropped.

Definition days (n : Z) : Datetime.timedelta := Datetime.mkTimedelta n 0.
Definition hours (n : Z) : Datetime.timedelta :=
  Datetime.mkTimedelta 0 (n * 3600)%Z.

Definition BASE_HOST : str := lit "https://www.troopwebhost.org/".

(** [add_href], lines 57-77; [found] is threaded through. *)
Definition add_href (found : list link) (href text : str) : list link :=
  if negb (Py.nonempty href) then found
  else
    let href := Py.strip href in
    let href :=
      match Regex.search Pat.linkto href with
      | Some m => Regex.m_all m
      | None => href
      end in
    if negb (Py.contains (lit "FormDetail.aspx") href)
       || negb (Py.contains (lit "ID=") href)
    then found
    else
      let u :=
        if Py.startswith (lit "http") href then href
        else BASE_HOST ++ Py.lstrip_chr "/" href in
      found ++ [mkLink u (Py.collapse text)].

(** The final loop of [extract_event_links_from_form_list], lines
    100-105; [seen] is the set of urls already kept. *)
Fixpoint dedup (seen : list str) (found : list link) : list link :=
  match found with
  | [] => []
  | x :: rest =>
      if existsb (str_eqb (url x)) seen then dedup seen rest
      else x :: dedup (url x :: seen) rest
  end.

Section Script.

(** Whether the C library of the platform pads the [%Y] field of
    [strftime] to four digits (see [Datetime.strftime_Y]). *)
Variable year_padded : bool.

(** [BeautifulSoup(html, "html.parser")], as the elements of the document
    in document order. *)
Variable BeautifulSoup : str -> list element.

(** [dateutil.parser.parse(s)] with month-first, year-last defaults;
    [None] when it raises. *)
Variable dtparser_parse : str -> option Datetime.naive.

(** [hashlib.sha1(b).hexdigest()] *)
Variable sha1_hexdigest : list Byte.byte -> str.

(** The three passes, lines 80-97. *)
Definition pass_anchors (found : list link) (soup : list element)
  : list link :=
  fold_left
    (fun f a =>
       let f := add_href f (attr_or_empty (attr_href a)) (el_text a) in
       add_href f (attr_or_empty (attr_onclick a)) (el_text a))
    (filter is_anchor soup) found.

Definition pass_onclick (found : list link) (soup : list element)
  : list link :=
  fold_left
    (fun f el => add_href f (attr_or_empty (attr_onclick el)) (el_text el))
    (filter has_onclick soup) found.

Definition pass_scan (found : list link) (html : str) : list link :=
  fold_left (fun f m => add_href f m [])
            (Regex.finditer Pat.scan html) found.

Definition found_links (html : str) : list link :=
  let soup := BeautifulSoup html in
  pass_scan (pass_onclick (pass_anchors [] soup) soup) html.

Definition extract_event_links_from_form_list (html : str) : list link :=
  dedup [] (found_links html).

(** Lines 272-274. *)
Definition title_guess (x : link) : str :=
  let event_id :=
    match Regex.search Pat.id_param (url x) with
    | Some m => Regex.group 1 m
    | None => lit "unknown"
    end in
  if Py.nonempty (title x) then title x
  else lit "(untitled) ID=" ++ event_id.

(** Lines 293-302: the date of the detail text. *)
Definition date_from_text (text : str) : option Datetime.datetime :=
  match Regex.search Pat.text_date text with
  | Some m =>
      match dtparser_parse (Regex.group 1 m) with
      | Some d => Some (Datetime.replace_tzinfo LOCAL_TZ d)
      | None => None
      end
  | None => None
  end.

(** Lines 305-312: the date of the title, outside any [try]. *)
Definition date_from_title (title_guess : str)
  : outcome (option Datetime.datetime) :=
  match Regex.search Pat.title_date title_guess with
  | Some m2 =>
      let mm := Regex.group 1 m2 in
      let dd := Regex.group 2 m2 in
      let yy := Regex.group 3 m2 in
      let year := Py.int yy in
      let year := if (year <? 100)%Z then (year + 2000)%Z else year in
      d <- Datetime.make year (Py.int mm) (Py.int dd) LOCAL_TZ ;;
      Ok (Some d)
  | None => Ok None
  end.

(** Lines 293-312. *)
Definition resolve_date (text title_guess : str)
  : outcome (option Datetime.datetime) :=
  match date_from_text text with
  | Some d => Ok (Some d)
  | None => date_from_title title_guess
  end.

(** Lines 323-332.  The [try] covers the parse, the rebinding of
    [dtstart] and the computation of [dtend]; when the last one raises,
    [dtstart] is already rebound. *)
Definition resolve_time (text : str) (dtstart dtend : Datetime.datetime)
  : Datetime.datetime * Datetime.datetime * bool :=
  match Regex.search Pat.clock text with
  | Some tm =>
      match dtparser_parse
              (Datetime.strftime_mdy year_padded (Datetime.local dtstart)
               ++ lit " " ++ Regex.group 1 tm) with
      | Some dtstart2 =>
          let dtstart' := Datetime.replace_tzinfo LOCAL_TZ dtstart2 in
          match Datetime.add dtstart' (hours 2) with
          | Ok dtend' => (dtstart', dtend', false)
          | Raise _ => (dtstart', dtend, true)
          end
      | None => (dtstart, dtend, true)
      end
  | None => (dtstart, dtend, true)
  end.

(** Lines 335-338. *)
Definition resolve_location (text : str) : str :=
  match Regex.search Pat.location text with
  | Some lm => Py.strip (Regex.group 1 lm)
  | None => []
  end.

(** Line 340. *)
Definition resolve_summary (title_guess : str) : str :=
  Py.strip (Regex.sub_empty Pat.title_suffix title_guess).

(** The body of the loop from line 293 on, for the flattened [text] of
    the detail page of [u]. *)
Definition parse_detail (u text title_guess : str) : outcome detail :=
  r <- resolve_date text title_guess ;;
  match r with
  | None => Ok Dropped
  | Some dtstart =>
      dtend <- Datetime.add dtstart (days 1) ;;
      let '(dtstart, dtend, all_day) := resolve_time text dtstart dtend in
      Ok (Emitted
            (mkEvent (resolve_summary title_guess) dtstart dtend
                     (firstn 2000 text) (resolve_location text) u all_day))
  end.

(** One round of the loop, lines 270-350; [page_text] is
    [soup.get_text("
", strip=True)] of the fetched detail page. *)
Definition process_link (x : link) (page_text : str) : outcome detail :=
  parse_detail (url x) (Py.collapse page_text) (title_guess x).

(** The loop, lines 269-350, over the links and the texts of their
    pages. *)
Fixpoint collect_events (pages : list (link * str)) (events : list event)
  : outcome (list event) :=
  match pages with
  | [] => Ok events
  | (x, page_text) :: rest =>
      r <- process_link x page_text ;;
      match r with
      | Dropped => collect_events rest events
      | Emitted e => collect_events rest (events ++ [e])
      end
  end.

(** Line 264-265. *)
Definition event_links (html : str) : list link :=
  filter (fun x => Py.contains (lit "Form_ID=182") (url x)
                   && Py.contains (lit "ID=") (url x))
         (extract_event_links_from_form_list html).

(** [s.encode("utf-8", errors="ignore")] on code points below 256: one
    byte below 128, two bytes from 128 on. *)
Definition utf8_encode (s : str) : list Byte.byte :=
  flat_map
    (fun a =>
       let n := code a in
       if (n <? 128)%N then [byte_of_ascii a]
       else [byte_of_ascii (ascii_of_N (192 + N.shiftr n 6));
             byte_of_ascii (ascii_of_N (128 + N.land n 63))])
    s.

Definition CR : ascii := ascii_of_N 13.
Definition CRLF : str := [CR; newline].
Definition backslash_n : str := lit "\n".

(** Lines 137-138. *)
Definition uid (ev : event) : str :=
  sha1_hexdigest (utf8_encode (ev_url ev ++ lit "|" ++ summary ev))
  ++ lit "@troopwebhost".

(** [fmt_dt], lines 122-124. *)
Definition fmt_dt (dt : Datetime.datetime) : outcome str :=
  u <- Datetime.astimezone_utc dt ;;
  Ok (Datetime.strftime_utc year_padded (Datetime.local u)).

(** Lines 144-152. *)
Definition start_end_lines (ev : event) : outcome (list str) :=
  if all_day ev then
    Ok [lit "DTSTART;VALUE=DATE:"
          ++ Datetime.strftime_date year_padded (Datetime.local (dtstart ev));
        lit "DTEND;VALUE=DATE:"
          ++ Datetime.strftime_date year_padded (Datetime.local (dtend ev))]
  else
    s <- fmt_dt (dtstart ev) ;;
    e <- fmt_dt (dtend ev) ;;
    Ok [lit "DTSTART:" ++ s; lit "DTEND:" ++ e].

(** Lines 154-168. *)
Definition text_lines (ev : event) : list str :=
  let summary := Py.strip (Py.replace_chr newline (lit " ") (summary ev)) in
  let loc := Py.strip (Py.replace_chr newline (lit " ") (location ev)) in
  let desc_parts :=
    (if Py.nonempty (description ev) then [Py.strip (description ev)]
     else [])
    ++ (if Py.nonempty (ev_url ev) then [Py.strip (ev_url ev)] else []) in
  let desc :=
    Py.replace_chr newline backslash_n
                   (Py.join (backslash_n ++ backslash_n) desc_parts) in
  [lit "SUMMARY:" ++ summary]
  ++ (if Py.nonempty loc then [lit "LOCATION:" ++ loc] else [])
  ++ (if Py.nonempty desc then [lit "DESCRIPTION:" ++ desc] else []).

(** One round of the loop of [build_ics], lines 136-170. *)
Definition event_block (now_utc : str) (ev : event) : outcome (list str) :=
  se <- start_end_lines ev ;;
  Ok ([lit "BEGIN:VEVENT"; lit "UID:" ++ uid ev; lit "DTSTAMP:" ++ now_utc]
      ++ se ++ text_lines ev ++ [lit "END:VEVENT"]).

Fixpoint event_blocks (now_utc : str) (events : list event)
  : outcome (list str) :=
  match events with
  | [] => Ok []
  | ev :: rest =>
      b <- event_block now_utc ev ;;
      bs <- event_blocks now_utc rest ;;
      Ok (b ++ bs)
  end.

Definition HEADER : list str :=
  [lit "BEGIN:VCALENDAR"; lit "VERSION:2.0";
   lit "PRODID:-//TroopCalendarSync//EN"; lit "CALSCALE:GREGORIAN";
   lit "METHOD:PUBLISH"].

(** The list [lines] at line 172; [now] is [datetime.now(timezone.utc)]. *)
Definition ics_lines (now : Datetime.naive) (events : list event)
  : outcome (list str) :=
  bs <- event_blocks (Datetime.strftime_utc year_padded now) events ;;
  Ok (HEADER ++ bs ++ [lit "END:VCALENDAR"]).

(** [build_ics], lines 111-173. *)
Definition build_ics (now : Datetime.naive) (events : list event)
  : outcome str :=
  lines <- ics_lines now events ;;
  Ok (Py.join CRLF lines ++ CRLF).

End Script.

(** ** The settings

    Lines 32-34 read the environment when the module is loaded; lines
    182-196 check the settings and open the first page. *)

(** [os.environ] as a lookup. *)
Definition environ : Type := str -> option str.

(** [os.getenv(key, default)] *)
Definition getenv_default (env : environ) (key default : str) : str :=
  match env key with Some v => v | None => default end.

(** Truthiness of a value that is a string or [None]. *)
Definition truthy (v : option str) : bool :=
  match v with Some s => Py.nonempty s | None => false end.

(** Line 32. *)
Definition BASE (env : environ) : str :=
  Py.rstrip_chr "/" (getenv_default env (lit "TWH_BASE") []).

(** Lines 33-34. *)
Definition USERNAME (env : environ) : option str := env (lit "TWH_USERNAME").
Definition PASSWORD (env : environ) : option str := env (lit "TWH_PASSWORD").

(** Lines 182-196: the address that [main] opens first, or [None] for the
    [RuntimeError] of line 183. *)
Definition index_url (env : environ) : option str :=
  if Py.nonempty (BASE env) && truthy (USERNAME env) && truthy (PASSWORD env)
  then Some (BASE env ++ lit "/Index.htm")
  else None.

(** ** A month-first reader for running the model

    [Sample.parse] reads the two shapes of string the script hands to
    [dateutil]: [M/D/Y] and [M/D/Y H:MM AM|PM].  The first number is the
    month and the second the day, a year below 100 is counted from 2000,
    and a string that is no date of the calendar, or whose hour on the
    12-hour clock is above 12, is rejected.  It stands in for [dateutil]
    where the model is run on an example; the theorems below hold for
    every parser. *)

Module Sample.
Import Regex Pat.

Definition shape : re :=
  seqs [Grp 1 (digits 1 2); c "/"; Grp 2 (digits 1 2); c "/";
        Grp 3 (digits 2 4);
        Alt Eos
            (seqs [c " "; Grp 4 (digits 1 2); c ":"; Grp 5 (digits 2 2);
                   spaces;
                   Alt (Grp 6 (lit_ci (lit "AM"))) (Grp 7 (lit_ci (lit "PM")));
                   Eos])].

Definition clock_hour (h : Z) (pm : bool) : Z :=
  ((h mod 12) + (if pm then 12 else 0))%Z.

Definition parse (s : str) : option Datetime.naive :=
  match attempt shape s with
  | Some (_, g) =>
      let y := Py.int (match assoc 3 g with Some x => x | None => [] end) in
      let y := if (y <? 100)%Z then (y + 2000)%Z else y in
      let m := Py.int (match assoc 1 g with Some x => x | None => [] end) in
      let d := Py.int (match assoc 2 g with Some x => x | None => [] end) in
      let pm := match assoc 7 g with Some _ => true | None => false end in
      let hm :=
        match assoc 4 g, assoc 5 g with
        | Some hs, Some ms =>
            if (12 <? Py.int hs)%Z then None
            else Some (clock_hour (Py.int hs) pm, Py.int ms)
        | _, _ => Some (0%Z, 0%Z)
        end in
      match hm with
      | Some (h, mi) =>
          let r := Datetime.mkNaive y m d h mi 0 0 in
          if Datetime.valid r then Some r else None
      | None => None
      end
  | None => None
  end.

Definition hex_digit (n : N) : ascii :=
  if (n <? 10)%N then ascii_of_N (48 + n) else ascii_of_N (87 + n).

(** A stand-in for a digest where the model is run on an example: the bytes
    themselves in hexadecimal.  It is not SHA-1; the theorems below hold
    for every digest function. *)
Definition hexdigest (b : list Byte.byte) : str :=
  flat_map (fun x => let n := Byte.to_N x in
                     [hex_digit (N.shiftr n 4); hex_digit (N.land n 15)]) b.

Definition campout : event :=
  mkEvent (lit "Campout")
          (Datetime.mkDatetime (Datetime.mkNaive 2026 2 14 0 0 0 0) LOCAL_TZ)
          (Datetime.mkDatetime (Datetime.mkNaive 2026 2 15 0 0 0 0) LOCAL_TZ)
          (lit "Bring a tent") (lit "")
          (lit "https://www.troopwebhost.org/FormDetail.aspx?ID=55") true.

Definition meeting : event :=
  mkEvent (lit "Meeting")
          (Datetime.mkDatetime (Datetime.mkNaive 2026 3 5 19 0 0 0) LOCAL_TZ)
          (Datetime.mkDatetime (Datetime.mkNaive 2026 3 5 21 0 0 0) LOCAL_TZ)
          (lit "Meeting at 7:00 PM") (lit "")
          (lit "https://www.troopwebhost.org/FormDetail.aspx?ID=56") false.

Definition noon : Datetime.naive := Datetime.mkNaive 2026 11 4 12 0 0 0.
Definition midnight : Datetime.naive := Datetime.mkNaive 2027 1 1 0 0 0 0.

(** A page text whose first short-form token is no date. *)
Definition score_text : str := lit "Score 20/20/20 Meeting 3/5/2026".

(** A page text whose first clock token has no hour of the 12-hour
    clock. *)
Definition clock_text : str := lit "Meeting 3/5/2026 13:00 PM or 7:00 PM".

(** A listing page that names the first event in an anchor and again in a
    click handler, and the second event in an anchor; the scan of the
    source finds all three references once more. *)
Definition page_dup : str :=
  lit "<a href='FormDetail.aspx?ID=1'>Camp</a><span onclick="
  ++ [Pat.dquote] ++ lit "LinkTo('FormDetail.aspx?ID=1','')" ++ [Pat.dquote]
  ++ lit ">Camp again</span><a href='FormDetail.aspx?ID=2'>Hike</a>".

Definition soup_dup (html : str) : list element :=
  [mkElement true (Some (lit "FormDetail.aspx?ID=1")) None (lit "Camp");
   mkElement false None (Some (lit "LinkTo('FormDetail.aspx?ID=1','')"))
             (lit "Camp again");
   mkElement true (Some (lit "FormDetail.aspx?ID=2")) None (lit "Hike")].

Definition url_1 : str :=
  lit "https://www.troopwebhost.org/FormDetail.aspx?ID=1".
Definition url_2 : str :=
  lit "https://www.troopwebhost.org/FormDetail.aspx?ID=2".

End Sample.

(** ** The date tokens in the words of the specification

    The two recognised forms as the specification words them: a short-form
    token [M/D/Y] with a month and a day of one or two digits and a year of
    two or four digits, and a parenthesised annotation [(MM/DD/YY)] or
    [(MM/DD/YYYY)]. *)

Module SpecWords.
Import Regex Pat.

Definition year_2_or_4 : re := Alt (digits 2 2) (digits 4 4).

Definition short_date : re :=
  seqs [digits 1 2; c "/"; digits 1 2; c "/"; year_2_or_4].

Definition paren_date : re :=
  seqs [c "("; digits 2 2; c "/"; digits 2 2; c "/"; year_2_or_4; c ")"].

(** A numeric identifier parameter: [ID=] followed by a digit. *)
Definition numeric_id : re := seqs [lit_cs (lit "ID="); Cls is_digit].

(** An absolute URL of the web: it begins with [http://] or [https://]. *)
Definition absolute (u : str) : bool :=
  Py.startswith (lit "http://") u || Py.startswith (lit "https://") u.

(** The text before the first two consecutive white-space characters of
    [s], or all of [s] when there are none. *)
Fixpoint upto_gap (s : str) : str :=
  match s with
  | a :: s' =>
      match s' with
      | b :: _ => if is_space a && is_space b then [] else a :: upto_gap s'
      | [] => [a]
      end
  | [] => []
  end.

(** What follows [l] when [s] begins with [l] in any case. *)
Fixpoint starts_ci (l s : str) : option str :=
  match l, s with
  | [], _ => Some s
  | x :: l', y :: s' => if chr_i x y then starts_ci l' s' else None
  | _ :: _, [] => None
  end.

(** What follows the first [Location:] label of [s], in any case. *)
Fixpoint after_label (s : str) : option str :=
  match starts_ci (lit "Location:") s with
  | Some rest => Some rest
  | None => match s with [] => None | _ :: s' => after_label s' end
  end.

(** The location in the specification's words: the text that follows the
    label up to two consecutive white-space characters or the end,
    trimmed; empty without a label. *)
Definition location (text : str) : str :=
  match after_label text with
  | Some rest => Py.strip (upto_gap rest)
  | None => []
  end.

End SpecWords.

(** * Properties *)

Lemma str_eqb_eq (s t : str) : str_eqb s t = true <-> s = t.
Proof.
  unfold str_eqb. destruct (list_eq_dec ascii_dec s t); split; congruence.
Qed.

Lemma Ok_inj {A : Type} (a b : A) : Ok a = Ok b -> a = b.
Proof.
  congruence.
Qed.

(** ** Python string operations *)

Module PyFacts.

Lemma startswith_spec p : forall s,
  Py.startswith p s = true <-> exists rest, s = p ++ rest.
Proof.
  induction p as [|a p IH]; intros s; simpl.
  - split; eauto.
  - destruct s as [|b s].
    + split; [discriminate | intros (rest & H); discriminate].
    + rewrite andb_true_iff, Ascii.eqb_eq, IH. split.
      * intros (-> & rest & ->). eauto.
      * intros (rest & H). inversion H; subst. eauto.
Qed.

(** [needle in s] holds exactly when [needle] is a substring of [s]. *)
Lemma contains_spec needle : forall s,
  Py.contains needle s = true <-> exists pre post, s = pre ++ needle ++ post.
Proof.
  induction s as [|b s IH]; simpl.
  - rewrite orb_false_r, startswith_spec. split.
    + intros (rest & H). exists [], rest. auto.
    + intros (pre & post & H). destruct pre; simpl in H.
      * eauto.
      * discriminate.
  - rewrite orb_true_iff, startswith_spec, IH. split.
    + intros [(rest & H) | (pre & post & ->)].
      * exists [], rest. auto.
      * exists (b :: pre), post. auto.
    + intros (pre & post & H). destruct pre as [|b' pre]; simpl in H.
      * left. eauto.
      * inversion H; subst. right. eauto.
Qed.

Lemma contains_false needle s :
  Py.contains needle s = false <->
  ~ exists pre post, s = pre ++ needle ++ post.
Proof.
  rewrite <- contains_spec. destruct (Py.contains needle s); split;
    congruence.
Qed.

Lemma lstrip_by_split p s :
  exists pre, s = pre ++ Py.lstrip_by p s
              /\ Forall (fun a => p a = true) pre.
Proof.
  induction s as [|a s (pre & E & F)]; simpl.
  - exists []. auto.
  - destruct (p a) eqn:Pa.
    + exists (a :: pre). split; [simpl; congruence | constructor; auto].
    + exists []. auto.
Qed.

Lemma rstrip_by_split p s :
  exists post, s = Py.rstrip_by p s ++ post.
Proof.
  unfold Py.rstrip_by.
  destruct (lstrip_by_split p (rev s)) as (pre & E & _).
  exists (rev pre). rewrite <- rev_app_distr, <- E, rev_involutive. auto.
Qed.

Lemma strip_split s : exists pre post, s = pre ++ Py.strip s ++ post.
Proof.
  unfold Py.strip.
  destruct (lstrip_by_split is_space s) as (pre & E & _).
  destruct (rstrip_by_split is_space (Py.lstrip_by is_space s)) as (post & E').
  exists pre, post. rewrite <- E'. exact E.
Qed.

(** A substring that does not begin with the stripped character survives
    [lstrip]. *)
Lemma contains_lstrip_chr ch a needle s :
  a <> ch ->
  Py.contains (a :: needle) s = true ->
  Py.contains (a :: needle) (Py.lstrip_chr ch s) = true.
Proof.
  intros Hne. induction s as [|b s IH]; auto.
  intros H. unfold Py.lstrip_chr in *. cbn [Py.lstrip_by].
  unfold chr at 1. destruct (Ascii.eqb ch b) eqn:E; auto.
  apply Ascii.eqb_eq in E. subst b. apply IH.
  cbn [Py.contains Py.startswith] in H.
  replace (Ascii.eqb a ch) with false in H
    by (symmetry; apply Ascii.eqb_neq; auto).
  exact H.
Qed.

Lemma contains_app_r needle pre s :
  Py.contains needle s = true -> Py.contains needle (pre ++ s) = true.
Proof.
  rewrite !contains_spec. intros (p & q & ->).
  exists (pre ++ p), q. rewrite <- app_assoc. auto.
Qed.

Lemma contains_sub needle pre s post :
  Py.contains needle s = true ->
  Py.contains needle (pre ++ s ++ post) = true.
Proof.
  rewrite !contains_spec. intros (p & q & ->).
  exists (pre ++ p), (q ++ post). repeat rewrite <- app_assoc. auto.
Qed.

End PyFacts.

(** ** Whitespace-collapsed text *)

Module CollapseFacts.

Definition nonspace (a : ascii) : Prop := is_space a = false.

(** A word of [s.split()]: not empty, no white space. *)
Definition word (w : str) : Prop := w <> [] /\ Forall nonspace w.

(** [flat_from prev s]: in [s] every white-space character is a space, no
    two of them are adjacent, and none ends [s]; [prev] tells whether the
    character before [s] was white space. *)
Fixpoint flat_from (prev : bool) (s : str) : bool :=
  match s with
  | [] => negb prev
  | a :: s' =>
      if is_space a then negb prev && Ascii.eqb a space && flat_from true s'
      else flat_from false s'
  end.

Definition flat (s : str) : bool :=
  match s with [] => true | _ => flat_from true s end.

Lemma split_aux_words s : forall cur,
  Forall nonspace cur -> Forall word (Py.split_aux cur s).
Proof.
  induction s as [|a s IH]; intros cur F; simpl.
  - destruct cur as [|c cur]; constructor; [|constructor].
    split.
    + intros E. apply (f_equal (@length ascii)) in E.
      rewrite length_rev in E. discriminate.
    + apply Forall_rev. exact F.
  - destruct (is_space a) eqn:Sa.
    + destruct cur as [|c cur].
      * apply IH. constructor.
      * constructor; [|apply IH; constructor].
        split.
        -- intros E. apply (f_equal (@length ascii)) in E.
           rewrite length_rev in E. discriminate.
        -- apply Forall_rev. exact F.
    + apply IH. constructor; auto.
Qed.

Lemma flat_from_word w t : forall b,
  word w -> flat_from b (w ++ t) = flat_from false t.
Proof.
  induction w as [|a w IH]; intros b (Hne & F); [congruence|].
  inversion F as [|? ? Ha Fw]; subst. unfold nonspace in Ha.
  cbn [app flat_from]. rewrite Ha.
  destruct w as [|a' w]; [reflexivity|].
  apply IH. split; [discriminate | exact Fw].
Qed.

Lemma flat_from_join l :
  Forall word l -> l <> [] -> flat_from true (Py.join [space] l) = true.
Proof.
  induction l as [|w l IH]; intros F Hne; [congruence|].
  inversion F as [|? ? Hw Fl]; subst.
  destruct l as [|w2 l].
  - cbn [Py.join]. rewrite <- (app_nil_r w).
    rewrite flat_from_word by auto. reflexivity.
  - change (Py.join [space] (w :: w2 :: l))
      with (w ++ [space] ++ Py.join [space] (w2 :: l)).
    rewrite flat_from_word by auto.
    cbn [app flat_from].
    change (is_space space) with true. cbn [negb andb].
    rewrite Ascii.eqb_refl. cbn [andb].
    apply IH; [exact Fl | discriminate].
Qed.

(** The idiom of line 289 yields flat text. *)
Lemma collapse_flat raw : flat (Py.collapse raw) = true.
Proof.
  unfold Py.collapse, Py.split.
  pose proof (@split_aux_words raw [] ltac:(constructor)) as W.
  destruct (Py.split_aux [] raw) as [|w l] eqn:E; [reflexivity|].
  assert (F : flat_from true (Py.join [space] (w :: l)) = true)
    by (apply flat_from_join; [exact W | discriminate]).
  unfold flat. destruct (Py.join [space] (w :: l)); auto.
Qed.

(** No two adjacent white-space characters. *)
Lemma flat_from_no_gap s : forall b x a c y,
  flat_from b s = true -> s = x ++ a :: c :: y ->
  is_space a = true -> is_space c = false.
Proof.
  induction s as [|h s IH]; intros b x a c y F E Ha.
  - destruct x; discriminate.
  - cbn [flat_from] in F. destruct x as [|h' x]; simpl in E.
    + injection E as -> ->. rewrite Ha in F.
      apply andb_true_iff in F as (_ & F). cbn [flat_from] in F.
      destruct (is_space c); [|reflexivity].
      cbn [negb andb] in F. discriminate.
    + injection E as <- ->.
      destruct (is_space h).
      * apply andb_true_iff in F as (_ & F). eapply IH; eauto.
      * eapply IH; eauto.
Qed.

(** No white space at the end. *)
Lemma flat_from_last s : forall b x a,
  flat_from b s = true -> s = x ++ [a] -> is_space a = false.
Proof.
  induction s as [|h s IH]; intros b x a F E.
  - destruct x; discriminate.
  - cbn [flat_from] in F. destruct x as [|h' x]; simpl in E.
    + injection E as -> ->. destruct (is_space a); [|reflexivity].
      apply andb_true_iff in F as (_ & F). discriminate.
    + injection E as <- ->.
      destruct (is_space h).
      * apply andb_true_iff in F as (_ & F). eapply IH; eauto.
      * eapply IH; eauto.
Qed.

(** The only white-space character is the space. *)
Lemma flat_from_space s : forall b a,
  flat_from b s = true -> In a s -> is_space a = true -> a = space.
Proof.
  induction s as [|h s IH]; intros b a F Hin Ha; [destruct Hin|].
  cbn [flat_from] in F. destruct Hin as [-> | Hin].
  - rewrite Ha in F. apply andb_true_iff in F as (F & _).
    apply andb_true_iff in F as (_ & F). apply Ascii.eqb_eq in F. exact F.
  - destruct (is_space h).
    + apply andb_true_iff in F as (_ & F). eapply IH; eauto.
    + eapply IH; eauto.
Qed.

Lemma flat_no_gap s x a c y :
  flat s = true -> s = x ++ a :: c :: y ->
  is_space a = true -> is_space c = false.
Proof.
  unfold flat. destruct s as [|h s].
  - intros _ E. destruct x; discriminate.
  - apply flat_from_no_gap.
Qed.

Lemma flat_last s x a : flat s = true -> s = x ++ [a] -> is_space a = false.
Proof.
  unfold flat. destruct s as [|h s].
  - intros _ E. destruct x; discriminate.
  - apply flat_from_last.
Qed.

Lemma flat_no_newline s : flat s = true -> ~ In newline s.
Proof.
  unfold flat. destruct s as [|h s]; [intros _ []|].
  intros F Hin.
  assert (E : newline = space)
    by (eapply flat_from_space; [exact F | exact Hin | reflexivity]).
  discriminate.
Qed.

End CollapseFacts.

(** ** The matcher against the declarative reading of a pattern *)

Module RegexFacts.
Import Regex.

Lemma within_dec_take hi n :
  can_take hi = true -> within (dec hi) n -> within hi (S n).
Proof.
  destruct hi as [[|h]|]; simpl; intros Hc W;
    [discriminate | lia | exact I].
Qed.

Lemma within_take hi n :
  within hi (S n) -> can_take hi = true /\ within (dec hi) n.
Proof.
  destruct hi as [[|h]|]; simpl; intros W;
    [lia | split; [reflexivity | lia] | split; [reflexivity | exact I]].
Qed.

Section Sound.
Variable A : Type.
Implicit Types (k : cont A) (x : A).

Definition RepOk (p : ascii -> bool) (lo : nat) (hi : option nat)
           (s1 : str) : Prop :=
  Forall (fun a => p a = true) s1 /\ lo <= length s1 /\ within hi (length s1).

Lemma RepOk_nil p hi : RepOk p 0 hi [].
Proof.
  repeat split; auto. destruct hi; simpl; lia.
Qed.

Lemma RepOk_cons p lo hi a s1 :
  p a = true -> can_take hi = true -> RepOk p (pred lo) (dec hi) s1 ->
  RepOk p lo hi (a :: s1).
Proof.
  intros Ha Hc (F & L & W). repeat split.
  - constructor; auto.
  - simpl. lia.
  - simpl. apply within_dec_take; auto.
Qed.

Lemma rep_greedy_sound p s : forall lo hi c k x,
  rep_greedy p lo hi s c k = Some x ->
  exists s1 rest, s = s1 ++ rest /\ RepOk p lo hi s1 /\ k rest c = Some x.
Proof.
  induction s as [|a s IH]; intros lo hi c k x H; simpl in H.
  - destruct lo; try discriminate.
    exists [], []. split; auto. split; auto using RepOk_nil.
  - destruct (p a && can_take hi) eqn:E.
    + apply andb_prop in E as [Ea Ec].
      destruct (rep_greedy p (pred lo) (dec hi) s c k) eqn:R.
      * inversion H; subst.
        apply IH in R as (s1 & rest & -> & Hok & Hk).
        exists (a :: s1), rest. split; auto. split; auto using RepOk_cons.
      * destruct lo; try discriminate.
        exists [], (a :: s). split; auto. split; auto using RepOk_nil.
    + destruct lo; try discriminate.
      exists [], (a :: s). split; auto. split; auto using RepOk_nil.
Qed.

Lemma rep_lazy_sound p s : forall lo hi c k x,
  rep_lazy p lo hi s c k = Some x ->
  exists s1 rest, s = s1 ++ rest /\ RepOk p lo hi s1 /\ k rest c = Some x.
Proof.
  induction s as [|a s IH]; intros lo hi c k x H; simpl in H.
  - destruct lo; try discriminate.
    destruct (k [] c) eqn:K; try discriminate. inversion H; subst.
    exists [], []. split; auto. split; auto using RepOk_nil.
  - assert (More : (if p a && can_take hi
                    then rep_lazy p (pred lo) (dec hi) s c k else None)
                   = Some x ->
                   exists s1 rest, a :: s = s1 ++ rest /\ RepOk p lo hi s1
                                   /\ k rest c = Some x).
    { intros M. destruct (p a && can_take hi) eqn:E; try discriminate.
      apply andb_prop in E as [Ea Ec].
      apply IH in M as (s1 & rest & -> & Hok & Hk).
      exists (a :: s1), rest. split; auto. split; auto using RepOk_cons. }
    destruct lo; auto.
    destruct (k (a :: s) c) eqn:K; auto.
    inversion H; subst.
    exists [], (a :: s). split; auto. split; auto using RepOk_nil.
Qed.

Lemma rep_greedy_complete p s1 : forall lo hi rest c k,
  RepOk p lo hi s1 -> k rest c <> None ->
  rep_greedy p lo hi (s1 ++ rest) c k <> None.
Proof.
  induction s1 as [|a s1 IH]; intros lo hi rest c k (F & L & W) Hk.
  - simpl in L. assert (lo = 0) by lia. subst lo.
    destruct rest as [|b rest]; simpl; auto.
    destruct (p b && can_take hi); auto.
    destruct (rep_greedy p 0 (dec hi) rest c k); auto. discriminate.
  - inversion F; subst. simpl in W. apply within_take in W as [Hc W].
    simpl. rewrite H1, Hc. simpl.
    assert (R : rep_greedy p (pred lo) (dec hi) (s1 ++ rest) c k <> None).
    { apply IH; auto. repeat split; auto. simpl in L. lia. }
    destruct (rep_greedy p (pred lo) (dec hi) (s1 ++ rest) c k);
      [discriminate | congruence].
Qed.

Lemma rep_lazy_complete p s1 : forall lo hi rest c k,
  RepOk p lo hi s1 -> k rest c <> None ->
  rep_lazy p lo hi (s1 ++ rest) c k <> None.
Proof.
  induction s1 as [|a s1 IH]; intros lo hi rest c k (F & L & W) Hk.
  - simpl in L. assert (lo = 0) by lia. subst lo.
    destruct rest as [|b rest]; simpl.
    + destruct (k [] c); [discriminate | congruence].
    + destruct (k (b :: rest) c); [discriminate | congruence].
  - inversion F; subst. simpl in W. apply within_take in W as [Hc W].
    assert (R : rep_lazy p (pred lo) (dec hi) (s1 ++ rest) c k <> None).
    { apply IH; auto. repeat split; auto. simpl in L. lia. }
    simpl. rewrite H1, Hc. simpl.
    destruct lo; auto.
    destruct (k (a :: s1 ++ rest) c); [discriminate | auto].
Qed.

Lemma firstn_consumed (s1 rest : str) :
  firstn (length (s1 ++ rest) - length rest) (s1 ++ rest) = s1.
Proof.
  rewrite length_app, Nat.add_sub.
  rewrite firstn_app, Nat.sub_diag, firstn_all. simpl. apply app_nil_r.
Qed.

End Sound.

Lemma mt_sound A (r : re) : forall s c (k : cont A) x,
  mt r s c k = Some x ->
  exists s1 rest c', s = s1 ++ rest /\ Matches r s1 rest c c'
                     /\ k rest c' = Some x.
Proof.
  induction r as [|p|a IHa b IHb|a IHa b IHb|p lo hi g|n r IH|];
    intros s c k x H; simpl in H.
  - exists [], s, c. repeat split; auto. constructor.
  - destruct s as [|a s]; try discriminate.
    destruct (p a) eqn:E; try discriminate.
    exists [a], s, c. repeat split; auto. constructor; auto.
  - apply IHa in H as (s1 & rest1 & c1 & -> & M1 & H).
    apply IHb in H as (s2 & rest & c2 & -> & M2 & H).
    exists (s1 ++ s2), rest, c2. rewrite app_assoc. repeat split; auto.
    econstructor; eauto.
  - destruct (mt a s c k) eqn:E.
    + inversion H; subst. apply IHa in E as (s1 & rest & c' & -> & M & K).
      exists s1, rest, c'. repeat split; auto. apply MAltL; auto.
    + apply IHb in H as (s1 & rest & c' & -> & M & K).
      exists s1, rest, c'. repeat split; auto. apply MAltR; auto.
  - destruct g.
    + apply rep_greedy_sound in H as (s1 & rest & -> & (F & L & W) & K).
      exists s1, rest, c. repeat split; auto. constructor; auto.
    + apply rep_lazy_sound in H as (s1 & rest & -> & (F & L & W) & K).
      exists s1, rest, c. repeat split; auto. constructor; auto.
  - apply IH in H as (s1 & rest & c' & -> & M & K).
    rewrite firstn_consumed in K.
    exists s1, rest, ((n, s1) :: c'). repeat split; auto. constructor; auto.
  - destruct (at_endb s) eqn:E; try discriminate.
    exists [], s, c. repeat split; auto. constructor; auto.
Qed.

Lemma mt_complete A (r : re) s1 rest c0 c0' :
  Matches r s1 rest c0 c0' ->
  forall c (k : cont A), (forall c'', k rest c'' <> None) ->
  mt r (s1 ++ rest) c k <> None.
Proof.
  induction 1; intros c' k Hk; simpl.
  - apply Hk.
  - rewrite H. apply Hk.
  - rewrite <- app_assoc. apply IHMatches1. intros c''.
    apply IHMatches2. auto.
  - specialize (IHMatches c' k Hk).
    destruct (mt a (s ++ rest) c' k); [discriminate | congruence].
  - specialize (IHMatches c' k Hk).
    destruct (mt a (s ++ rest) c' k); [discriminate | auto].
  - destruct g.
    + apply rep_greedy_complete; [repeat split; auto | apply Hk].
    + apply rep_lazy_complete; [repeat split; auto | apply Hk].
  - apply IHMatches. intros c''. rewrite firstn_consumed. apply Hk.
  - rewrite H. apply Hk.
Qed.

(** A match of [r] begins at the start of [s]. *)
Definition MatchAt (r : re) (s : str) : Prop :=
  exists m rest c, s = m ++ rest /\ Matches r m rest [] c.

Lemma attempt_sound r s rest c :
  attempt r s = Some (rest, c) ->
  exists m, s = m ++ rest /\ Matches r m rest [] c.
Proof.
  unfold attempt. intros H.
  apply mt_sound in H as (s1 & rest' & c' & -> & M & K).
  inversion K; subst. eauto.
Qed.

Lemma attempt_none r s : attempt r s = None -> ~ MatchAt r s.
Proof.
  intros H (m & rest & c & -> & M).
  eapply mt_complete in M; [apply M, H | discriminate].
Qed.

Lemma attempt_some r s : MatchAt r s -> attempt r s <> None.
Proof.
  intros M H. eapply attempt_none; eauto.
Qed.

Lemma search_from_eq r pre s :
  search_from r pre s =
  match attempt r s with
  | Some (rest, c) =>
      Some (MatchObj pre (firstn (length s - length rest) s) rest c)
  | None =>
      match s with
      | [] => None
      | a :: s' => search_from r (pre ++ [a]) s'
      end
  end.
Proof.
  destruct s; reflexivity.
Qed.

Lemma attempt_hit r s rest c :
  attempt r s = Some (rest, c) ->
  s = firstn (length s - length rest) s ++ rest
  /\ Matches r (firstn (length s - length rest) s) rest [] c.
Proof.
  intros E. apply attempt_sound in E as (m0 & -> & M).
  rewrite firstn_consumed. auto.
Qed.

(** [re.search] returns a match of the pattern, and no match begins to the
    left of it. *)
Lemma search_from_spec r s : forall pre m,
  search_from r pre s = Some m ->
  exists skipped,
    m_pre m = pre ++ skipped
    /\ s = skipped ++ m_all m ++ m_post m
    /\ Matches r (m_all m) (m_post m) [] (m_groups m)
    /\ (forall p q, skipped = p ++ q -> q <> [] ->
                    ~ MatchAt r (q ++ m_all m ++ m_post m)).
Proof.
  induction s as [|a s IH]; intros pre m H; rewrite search_from_eq in H.
  - destruct (attempt r []) as [[rest c]|] eqn:E; try discriminate.
    inversion H; subst; cbn [m_pre m_all m_post m_groups].
    apply attempt_hit in E as (E & M).
    exists []. rewrite app_nil_r. repeat split; auto.
    intros p q Hpq Hq. destruct p; destruct q; simpl in *; congruence.
  - destruct (attempt r (a :: s)) as [[rest c]|] eqn:E.
    + inversion H; subst; cbn [m_pre m_all m_post m_groups].
      apply attempt_hit in E as (E & M).
      exists []. rewrite app_nil_r. repeat split; auto.
      intros p q Hpq Hq. destruct p; destruct q; simpl in *; congruence.
    + apply IH in H as (sk & Hpre & Hs & M & Left).
      exists (a :: sk). rewrite <- app_assoc in Hpre. simpl in Hpre.
      repeat split; auto.
      * simpl. congruence.
      * intros p q Hpq Hq. destruct p as [|b p]; simpl in Hpq.
        -- subst q. simpl. rewrite <- Hs. apply attempt_none; auto.
        -- inversion Hpq; subst. apply Left with (p := p); auto.
Qed.

Lemma search_spec r s m :
  search r s = Some m ->
  s = m_pre m ++ m_all m ++ m_post m
  /\ Matches r (m_all m) (m_post m) [] (m_groups m)
  /\ (forall p q, m_pre m = p ++ q -> q <> [] ->
                  ~ MatchAt r (q ++ m_all m ++ m_post m)).
Proof.
  unfold search. intros H.
  apply search_from_spec in H as (sk & Hpre & Hs & M & Left).
  simpl in Hpre. subst sk. auto.
Qed.

Lemma search_from_none r s : forall pre,
  search_from r pre s = None ->
  forall p q, s = p ++ q -> ~ MatchAt r q.
Proof.
  induction s as [|a s IH]; intros pre H p q Hpq;
    rewrite search_from_eq in H.
  - destruct (attempt r []) as [[rest c]|] eqn:E; try discriminate.
    destruct p; destruct q; try discriminate. apply attempt_none; auto.
  - destruct (attempt r (a :: s)) as [[rest c]|] eqn:E; try discriminate.
    destruct p as [|b p]; simpl in Hpq.
    + subst q. apply attempt_none; auto.
    + inversion Hpq; subst. eapply IH; eauto.
Qed.

Lemma search_none r s : search r s = None -> ~ Contains r s.
Proof.
  intros H (pre & m & post & c & -> & M).
  eapply search_from_none with (p := pre); eauto.
  exists m, post, c. auto.
Qed.

Lemma search_some r s m : search r s = Some m -> Contains r s.
Proof.
  intros H. apply search_spec in H as (Hs & M & _).
  exists (m_pre m), (m_all m), (m_post m), (m_groups m). auto.
Qed.

Lemma search_none_iff r s : search r s = None <-> ~ Contains r s.
Proof.
  split; [apply search_none |].
  intros H. destruct (search r s) eqn:E; auto.
  exfalso. apply H. eapply search_some; eauto.
Qed.

Lemma contains_search r s : Contains r s -> exists m, search r s = Some m.
Proof.
  intros H. destruct (search r s) eqn:E; eauto.
  exfalso. eapply search_none; eauto.
Qed.

End RegexFacts.

(** ** The script's patterns and the specification's tokens *)

Module PatFacts.
Import Regex RegexFacts Pat.

Lemma Matches_seq a b s s1 s2 rest c c1 c2 :
  Matches a s1 (s2 ++ rest) c c1 -> Matches b s2 rest c1 c2 ->
  s = s1 ++ s2 -> Matches (Seq a b) s rest c c2.
Proof.
  intros Ma Mb ->. econstructor; eauto.
Qed.

Lemma Matches_caps r s rest c c' :
  Matches r s rest c c' -> forall d, exists d', Matches r s rest d d'.
Proof.
  induction 1; intros d.
  - eexists; constructor.
  - eexists; constructor; auto.
  - destruct (IHMatches1 d) as (d1 & M1).
    destruct (IHMatches2 d1) as (d2 & M2).
    eexists; econstructor; eauto.
  - destruct (IHMatches d) as (d1 & M1). eexists; apply MAltL; eauto.
  - destruct (IHMatches d) as (d1 & M1). eexists; apply MAltR; eauto.
  - eexists; constructor; auto.
  - destruct (IHMatches d) as (d1 & M1). eexists; constructor; eauto.
  - eexists; constructor; auto.
Qed.

Lemma inv_seq a b s rest c c2 :
  Matches (Seq a b) s rest c c2 ->
  exists s1 s2 c1, s = s1 ++ s2 /\ Matches a s1 (s2 ++ rest) c c1
                   /\ Matches b s2 rest c1 c2.
Proof.
  inversion 1; subst. eauto 7.
Qed.

Lemma inv_cls p s rest c c' :
  Matches (Cls p) s rest c c' -> exists a, s = [a] /\ p a = true /\ c' = c.
Proof.
  inversion 1; subst. eauto.
Qed.

Lemma inv_chr l s rest c c' :
  Matches (Pat.c l) s rest c c' -> s = [l] /\ c' = c.
Proof.
  intros H. apply inv_cls in H as (a & -> & E & ->).
  unfold chr in E. apply Ascii.eqb_eq in E. subst. auto.
Qed.

Lemma inv_eps s rest c c' : Matches Eps s rest c c' -> s = [] /\ c' = c.
Proof.
  inversion 1; subst. auto.
Qed.

Lemma inv_eos s rest c c' :
  Matches Eos s rest c c' -> s = [] /\ c' = c /\ at_endb rest = true.
Proof.
  inversion 1; subst. auto.
Qed.

Lemma inv_grp n r s rest c c' :
  Matches (Grp n r) s rest c c' ->
  exists c1, Matches r s rest c c1 /\ c' = (n, s) :: c1.
Proof.
  inversion 1; subst. eauto.
Qed.

Lemma inv_alt a b s rest c c' :
  Matches (Alt a b) s rest c c' ->
  Matches a s rest c c' \/ Matches b s rest c c'.
Proof.
  inversion 1; subst; auto.
Qed.

(** [s] is a run of [lo] to [hi] characters of the class [p]. *)
Definition Run (p : ascii -> bool) (lo : nat) (hi : option nat) (s : str)
  : Prop :=
  Forall (fun a => p a = true) s /\ lo <= length s /\ within hi (length s).

Lemma inv_rep p lo hi g s rest c c' :
  Matches (Rep p lo hi g) s rest c c' -> Run p lo hi s /\ c' = c.
Proof.
  inversion 1; subst. unfold Run. auto.
Qed.

Lemma Matches_rep p lo hi g s rest c :
  Run p lo hi s -> Matches (Rep p lo hi g) s rest c c.
Proof.
  intros (F & L & W). constructor; auto.
Qed.

Lemma Matches_chr l rest c : Matches (Pat.c l) [l] rest c c.
Proof.
  constructor. apply Ascii.eqb_refl.
Qed.

(** The shape of a short-form token of the script, line 293. *)
Definition ShortDate (lo_y hi_y : nat) (m : str) : Prop :=
  exists mm dd yy,
    m = mm ++ lit "/" ++ dd ++ lit "/" ++ yy
    /\ Run is_digit 1 (Some 2) mm /\ Run is_digit 1 (Some 2) dd
    /\ Run is_digit lo_y (Some hi_y) yy.

Lemma inv_date_body y m rest c c' :
  Matches (seqs [digits 1 2; Pat.c "/"; digits 1 2; Pat.c "/"; y]) m rest c c' ->
  exists mm dd yy,
    m = mm ++ lit "/" ++ dd ++ lit "/" ++ yy
    /\ Run is_digit 1 (Some 2) mm /\ Run is_digit 1 (Some 2) dd
    /\ Matches y yy rest c c'.
Proof.
  unfold seqs, fold_right. intros H.
  apply inv_seq in H as (mm & r1 & c1 & -> & Hm & H).
  apply inv_seq in H as (x1 & r2 & c2 & -> & Hx1 & H).
  apply inv_seq in H as (dd & r3 & c3 & -> & Hd & H).
  apply inv_seq in H as (x2 & r4 & c4 & -> & Hx2 & H).
  apply inv_seq in H as (yy & r5 & c5 & -> & Hy & H).
  apply inv_eps in H as (-> & ->).
  apply inv_chr in Hx1 as (-> & ->). apply inv_chr in Hx2 as (-> & ->).
  apply inv_rep in Hm as (Hm & ->). apply inv_rep in Hd as (Hd & ->).
  exists mm, dd, yy. rewrite !app_nil_r in *. simpl in Hy. auto.
Qed.

Lemma Matches_date_body y mm dd yy rest c c' :
  Run is_digit 1 (Some 2) mm -> Run is_digit 1 (Some 2) dd ->
  Matches y yy rest c c' ->
  Matches (seqs [digits 1 2; Pat.c "/"; digits 1 2; Pat.c "/"; y])
          (mm ++ lit "/" ++ dd ++ lit "/" ++ yy) rest c c'.
Proof.
  intros Hm Hd Hy. unfold seqs, fold_right.
  eapply Matches_seq with (s1 := mm);
    [apply Matches_rep; exact Hm | | reflexivity].
  eapply Matches_seq with (s1 := lit "/");
    [apply Matches_chr | | reflexivity].
  eapply Matches_seq with (s1 := dd);
    [apply Matches_rep; exact Hd | | reflexivity].
  eapply Matches_seq with (s1 := lit "/");
    [apply Matches_chr | | reflexivity].
  eapply Matches_seq with (s1 := yy) (s2 := []);
    [ rewrite app_nil_l; exact Hy | constructor
    | rewrite app_nil_r; reflexivity ].
Qed.

Lemma text_date_shape m rest c c' :
  Matches text_date m rest c c' <-> ShortDate 2 4 m /\ c' = (1, m) :: c.
Proof.
  unfold text_date. split.
  - intros H. apply inv_grp in H as (c1 & H & ->).
    apply inv_date_body in H as (mm & dd & yy & -> & Hm & Hd & Hy).
    apply inv_rep in Hy as (Hy & ->). split; auto.
    exists mm, dd, yy. auto.
  - intros ((mm & dd & yy & -> & Hm & Hd & Hy) & ->).
    constructor. apply Matches_date_body; auto. apply Matches_rep; auto.
Qed.

Lemma spec_short_date_shape m rest c c' :
  Matches SpecWords.short_date m rest c c' <->
  (ShortDate 2 2 m \/ ShortDate 4 4 m) /\ c' = c.
Proof.
  unfold SpecWords.short_date, SpecWords.year_2_or_4. split.
  - intros H. apply inv_date_body in H as (mm & dd & yy & -> & Hm & Hd & Hy).
    apply inv_alt in Hy as [Hy | Hy]; apply inv_rep in Hy as (Hy & ->);
      (split; [|reflexivity]); [left | right]; exists mm, dd, yy; auto.
  - intros ([(mm & dd & yy & -> & Hm & Hd & Hy)
            | (mm & dd & yy & -> & Hm & Hd & Hy)] & ->);
      apply Matches_date_body; auto;
      [apply MAltL | apply MAltR]; apply Matches_rep; auto.
Qed.

Lemma Run_firstn p lo hi n s :
  Run p lo (Some hi) s -> n <= length s ->
  Run p n (Some n) (firstn n s).
Proof.
  intros (F & L & W) Hn. unfold Run. rewrite length_firstn.
  split; [|simpl; lia].
  apply Forall_forall. intros a Ha.
  rewrite Forall_forall in F. apply F.
  rewrite <- (firstn_skipn n s). apply in_or_app. auto.
Qed.

(** A short-form token of the script ends in two to four digits, so its
    first two year digits already complete a token in the specification's
    sense; and a token in the specification's sense is one of the
    script. *)
Lemma text_date_to_spec s :
  Contains text_date s -> Contains SpecWords.short_date s.
Proof.
  intros (pre & m & post & cs & -> & M).
  apply text_date_shape in M as ((mm & dd & yy & -> & Hm & Hd & Hy) & _).
  exists pre, (mm ++ lit "/" ++ dd ++ lit "/" ++ firstn 2 yy),
         (skipn 2 yy ++ post), [].
  split.
  - rewrite <- (firstn_skipn 2 yy) at 1.
    repeat rewrite <- app_assoc. reflexivity.
  - apply spec_short_date_shape. split; auto. left.
    exists mm, dd, (firstn 2 yy).
    (split; [reflexivity|]); (split; [exact Hm|]); (split; [exact Hd|]).
    eapply Run_firstn; eauto. destruct Hy as (_ & L & _). auto.
Qed.

Lemma spec_to_text_date s :
  Contains SpecWords.short_date s -> Contains text_date s.
Proof.
  intros (pre & m & post & cs & -> & M).
  apply spec_short_date_shape in M as (S & _).
  exists pre, m, post, [(1, m)]. split; auto.
  apply text_date_shape. split; auto.
  destruct S as [(mm & dd & yy & -> & Hm & Hd & (F & L & W))
                | (mm & dd & yy & -> & Hm & Hd & (F & L & W))];
    exists mm, dd, yy;
    (split; [reflexivity|]); (split; [exact Hm|]); (split; [exact Hd|]);
    unfold Run; simpl in *; repeat split; auto; lia.
Qed.

(** A short-form token begins at the start of [s]. *)
Definition StartsWithDate (s : str) : Prop :=
  exists tok rest, s = tok ++ rest /\ ShortDate 2 4 tok.

Lemma MatchAt_text_date s : MatchAt text_date s <-> StartsWithDate s.
Proof.
  unfold MatchAt, StartsWithDate. split.
  - intros (m & rest & c & -> & M). apply text_date_shape in M as (S & _).
    eauto.
  - intros (tok & rest & -> & S). exists tok, rest, [(1, tok)].
    split; auto. apply text_date_shape. auto.
Qed.

(** What [re.search] returns for the pattern of line 293: the leftmost
    short-form token, which is also group 1. *)
Lemma search_text_date text m :
  search text_date text = Some m ->
  text = m_pre m ++ m_all m ++ m_post m
  /\ ShortDate 2 4 (m_all m)
  /\ group 1 m = m_all m
  /\ (forall p q, m_pre m = p ++ q -> q <> [] ->
                  ~ StartsWithDate (q ++ m_all m ++ m_post m)).
Proof.
  intros H. apply search_spec in H as (E & M & L).
  apply text_date_shape in M as (S & G).
  repeat split; auto.
  - unfold group. rewrite G. reflexivity.
  - intros p q Hp Hq Hs. apply (L p q Hp Hq).
    apply MatchAt_text_date. exact Hs.
Qed.

(** [s] is the literal [l] up to the case of its letters. *)
Definition eq_ci (l s : str) : Prop :=
  Forall2 (fun x y => chr_i x y = true) l s.

Lemma lit_ci_shape l : forall s rest c c',
  Matches (lit_ci l) s rest c c' <-> eq_ci l s /\ c' = c.
Proof.
  induction l as [|a l IH]; intros s rest c c'; cbn [lit_ci]; split.
  - intros H. apply inv_eps in H as (-> & ->). split; [constructor | auto].
  - intros (E & ->). inversion E; subst. constructor.
  - intros H. apply inv_seq in H as (s1 & s2 & c1 & -> & H1 & H2).
    apply inv_cls in H1 as (x & -> & Hx & ->).
    apply IH in H2 as (E & ->). split; [constructor; auto | auto].
  - intros (E & ->). inversion E as [|? y ? s' Hy E']; subst.
    eapply Matches_seq with (s1 := [y]) (s2 := s');
      [constructor; exact Hy | apply IH; split; [exact E' | reflexivity]
      | reflexivity].
Qed.

(** An occurrence of the label of line 336, in any case. *)
Definition Label (lab : str) : Prop := eq_ci (lit "Location:") lab.

Lemma Label_length lab : Label lab -> length lab = 9.
Proof.
  intros H. apply Forall2_length in H. rewrite <- H. reflexivity.
Qed.

(** The shape of a match of the pattern of line 336: the label, white
    space, group 1 of one or more characters other than a newline, and
    either a run of two or more white-space characters or nothing at the
    end of the string. *)
Lemma location_shape m rest c c' :
  Matches location m rest c c' <->
  exists lab ws grp tail,
    m = lab ++ ws ++ grp ++ tail
    /\ Label lab /\ Run is_space 0 None ws /\ Run dot 1 None grp
    /\ (Run is_space 2 None tail \/ (tail = [] /\ at_endb rest = true))
    /\ c' = (1, grp) :: c.
Proof.
  unfold location, seqs, fold_right, spaces. split.
  - intros H.
    apply inv_seq in H as (lab & r1 & c1 & -> & H1 & H).
    apply inv_seq in H as (ws & r2 & c2 & -> & H2 & H).
    apply inv_seq in H as (grp & r3 & c3 & -> & H3 & H).
    apply inv_seq in H as (tail & r4 & c4 & -> & H4 & H).
    apply inv_eps in H as (-> & ->).
    apply lit_ci_shape in H1 as (L & ->).
    apply inv_rep in H2 as (W & ->).
    apply inv_grp in H3 as (c5 & H3 & ->). apply inv_rep in H3 as (G & ->).
    exists lab, ws, grp, tail. rewrite !app_nil_r.
    repeat split; try apply L; try apply W; try apply G.
    apply inv_alt in H4 as [H4 | H4].
    + apply inv_rep in H4 as (T & ->). auto.
    + apply inv_eos in H4 as (-> & -> & E). simpl in E. auto.
    + apply inv_alt in H4 as [H4 | H4].
      * apply inv_rep in H4 as (_ & ->). reflexivity.
      * apply inv_eos in H4 as (_ & -> & _). reflexivity.
  - intros (lab & ws & grp & tail & -> & L & W & G & T & ->).
    eapply Matches_seq with (s1 := lab);
      [apply lit_ci_shape; split; [exact L | reflexivity] | | reflexivity].
    eapply Matches_seq with (s1 := ws);
      [apply Matches_rep; exact W | | reflexivity].
    eapply Matches_seq with (s1 := grp);
      [constructor; apply Matches_rep; exact G | | reflexivity].
    eapply Matches_seq with (s1 := tail) (s2 := []);
      [ | constructor | rewrite app_nil_r; reflexivity ].
    destruct T as [T | (-> & E)].
    + apply MAltL. apply Matches_rep. exact T.
    + apply MAltR. constructor. exact E.
Qed.

End PatFacts.

(** ** The calendar arithmetic of [datetime] *)

Module DatetimeFacts.
Import Datetime.
Open Scope Z_scope.

Lemma is_leap_spec y :
  is_leap y = true <-> (y mod 4 = 0 /\ (y mod 100 <> 0 \/ y mod 400 = 0)).
Proof.
  unfold is_leap.
  rewrite andb_true_iff, orb_true_iff, negb_true_iff, !Z.eqb_eq, Z.eqb_neq.
  tauto.
Qed.

(** The year [400a + 100b + 4c + d + 1] of the 400-, 100-, 4- and 1-year
    cycles. *)
Definition cyc (a b c d : Z) : Z := 400 * a + 100 * b + 4 * c + d + 1.

Definition in_cycle (b c d : Z) : Prop :=
  0 <= b <= 3 /\ 0 <= c <= 24 /\ 0 <= d <= 3.

Lemma days_before_year_cyc a b c d :
  in_cycle b c d ->
  days_before_year (cyc a b c d) = 146097 * a + 36524 * b + 1461 * c + 365 * d.
Proof.
  unfold in_cycle, days_before_year, cyc. intros H.
  Z.div_mod_to_equations. lia.
Qed.

Lemma is_leap_cyc a b c d :
  in_cycle b c d ->
  is_leap (cyc a b c d) = (d =? 3) && (negb (c =? 24) || (b =? 3)).
Proof.
  unfold in_cycle, cyc. intros H.
  apply eq_true_iff_eq. rewrite is_leap_spec.
  rewrite andb_true_iff, orb_true_iff, negb_true_iff, !Z.eqb_eq, Z.eqb_neq.
  Z.div_mod_to_equations. lia.
Qed.

Lemma shiftr5 x : Z.shiftr x 5 = x / 32.
Proof.
  rewrite Z.shiftr_div_pow2 by lia. reflexivity.
Qed.

Ltac closed_tables :=
  repeat match goal with
    | |- context [nth (Z.to_nat ?k) ?T 0] =>
        let v := eval vm_compute in (nth (Z.to_nat k) T 0) in
        change (nth (Z.to_nat k) T 0) with v
    | |- context [b2z ?b] =>
        let v := eval vm_compute in (b2z b) in change (b2z b) with v
    | |- context [(?a =? 2) && ?l] =>
        let v := eval vm_compute in ((a =? 2) && l) in
        change ((a =? 2) && l) with v
    end.

Definition month_of (leap : bool) (r : Z) : Z * Z :=
  let m := Z.shiftr (r + 50) 5 in
  let preceding :=
    nth (Z.to_nat m) DAYS_BEFORE_MONTH 0 + b2z ((2 <? m) && leap) in
  if r <? preceding then
    let m := m - 1 in
    let preceding :=
      preceding - (nth (Z.to_nat m) DAYS_IN_MONTH 0 + b2z ((m =? 2) && leap)) in
    (m, r - preceding + 1)
  else (m, r - preceding + 1).

Lemma month_of_spec y r :
  0 <= r < 365 ->
  let '(m, d) := month_of (is_leap y) r in
  1 <= m <= 12 /\ 1 <= d <= days_in_month y m
  /\ days_before_month y m + d = r + 1.
Proof.
  intros Hr. unfold month_of. rewrite shiftr5.
  assert (Hm : 1 <= (r + 50) / 32 <= 12) by (Z.div_mod_to_equations; lia).
  assert (Hb : 32 * ((r + 50) / 32) <= r + 50 < 32 * ((r + 50) / 32) + 32)
    by (Z.div_mod_to_equations; lia).
  set (m := (r + 50) / 32) in *.
  unfold days_in_month, days_before_month.
  destruct (is_leap y);
  assert (Hc : m = 1 \/ m = 2 \/ m = 3 \/ m = 4 \/ m = 5 \/ m = 6 \/ m = 7
               \/ m = 8 \/ m = 9 \/ m = 10 \/ m = 11 \/ m = 12) by lia;
  clearbody m;
  repeat (destruct Hc as [Hc | Hc]); subst m;
  closed_tables;
  match goal with
  | |- context [r <? ?p] => destruct (Z.ltb_spec r p)
  end;
  closed_tables; cbv iota; lia.
Qed.

Lemma ord2ymd_month n :
  ord2ymd n =
  let n0 := n - 1 in
  let n400 := n0 / DI400Y in
  let r400 := n0 mod DI400Y in
  let n100 := r400 / DI100Y in
  let r100 := r400 mod DI100Y in
  let n4 := r100 / DI4Y in
  let r4 := r100 mod DI4Y in
  let n1 := r4 / 365 in
  let r1 := r4 mod 365 in
  let y := cyc n400 n100 n4 n1 in
  if (n1 =? 4) || (n100 =? 4) then (y - 1, 12, 31)
  else
    let '(m, d) :=
      month_of ((n1 =? 3) && (negb (n4 =? 24) || (n100 =? 3))) r1 in
    (y, m, d).
Proof.
  unfold ord2ymd, month_of, cyc. cbv zeta.
  replace ((n - 1) / DI400Y * 400 + 1 + (n - 1) mod DI400Y / DI100Y * 100
           + (n - 1) mod DI400Y mod DI100Y / DI4Y * 4
           + (n - 1) mod DI400Y mod DI100Y mod DI4Y / 365)
    with (400 * ((n - 1) / DI400Y) + 100 * ((n - 1) mod DI400Y / DI100Y)
          + 4 * ((n - 1) mod DI400Y mod DI100Y / DI4Y)
          + (n - 1) mod DI400Y mod DI100Y mod DI4Y / 365 + 1) by ring.
  destruct (_ || _); auto.
  destruct (_ <? _); reflexivity.
Qed.

(** [_ord2ymd] inverts [_ymd2ord] on the ordinals of the years 1 to 9999
    and returns a date of the calendar. *)
Lemma ord2ymd_spec n :
  1 <= n <= MAXORDINAL ->
  let '(y, m, d) := ord2ymd n in
  valid_date y m d = true /\ ymd2ord y m d = n.
Proof.
  intros Hn. rewrite ord2ymd_month. cbv zeta.
  unfold DI400Y, DI100Y, DI4Y, MAXORDINAL in *.
  set (n0 := n - 1).
  set (n400 := n0 / 146097). set (r400 := n0 mod 146097).
  set (n100 := r400 / 36524). set (r100 := r400 mod 36524).
  set (n4 := r100 / 1461). set (r4 := r100 mod 1461).
  set (n1 := r4 / 365). set (r1 := r4 mod 365).
  assert (E400 : n0 = 146097 * n400 + r400 /\ 0 <= r400 < 146097)
    by (unfold n400, r400; Z.div_mod_to_equations; lia).
  assert (E100 : r400 = 36524 * n100 + r100 /\ 0 <= r100 < 36524)
    by (unfold n100, r100; Z.div_mod_to_equations; lia).
  assert (E4 : r100 = 1461 * n4 + r4 /\ 0 <= r4 < 1461)
    by (unfold n4, r4; Z.div_mod_to_equations; lia).
  assert (E1 : r4 = 365 * n1 + r1 /\ 0 <= r1 < 365)
    by (unfold n1, r1; Z.div_mod_to_equations; lia).
  assert (E0 : n0 = n - 1) by reflexivity.
  clearbody n0 n400 r400 n100 r100 n4 r4 n1 r1.
  destruct ((n1 =? 4) || (n100 =? 4)) eqn:Sp.
  - (* the last day of a leap year or of a 400-year cycle *)
    apply orb_true_iff in Sp. rewrite !Z.eqb_eq in Sp.
    unfold valid_date, ymd2ord, days_in_month, days_before_month.
    destruct (Z.eq_dec n100 4) as [H4 | H4].
    + assert (Y : cyc n400 n100 n4 n1 - 1 = cyc n400 3 24 3)
        by (unfold cyc; lia).
      assert (C : in_cycle 3 24 3) by (unfold in_cycle; lia).
      rewrite Y, (days_before_year_cyc n400 C), (is_leap_cyc n400 C).
      closed_tables. cbv iota.
      unfold MINYEAR, MAXYEAR, cyc.
      rewrite !andb_true_iff, !Z.leb_le. lia.
    + assert (Y : cyc n400 n100 n4 n1 - 1 = cyc n400 n100 n4 3)
        by (unfold cyc; lia).
      assert (C : in_cycle n100 n4 3) by (unfold in_cycle; lia).
      rewrite Y, (days_before_year_cyc n400 C), (is_leap_cyc n400 C).
      replace (n4 =? 24) with false by (symmetry; apply Z.eqb_neq; lia).
      change ((3 =? 3) && (negb false || (n100 =? 3))) with true.
      closed_tables. cbv iota.
      unfold MINYEAR, MAXYEAR, cyc.
      rewrite !andb_true_iff, !Z.leb_le. lia.
  - apply orb_false_iff in Sp. rewrite !Z.eqb_neq in Sp.
    assert (C : in_cycle n100 n4 n1) by (unfold in_cycle; lia).
    rewrite <- (is_leap_cyc n400 C).
    pose proof (@month_of_spec (cyc n400 n100 n4 n1) r1 (proj2 E1)) as M.
    destruct (month_of (is_leap (cyc n400 n100 n4 n1)) r1) as [m d].
    destruct M as (Hm & Hd & Hs).
    unfold valid_date, ymd2ord.
    rewrite (days_before_year_cyc n400 C).
    split; [|lia].
    unfold MINYEAR, MAXYEAR, cyc in *.
    rewrite !andb_true_iff, !Z.leb_le. lia.
Qed.

Lemma days_before_year_succ y :
  days_before_year (y + 1) = days_before_year y + 365 + b2z (is_leap y).
Proof.
  unfold days_before_year, b2z.
  destruct (is_leap y) eqn:L.
  - apply is_leap_spec in L. Z.div_mod_to_equations. lia.
  - assert (~ (y mod 4 = 0 /\ (y mod 100 <> 0 \/ y mod 400 = 0)))
      by (rewrite <- is_leap_spec; congruence).
    Z.div_mod_to_equations. lia.
Qed.

Lemma days_before_year_mono a b :
  a <= b -> days_before_year a <= days_before_year b.
Proof.
  unfold days_before_year. intros H. Z.div_mod_to_equations. lia.
Qed.

Lemma valid_date_spec y m d :
  valid_date y m d = true <->
  1 <= y <= 9999 /\ 1 <= m <= 12 /\ 1 <= d <= days_in_month y m.
Proof.
  unfold valid_date, MINYEAR, MAXYEAR.
  rewrite !andb_true_iff, !Z.leb_le. lia.
Qed.

Ltac split_month m :=
  let Hc := fresh "Hc" in
  assert (Hc : m = 1 \/ m = 2 \/ m = 3 \/ m = 4 \/ m = 5 \/ m = 6 \/ m = 7
               \/ m = 8 \/ m = 9 \/ m = 10 \/ m = 11 \/ m = 12) by lia;
  repeat (destruct Hc as [Hc | Hc]); subst m.

(** The day of the year of a date of the calendar. *)
Lemma day_of_year_bound y m d :
  1 <= m <= 12 -> 1 <= d <= days_in_month y m ->
  1 <= days_before_month y m + d <= 365 + b2z (is_leap y).
Proof.
  unfold days_in_month, days_before_month. intros Hm.
  destruct (is_leap y); split_month m; closed_tables; cbv iota; lia.
Qed.

Lemma days_before_month_next y m1 m2 :
  1 <= m1 -> m1 < m2 -> m2 <= 12 ->
  days_before_month y m1 + days_in_month y m1 <= days_before_month y m2.
Proof.
  unfold days_in_month, days_before_month. intros H1 H12 H2.
  destruct (is_leap y); split_month m1; split_month m2; try lia;
    closed_tables; cbv iota; lia.
Qed.

(** [_ymd2ord] is increasing in the order of (year, month, day). *)
Lemma ymd2ord_lt y1 m1 d1 y2 m2 d2 :
  valid_date y1 m1 d1 = true -> valid_date y2 m2 d2 = true ->
  y1 < y2 \/ (y1 = y2 /\ (m1 < m2 \/ (m1 = m2 /\ d1 < d2))) ->
  ymd2ord y1 m1 d1 < ymd2ord y2 m2 d2.
Proof.
  rewrite !valid_date_spec. intros (Hy1 & Hm1 & Hd1) (Hy2 & Hm2 & Hd2) H.
  unfold ymd2ord.
  pose proof (day_of_year_bound y1 Hm1 Hd1) as B1.
  pose proof (day_of_year_bound y2 Hm2 Hd2) as B2.
  destruct H as [H | (-> & [H | (-> & H)])].
  - pose proof (days_before_year_succ y1) as S1.
    pose proof (@days_before_year_mono (y1 + 1) y2 ltac:(lia)). lia.
  - pose proof (@days_before_month_next y2 m1 m2 ltac:(lia) H ltac:(lia)). lia.
  - lia.
Qed.

(** Microseconds from the start of day 0 of the proleptic calendar. *)
Definition instant (d : naive) : Z :=
  (toordinal d * 86400 + seconds_of_day d) * 1000000 + microsecond d.

Lemma valid_spec d :
  valid d = true <->
  valid_date (year d) (month d) (day d) = true
  /\ 0 <= hour d <= 23 /\ 0 <= minute d <= 59 /\ 0 <= second d <= 59
  /\ 0 <= microsecond d <= 999999.
Proof.
  unfold valid, valid_time.
  rewrite !andb_true_iff, !Z.leb_le. tauto.
Qed.

Lemma lex_leb_cons x a y b :
  lex_leb (x :: a) (y :: b) = true <-> x < y \/ (x = y /\ lex_leb a b = true).
Proof.
  cbn [lex_leb]. rewrite orb_true_iff, andb_true_iff, Z.ltb_lt, Z.eqb_eq.
  tauto.
Qed.

Lemma ymd2ord_eq_or_lt y1 m1 d1 y2 m2 d2 :
  valid_date y1 m1 d1 = true -> valid_date y2 m2 d2 = true ->
  (y1 < y2 -> ymd2ord y1 m1 d1 < ymd2ord y2 m2 d2)
  /\ (y1 = y2 -> m1 < m2 -> ymd2ord y1 m1 d1 < ymd2ord y2 m2 d2)
  /\ (y1 = y2 -> m1 = m2 -> ymd2ord y1 m1 d1 - d1 = ymd2ord y2 m2 d2 - d2).
Proof.
  intros V1 V2. repeat split.
  - intros H. apply ymd2ord_lt; auto.
  - intros H1 H2. apply ymd2ord_lt; auto.
  - intros -> ->. unfold ymd2ord. lia.
Qed.

(** The comparison of the fields is the comparison of the instants. *)
Lemma lex_leb_instant a b :
  valid a = true -> valid b = true ->
  (lex_leb (fields a) (fields b) = true <-> instant a <= instant b).
Proof.
  rewrite !valid_spec.
  intros (Va & Ha & Hma & Hsa & Hua) (Vb & Hb & Hmb & Hsb & Hub).
  unfold instant, toordinal, seconds_of_day, fields.
  destruct (ymd2ord_eq_or_lt _ _ _ _ _ _ Va Vb) as (L1 & L2 & L3).
  destruct (ymd2ord_eq_or_lt _ _ _ _ _ _ Vb Va) as (R1 & R2 & _).
  set (oa := ymd2ord (year a) (month a) (day a)) in *.
  set (ob := ymd2ord (year b) (month b) (day b)) in *.
  clearbody oa ob.
  rewrite !lex_leb_cons. cbn [lex_leb].
  lia.
Qed.

(** [d + td] lies exactly [td] after [d], keeps the microsecond, and is a
    date and time of the calendar. *)
Lemma add_naive_spec d td d' :
  add_naive d td = Ok d' ->
  instant d' = instant d + (td_days td * 86400 + td_seconds td) * 1000000
  /\ microsecond d' = microsecond d
  /\ valid_date (year d') (month d') (day d') = true
  /\ 0 <= hour d' <= 23 /\ 0 <= minute d' <= 59 /\ 0 <= second d' <= 59.
Proof.
  unfold add_naive.
  set (secs := seconds_of_day d + td_seconds td).
  set (n := toordinal d + td_days td + secs / 86400).
  destruct ((0 <? n) && (n <=? MAXORDINAL)) eqn:R; [|discriminate].
  apply andb_true_iff in R. rewrite Z.ltb_lt, Z.leb_le in R.
  pose proof (@ord2ymd_spec n ltac:(lia)) as S.
  destruct (ord2ymd n) as [[y m] dd]. destruct S as (V & O).
  intros H. apply Ok_inj in H. subst d'.
  unfold instant, toordinal, seconds_of_day.
  cbn [year month day hour minute second microsecond].
  rewrite O. unfold n, toordinal.
  fold (seconds_of_day d). fold secs.
  repeat split; auto; Z.div_mod_to_equations; lia.
Qed.

Lemma add_naive_ok d td :
  1 <= toordinal d + td_days td
       + (seconds_of_day d + td_seconds td) / 86400 <= MAXORDINAL ->
  exists d', add_naive d td = Ok d'.
Proof.
  intros H. unfold add_naive.
  replace ((0 <? _) && (_ <=? MAXORDINAL)) with true.
  - destruct (ord2ymd _) as [[y m] dd]. eauto.
  - symmetry. apply andb_true_iff. rewrite Z.ltb_lt, Z.leb_le. lia.
Qed.

Lemma add_naive_valid d td d' :
  add_naive d td = Ok d' -> 0 <= microsecond d <= 999999 ->
  valid d' = true.
Proof.
  intros H U. apply add_naive_spec in H as (_ & E & V & T).
  apply valid_spec. rewrite E. tauto.
Qed.

Lemma toordinal_range d :
  valid_date (year d) (month d) (day d) = true ->
  1 <= toordinal d <= MAXORDINAL.
Proof.
  intros V. apply valid_date_spec in V as (Hy & Hm & Hd).
  pose proof (day_of_year_bound (year d) Hm Hd) as B.
  pose proof (days_before_year_succ (year d)) as S.
  pose proof (@days_before_year_mono 1 (year d) ltac:(lia)) as L.
  pose proof (@days_before_year_mono (year d + 1) 10000 ltac:(lia)) as U.
  change (days_before_year 1) with 0 in L.
  change (days_before_year 10000) with 3652059 in U.
  unfold toordinal, ymd2ord, MAXORDINAL. lia.
Qed.

Lemma seconds_of_day_range d :
  valid d = true -> 0 <= seconds_of_day d < 86400.
Proof.
  intros V. apply valid_spec in V as (_ & H & M & S & _).
  unfold seconds_of_day. lia.
Qed.

(** Adding a day or less to a date and time of the calendar whose day is
    not the last one cannot overflow. *)
Lemma add_naive_within d td :
  valid d = true -> toordinal d < MAXORDINAL ->
  td_days td = 0 /\ 0 <= td_seconds td <= 86400
  \/ td_days td = 1 /\ td_seconds td = 0 ->
  exists d', add_naive d td = Ok d'.
Proof.
  intros V L T. apply add_naive_ok.
  pose proof (seconds_of_day_range d V) as S.
  apply valid_spec in V as (V & _).
  pose proof (toordinal_range d V) as R.
  destruct T as [(-> & T) | (-> & ->)]; Z.div_mod_to_equations; lia.
Qed.

Close Scope Z_scope.

End DatetimeFacts.

(** ** Link extraction *)

Module LinkFacts.
Import Regex RegexFacts PatFacts PyFacts.

(** [l1] is [l2] with some entries left out, the others in their order. *)
Inductive Subseq {A : Type} : list A -> list A -> Prop :=
| sub_nil : Subseq [] []
| sub_skip x l1 l2 : Subseq l1 l2 -> Subseq l1 (x :: l2)
| sub_take x l1 l2 : Subseq l1 l2 -> Subseq (x :: l1) (x :: l2).

Definition has_url (u : str) (x : link) : bool := str_eqb (url x) u.

(** What [add_href] checks of a reference before it appends it. *)
Definition accepted (u : str) : Prop :=
  Py.startswith (lit "http") u = true
  /\ Py.contains (lit "FormDetail.aspx") u = true
  /\ Py.contains (lit "ID=") u = true.

(** What holds of the url of a link that [add_href] appends: it holds the
    page marker and [ID=], and it is the fixed host followed by the
    reference, unless the reference is kept as it stands, which happens
    only for a reference without a match of the pattern of line 63. *)
Definition carried (u : str) : Prop :=
  Py.contains (lit "FormDetail.aspx") u = true
  /\ Py.contains (lit "ID=") u = true
  /\ ((exists r, u = BASE_HOST ++ r) \/ search Pat.linkto u = None).

Lemma add_href_app found href text :
  add_href found href text = found ++ add_href [] href text.
Proof.
  unfold add_href.
  destruct (negb (Py.nonempty href)); [rewrite app_nil_r; auto|].
  destruct (negb _ || negb _); [rewrite app_nil_r; auto|]. reflexivity.
Qed.

Lemma add_href_accepted href text x :
  In x (add_href [] href text) -> accepted (url x).
Proof.
  unfold add_href.
  destruct (negb (Py.nonempty href)); [intros []|].
  set (h := match search Pat.linkto (Py.strip href) with
            | Some m => m_all m
            | None => Py.strip href
            end).
  destruct (Py.contains (lit "FormDetail.aspx") h) eqn:Hf;
    cbn [negb orb]; [|intros []].
  destruct (Py.contains (lit "ID=") h) eqn:Hi; cbn [negb]; [|intros []].
  cbn [app In]. intros [<- | []]. cbn [url]. unfold accepted.
  destruct (Py.startswith (lit "http") h) eqn:Hh; auto.
  split; [reflexivity|].
  split; apply contains_app_r; apply contains_lstrip_chr; auto; discriminate.
Qed.

(** A reference without the page marker or without [ID=] is not kept. *)
Lemma add_href_rejects found href text :
  Py.contains (lit "FormDetail.aspx") href = false
  \/ Py.contains (lit "ID=") href = false ->
  add_href found href text = found.
Proof.
  intros H. unfold add_href.
  destruct (negb (Py.nonempty href)); auto.
  set (h := match search Pat.linkto (Py.strip href) with
            | Some m => m_all m
            | None => Py.strip href
            end).
  assert (Sub : exists pre post, href = pre ++ h ++ post).
  { destruct (strip_split href) as (p1 & q1 & E1). unfold h.
    destruct (search Pat.linkto (Py.strip href)) as [m|] eqn:E; eauto.
    apply search_spec in E as (E & _). rewrite E in E1.
    exists (p1 ++ m_pre m), (m_post m ++ q1).
    rewrite E1. repeat rewrite <- app_assoc. reflexivity. }
  destruct Sub as (pre & post & Sub).
  assert (K : forall needle, Py.contains needle href = false ->
                             Py.contains needle h = false).
  { intros needle Hn. destruct (Py.contains needle h) eqn:Hh; auto.
    rewrite Sub, contains_sub in Hn; auto. }
  destruct H as [H | H]; apply K in H; rewrite H; cbn [negb orb]; auto.
  rewrite orb_true_r. auto.
Qed.

Lemma fold_add_app {B : Type} (f : list link -> B -> list link) :
  (forall found b, f found b = found ++ f [] b) ->
  forall l found, fold_left f l found = found ++ fold_left f l [].
Proof.
  intros Hf. induction l as [|b l IH]; intros found; simpl.
  - rewrite app_nil_r. auto.
  - rewrite IH, (IH (f [] b)), Hf, app_assoc. reflexivity.
Qed.

Lemma fold_add_all {B : Type} (P : link -> Prop)
      (f : list link -> B -> list link) :
  (forall found b, Forall P found -> Forall P (f found b)) ->
  forall l found, Forall P found -> Forall P (fold_left f l found).
Proof.
  intros Hf. induction l as [|b l IH]; intros found F; simpl; auto.
Qed.

Lemma add_href_all found href text :
  Forall (fun x => accepted (url x)) found ->
  Forall (fun x => accepted (url x)) (add_href found href text).
Proof.
  intros F. rewrite add_href_app. apply Forall_app. split; auto.
  apply Forall_forall. intros x. apply add_href_accepted.
Qed.

Lemma existsb_seen u seen : existsb (str_eqb u) seen = true <-> In u seen.
Proof.
  rewrite existsb_exists. split.
  - intros (v & Hv & E). apply str_eqb_eq in E. subst. auto.
  - intros H. exists u. split; auto. apply str_eqb_eq. auto.
Qed.

Lemma dedup_in found : forall seen x,
  In x (dedup seen found) -> In x found /\ ~ In (url x) seen.
Proof.
  induction found as [|y found IH]; intros seen x; simpl; [tauto|].
  destruct (existsb (str_eqb (url y)) seen) eqn:E.
  - intros H. apply IH in H. tauto.
  - intros [<- | H].
    + split; auto. rewrite <- existsb_seen. congruence.
    + apply IH in H as (H1 & H2). simpl in H2. tauto.
Qed.

Lemma dedup_nodup found : forall seen, NoDup (map url (dedup seen found)).
Proof.
  induction found as [|y found IH]; intros seen; simpl; [constructor|].
  destruct (existsb (str_eqb (url y)) seen) eqn:E; auto.
  simpl. constructor; auto.
  rewrite in_map_iff. intros (x & Hx & Hin).
  apply dedup_in in Hin as (_ & Hn). apply Hn. simpl. auto.
Qed.

Lemma dedup_subseq found : forall seen, Subseq (dedup seen found) found.
Proof.
  induction found as [|y found IH]; intros seen; simpl; [constructor|].
  destruct (existsb (str_eqb (url y)) seen);
    [apply sub_skip | apply sub_take]; auto.
Qed.

(** Looking a url up in the output gives the entry that comes first for
    that url in the input. *)
Lemma dedup_find u found : forall seen,
  ~ In u seen ->
  find (has_url u) (dedup seen found) = find (has_url u) found.
Proof.
  induction found as [|y found IH]; intros seen Hn; simpl; auto.
  destruct (existsb (str_eqb (url y)) seen) eqn:E.
  - apply existsb_seen in E.
    assert (has_url u y = false) as ->.
    { unfold has_url. destruct (str_eqb (url y) u) eqn:F; auto.
      apply str_eqb_eq in F. congruence. }
    auto.
  - simpl. destruct (has_url u y) eqn:F; auto.
    apply IH. simpl. intros [H | H]; auto.
    unfold has_url in F. rewrite <- str_eqb_eq in H. congruence.
Qed.

Lemma nodup_filter_single u l :
  NoDup (map url l) ->
  forall x, find (has_url u) l = Some x -> filter (has_url u) l = [x].
Proof.
  induction l as [|y l IH]; simpl; intros ND x Hx; [discriminate|].
  inversion ND; subst.
  destruct (has_url u y) eqn:F.
  - inversion Hx; subst. f_equal.
    unfold has_url in F. apply str_eqb_eq in F.
    assert (Hnone : forall z, In z l -> has_url u z = false).
    { intros z Hz. unfold has_url. destruct (str_eqb (url z) u) eqn:G; auto.
      apply str_eqb_eq in G. exfalso. apply H1. rewrite F, <- G.
      apply in_map. auto. }
    clear -Hnone. induction l as [|z l IH]; simpl; auto.
    rewrite Hnone by (simpl; auto). apply IH. intros; apply Hnone; simpl; auto.
  - auto.
Qed.

Lemma find_has_url u l :
  In u (map url l) -> exists t, find (has_url u) l = Some (mkLink u t).
Proof.
  induction l as [|y l IH]; simpl; [intros []|].
  intros H. destruct (has_url u y) eqn:F.
  - unfold has_url in F. apply str_eqb_eq in F. destruct y as [uy ty].
    simpl in F. subst. eauto.
  - destruct H as [H | H]; auto.
    unfold has_url in F. rewrite <- str_eqb_eq in H. congruence.
Qed.

Section WithSoup.
Variable BeautifulSoup : str -> list element.

Lemma found_links_passes html :
  found_links BeautifulSoup html
  = pass_anchors [] (BeautifulSoup html)
    ++ pass_onclick [] (BeautifulSoup html) ++ pass_scan [] html.
Proof.
  unfold found_links, pass_scan, pass_onclick.
  rewrite fold_add_app by (intros; apply add_href_app).
  rewrite (fold_add_app (fun f el => add_href f _ _))
    by (intros; apply add_href_app).
  rewrite <- app_assoc. reflexivity.
Qed.

Lemma found_links_accepted html :
  Forall (fun x => accepted (url x)) (found_links BeautifulSoup html).
Proof.
  unfold found_links, pass_scan, pass_onclick, pass_anchors.
  repeat (apply fold_add_all;
          [intros; repeat apply add_href_all; auto|]).
  constructor.
Qed.

End WithSoup.

(** Where an entry of the output stands in the input: it is the first
    entry of the input with its url, and the output that follows it holds
    no url seen up to there. *)
Lemma dedup_split found : forall seen o1 x o2,
  dedup seen found = o1 ++ x :: o2 ->
  exists p q,
    found = p ++ x :: q
    /\ ~ In (url x) (map url p)
    /\ forall y, In y o2 -> ~ In (url y) (map url p).
Proof.
  assert (G : forall found seen o1 x o2,
             dedup seen found = o1 ++ x :: o2 ->
             exists p q,
               found = p ++ x :: q
               /\ ~ In (url x) seen
               /\ ~ In (url x) (map url p)
               /\ (forall u, In u (map url p) ->
                             In u seen \/ In u (map url o1))
               /\ forall y, In y o2 ->
                            ~ In (url y) seen /\ ~ In (url y) (map url o1)).
  { clear found. induction found as [|z found IH]; intros seen o1 x o2 E;
      cbn [dedup] in E.
    - destruct o1; discriminate.
    - destruct (existsb (str_eqb (url z)) seen) eqn:S.
      + apply existsb_seen in S.
        destruct (IH _ _ _ _ E) as (p & q & -> & Nx & Np & Hp & Ho).
        exists (z :: p), q. split; [reflexivity|]. split; [exact Nx|].
        split; [|split; [|exact Ho]].
        * cbn [map In]. intros [H | H]; [|exact (Np H)].
          apply Nx. rewrite <- H. exact S.
        * cbn [map In]. intros u [<- | H]; [left; exact S | auto].
      + assert (Nz : ~ In (url z) seen)
          by (rewrite <- existsb_seen; congruence).
        destruct o1 as [|z' o1]; cbn [app] in E; injection E as <- E.
        * exists [], found. split; [reflexivity|]. split; [exact Nz|].
          split; [intros []|]. split; [intros u []|].
          intros y Hy. rewrite <- E in Hy. apply dedup_in in Hy as (_ & Hy).
          split; [|intros []]. intros H. apply Hy. right. exact H.
        * destruct (IH _ _ _ _ E) as (p & q & -> & Nx & Np & Hp & Ho).
          exists (z :: p), q. split; [reflexivity|].
          split; [intros H; apply Nx; right; exact H|].
          split; [|split].
          -- cbn [map In]. intros [H | H]; [|exact (Np H)].
             apply Nx. left. exact H.
          -- cbn [map In]. intros u [<- | H]; [right; left; reflexivity|].
             destruct (Hp u H) as [[<- | Hs] | Ho1]; auto.
          -- intros y Hy. destruct (Ho y Hy) as (H1 & H2).
             split; [intros H; apply H1; right; exact H|].
             cbn [map In]. intros [H | H]; [|exact (H2 H)].
             apply H1. left. exact H. }
  intros seen o1 x o2 E.
  destruct (G _ _ _ _ _ E) as (p & q & -> & Nx & Np & Hp & Ho).
  exists p, q. split; [reflexivity|]. split; [exact Np|].
  intros y Hy Hin. destruct (Ho y Hy) as (H1 & H2).
  destruct (Hp _ Hin); auto.
Qed.

(** C5: the urls of the returned links are pairwise distinct; a url that
    was found at all, by whichever passes and however often, is returned
    exactly once, with the title of its first occurrence; the returned
    links stand in the order in which their urls were first found: a link
    that is returned before another one was found before the url of the
    other one was found at all; and what was found is the anchor pass,
    then the click-handler pass, then the scan. *)
Theorem C5_links_unique_first_wins
        (BeautifulSoup : str -> list element) (html : str) :
  let found := found_links BeautifulSoup html in
  let out := extract_event_links_from_form_list BeautifulSoup html in
  NoDup (map url out)
  /\ (forall u, In u (map url found) ->
        exists t, filter (has_url u) out = [mkLink u t]
                  /\ find (has_url u) found = Some (mkLink u t))
  /\ (forall x, In x out -> In x found)
  /\ Subseq out found
  /\ (forall o1 x o2 y o3,
        out = o1 ++ x :: o2 ++ y :: o3 ->
        exists p q,
          found = p ++ x :: q
          /\ ~ In (url x) (map url p)
          /\ ~ In (url y) (map url p))
  /\ found = pass_anchors [] (BeautifulSoup html)
             ++ pass_onclick [] (BeautifulSoup html) ++ pass_scan [] html.
Proof.
  intros found out. unfold out, extract_event_links_from_form_list.
  fold found. split; [apply dedup_nodup|].
  split; [|split; [|split; [|split]]].
  - intros u Hu. destruct (find_has_url u found Hu) as (t & Ht).
    exists t. split; auto.
    apply nodup_filter_single; [apply dedup_nodup|].
    rewrite dedup_find; auto.
  - intros x Hx. apply dedup_in in Hx. tauto.
  - apply dedup_subseq.
  - intros o1 x o2 y o3 E.
    apply dedup_split in E as (p & q & E & Nx & Ny).
    exists p, q. split; [exact E|]. split; [exact Nx|].
    apply Ny. apply in_or_app. right. left. reflexivity.
  - apply found_links_passes.
Qed.

Lemma C5_links_unique_first_wins_witness :
  found_links Sample.soup_dup Sample.page_dup
  = [mkLink Sample.url_1 (lit "Camp"); mkLink Sample.url_2 (lit "Hike");
     mkLink Sample.url_1 (lit "Camp again");
     mkLink Sample.url_1 []; mkLink Sample.url_1 []; mkLink Sample.url_2 []]
  /\ extract_event_links_from_form_list Sample.soup_dup Sample.page_dup
     = [mkLink Sample.url_1 (lit "Camp"); mkLink Sample.url_2 (lit "Hike")]
  /\ NoDup (map url (extract_event_links_from_form_list
                       Sample.soup_dup Sample.page_dup))
  /\ (exists t,
        filter (has_url Sample.url_1)
               (extract_event_links_from_form_list
                  Sample.soup_dup Sample.page_dup)
        = [mkLink Sample.url_1 t]
        /\ find (has_url Sample.url_1)
                (found_links Sample.soup_dup Sample.page_dup)
           = Some (mkLink Sample.url_1 t))
  /\ (exists p q,
        found_links Sample.soup_dup Sample.page_dup
        = p ++ mkLink Sample.url_1 (lit "Camp") :: q
        /\ ~ In Sample.url_1 (map url p) /\ ~ In Sample.url_2 (map url p)).
Proof.
  pose proof (C5_links_unique_first_wins Sample.soup_dup Sample.page_dup)
    as H.
  cbv zeta in H. destruct H as (ND & F & _ & _ & Ord & _).
  split; [vm_compute; reflexivity|]. split; [vm_compute; reflexivity|].
  split; [exact ND|]. split.
  - apply F. vm_compute. auto.
  - apply (Ord [] (mkLink Sample.url_1 (lit "Camp")) []
               (mkLink Sample.url_2 (lit "Hike")) []).
    vm_compute. reflexivity.
Defined.

(** Two listing pages: an anchor whose identifier is not a number, and an
    anchor whose target begins with [http] without being a URL. *)
Definition page_abc : str := lit "<a href='FormDetail.aspx?ID=abc'>Camp</a>".

Definition soup_abc (html : str) : list element :=
  [mkElement true (Some (lit "FormDetail.aspx?ID=abc")) None (lit "Camp")].

Definition page_http : str := lit "<a href='httpFormDetail.aspxID='>Camp</a>".

Definition soup_http (html : str) : list element :=
  [mkElement true (Some (lit "httpFormDetail.aspxID=")) None (lit "Camp")].

(** C6, as stated, fails: [add_href] asks for the substring [ID=] only, so
    a reference with a non-numeric identifier is returned; and a reference
    without a match of the pattern of line 63 that begins with [http] is
    returned as it is, absolute or not. *)
Lemma C6_identifier_need_not_be_numeric :
  (extract_event_links_from_form_list soup_abc page_abc
   = [mkLink (lit "https://www.troopwebhost.org/FormDetail.aspx?ID=abc")
             (lit "Camp")]
   /\ ~ Contains SpecWords.numeric_id
                 (lit "https://www.troopwebhost.org/FormDetail.aspx?ID=abc"))
  /\ (extract_event_links_from_form_list soup_http page_http
      = [mkLink (lit "httpFormDetail.aspxID=") (lit "Camp")]
      /\ SpecWords.absolute (lit "httpFormDetail.aspxID=") = false).
Proof.
  split; split.
  - vm_compute. reflexivity.
  - apply search_none. vm_compute. reflexivity.
  - vm_compute. reflexivity.
  - vm_compute. reflexivity.
Qed.

(** The first character of a match of the pattern of line 63 is an [F] in
    either case. *)
Lemma linkto_head m rest c c' :
  Matches Pat.linkto m rest c c' ->
  exists y m', m = y :: m' /\ chr_i "F" y = true.
Proof.
  unfold Pat.linkto, Pat.seqs, fold_right. intros H.
  apply inv_seq in H as (lab & r1 & c1 & -> & H1 & _).
  apply lit_ci_shape in H1 as (E & _).
  inversion E as [|? y ? lab' Hy _]; subst. exists y, (lab' ++ r1).
  split; [reflexivity | exact Hy].
Qed.

Lemma add_href_match found href text m :
  Py.nonempty href = true ->
  search Pat.linkto (Py.strip href) = Some m ->
  Py.contains (lit "FormDetail.aspx") (m_all m) = true ->
  Py.contains (lit "ID=") (m_all m) = true ->
  add_href found href text
  = found ++ [mkLink (BASE_HOST ++ m_all m) (Py.collapse text)].
Proof.
  intros Hne S Hf Hi. unfold add_href. rewrite Hne, S, Hf, Hi.
  cbn [negb orb].
  apply search_spec in S as (_ & M & _).
  apply linkto_head in M as (y & m' & -> & Hy).
  assert (Hh : Ascii.eqb "h" y = false).
  { destruct (Ascii.eqb "h" y) eqn:E; [|reflexivity].
    apply Ascii.eqb_eq in E. subst y. vm_compute in Hy. discriminate. }
  assert (Hs : Ascii.eqb "/" y = false).
  { destruct (Ascii.eqb "/" y) eqn:E; [|reflexivity].
    apply Ascii.eqb_eq in E. subst y. vm_compute in Hy. discriminate. }
  replace (Py.startswith (lit "http") (y :: m')) with false
    by (cbn [lit list_ascii_of_string Py.startswith]; rewrite Hh;
        reflexivity).
  unfold Py.lstrip_chr. cbn [Py.lstrip_by]. unfold chr at 1. rewrite Hs.
  reflexivity.
Qed.

Lemma add_href_carried href text x :
  In x (add_href [] href text) -> carried (url x).
Proof.
  unfold add_href.
  destruct (negb (Py.nonempty href)); [intros []|].
  destruct (search Pat.linkto (Py.strip href)) as [m|] eqn:S.
  - destruct (Py.contains (lit "FormDetail.aspx") (m_all m)) eqn:Hf;
      cbn [negb orb]; [|intros []].
    destruct (Py.contains (lit "ID=") (m_all m)) eqn:Hi; cbn [negb];
      [|intros []].
    apply search_spec in S as (_ & M & _).
    destruct (linkto_head M) as (y & m' & E & Hy).
    assert (Hh : Py.startswith (lit "http") (m_all m) = false).
    { rewrite E. cbn [lit list_ascii_of_string Py.startswith].
      destruct (Ascii.eqb "h" y) eqn:Ey; [|reflexivity].
      apply Ascii.eqb_eq in Ey. subst y. vm_compute in Hy. discriminate. }
    rewrite Hh. cbn [app In]. intros [<- | []]. cbn [url].
    split; [|split; [|left; eauto]];
      apply contains_app_r; apply contains_lstrip_chr; auto; discriminate.
  - destruct (Py.contains (lit "FormDetail.aspx") (Py.strip href)) eqn:Hf;
      cbn [negb orb]; [|intros []].
    destruct (Py.contains (lit "ID=") (Py.strip href)) eqn:Hi; cbn [negb];
      [|intros []].
    cbn [app In]. intros [<- | []]. cbn [url].
    destruct (Py.startswith (lit "http") (Py.strip href)).
    + split; [exact Hf|]. split; [exact Hi|]. right. exact S.
    + split; [|split; [|left; eauto]];
        apply contains_app_r; apply contains_lstrip_chr; auto; discriminate.
Qed.

Lemma add_href_all_carried found href text :
  Forall (fun x => carried (url x)) found ->
  Forall (fun x => carried (url x)) (add_href found href text).
Proof.
  intros F. rewrite add_href_app. apply Forall_app. split; auto.
  apply Forall_forall. intros x. apply add_href_carried.
Qed.

Lemma found_links_carried BeautifulSoup html :
  Forall (fun x => carried (url x)) (found_links BeautifulSoup html).
Proof.
  unfold found_links, pass_scan, pass_onclick, pass_anchors.
  repeat (apply fold_add_all;
          [intros; repeat apply add_href_all_carried; auto|]).
  constructor.
Qed.

(** C6 (amended): every returned url contains the page marker
    [FormDetail.aspx] and contains [ID=], and it is an absolute URL, the
    fixed host followed by the reference, unless it is a reference
    without a match of the pattern of line 63; in every pass a reference
    that lacks the marker or lacks [ID=] is not kept, and a reference in
    which the pattern of line 63 finds the marker with a query is kept as
    the fixed host followed by that match. *)
Theorem C6_links_carry_marker_and_id
        (BeautifulSoup : str -> list element) (html : str) :
  Forall (fun x =>
            Py.contains (lit "FormDetail.aspx") (url x) = true
            /\ Py.contains (lit "ID=") (url x) = true
            /\ ((exists r, url x = BASE_HOST ++ r)
                \/ search Pat.linkto (url x) = None)
            /\ ((exists r, url x = BASE_HOST ++ r) ->
                SpecWords.absolute (url x) = true))
         (extract_event_links_from_form_list BeautifulSoup html)
  /\ (forall found href text,
        Py.contains (lit "FormDetail.aspx") href
        && Py.contains (lit "ID=") href = false ->
        add_href found href text = found)
  /\ (forall found href text m,
        Py.nonempty href = true ->
        search Pat.linkto (Py.strip href) = Some m ->
        Py.contains (lit "FormDetail.aspx") (m_all m) = true ->
        Py.contains (lit "ID=") (m_all m) = true ->
        add_href found href text
        = found ++ [mkLink (BASE_HOST ++ m_all m) (Py.collapse text)]).
Proof.
  split; [|split].
  - apply Forall_forall. intros x Hx.
    unfold extract_event_links_from_form_list in Hx.
    apply dedup_in in Hx as (Hx & _).
    pose proof (found_links_carried BeautifulSoup html) as F.
    rewrite Forall_forall in F. destruct (F x Hx) as (Hf & Hi & Hu).
    split; [exact Hf|]. split; [exact Hi|]. split; [exact Hu|].
    intros (r & ->). reflexivity.
  - intros found href text H. apply add_href_rejects.
    apply andb_false_iff. exact H.
  - intros found href text m. apply add_href_match.
Qed.

Lemma C6_links_carry_marker_and_id_witness :
  Py.contains (lit "FormDetail.aspx")
              (lit "https://www.troopwebhost.org/FormDetail.aspx?ID=abc")
  = true
  /\ SpecWords.absolute
       (lit "https://www.troopwebhost.org/FormDetail.aspx?ID=abc") = true
  /\ add_href [] (lit "FormList.aspx?ID=5") (lit "List") = []
  /\ add_href [] (lit "javascript:LinkTo('FormDetail.aspx?ID=7','')")
              (lit "Hike")
     = [mkLink (lit "https://www.troopwebhost.org/FormDetail.aspx?ID=7")
               (lit "Hike")].
Proof.
  destruct (C6_links_carry_marker_and_id soup_abc page_abc)
    as (H1 & H2 & H3).
  apply Forall_inv in H1. cbn [url] in H1.
  destruct H1 as (Hf & _ & _ & Ha).
  split; [exact Hf|]. split; [apply Ha; eexists; reflexivity|].
  split; [apply H2; reflexivity|].
  apply (H3 [] (lit "javascript:LinkTo('FormDetail.aspx?ID=7','')")
            (lit "Hike")
            (MatchObj (lit "javascript:LinkTo('") (lit "FormDetail.aspx?ID=7")
                      (lit "','')") []));
    vm_compute; reflexivity.
Defined.

End LinkFacts.

(** ** Serialisation *)

Module IcsFacts.
Import PyFacts.

(** The identifier lines of a document. *)
Definition uid_lines (lines : list str) : list str :=
  filter (Py.startswith (lit "UID:")) lines.

Section WithDigest.
Variable year_padded : bool.
Variable sha1_hexdigest : list Byte.byte -> str.

(** The identifier line the specification describes for an event. *)
Definition uid_line (ev : event) : str :=
  lit "UID:"
  ++ sha1_hexdigest (utf8_encode (ev_url ev ++ lit "|" ++ summary ev))
  ++ lit "@troopwebhost".

Lemma uid_lines_app l1 l2 : uid_lines (l1 ++ l2) = uid_lines l1 ++ uid_lines l2.
Proof.
  apply filter_app.
Qed.

Lemma uid_lines_start_end ev l :
  start_end_lines year_padded ev = Ok l -> uid_lines l = [].
Proof.
  unfold start_end_lines, fmt_dt.
  destruct (all_day ev).
  - intros H. apply Ok_inj in H. subst. reflexivity.
  - destruct (Datetime.astimezone_utc (dtstart ev)); simpl; [|discriminate].
    destruct (Datetime.astimezone_utc (dtend ev)); simpl; [|discriminate].
    intros H. apply Ok_inj in H. subst. reflexivity.
Qed.

Lemma uid_lines_text ev : uid_lines (text_lines ev) = [].
Proof.
  unfold text_lines.
  repeat rewrite uid_lines_app.
  repeat match goal with
         | |- context [if ?b then _ else _] => destruct b
         end; reflexivity.
Qed.

Lemma uid_lines_block now_utc ev b :
  event_block year_padded sha1_hexdigest now_utc ev = Ok b ->
  uid_lines b = [uid_line ev].
Proof.
  unfold event_block.
  destruct (start_end_lines year_padded ev) as [se|] eqn:E; cbn [bind];
    [|discriminate].
  intros H. apply Ok_inj in H. subst.
  change ([lit "BEGIN:VEVENT"; lit "UID:" ++ uid sha1_hexdigest ev;
           lit "DTSTAMP:" ++ now_utc] ++ se ++ text_lines ev
          ++ [lit "END:VEVENT"])
    with ([lit "BEGIN:VEVENT"] ++ [lit "UID:" ++ uid sha1_hexdigest ev]
          ++ [lit "DTSTAMP:" ++ now_utc] ++ se ++ text_lines ev
          ++ [lit "END:VEVENT"]).
  repeat rewrite uid_lines_app.
  rewrite (uid_lines_start_end ev E), uid_lines_text.
  reflexivity.
Qed.

Lemma uid_lines_blocks now_utc events : forall bs,
  event_blocks year_padded sha1_hexdigest now_utc events = Ok bs ->
  uid_lines bs = map uid_line events.
Proof.
  induction events as [|ev events IH]; cbn [event_blocks]; intros bs H.
  - apply Ok_inj in H. subst. reflexivity.
  - destruct (event_block year_padded sha1_hexdigest now_utc ev)
      as [b|] eqn:E; cbn [bind] in H; [|discriminate].
    destruct (event_blocks year_padded sha1_hexdigest now_utc events)
      as [bs'|] eqn:E'; cbn [bind] in H; [|discriminate].
    apply Ok_inj in H. subst. rewrite uid_lines_app.
    rewrite (uid_lines_block _ _ E), (IH _ eq_refl). reflexivity.
Qed.

Lemma event_blocks_ok now_utc events :
  Forall (fun ev => exists l, start_end_lines year_padded ev = Ok l) events ->
  exists bs, event_blocks year_padded sha1_hexdigest now_utc events = Ok bs.
Proof.
  induction 1 as [|ev events (l & Hl) _ (bs & Hbs)]; cbn [event_blocks];
    eauto.
  unfold event_block. rewrite Hl. cbn [bind]. rewrite Hbs. cbn [bind]. eauto.
Qed.

Lemma ics_lines_uids now events lines :
  ics_lines year_padded sha1_hexdigest now events = Ok lines ->
  uid_lines lines = map uid_line events.
Proof.
  unfold ics_lines.
  destruct (event_blocks year_padded sha1_hexdigest
                         (Datetime.strftime_utc year_padded now) events)
    as [bs|] eqn:E; cbn [bind]; [|discriminate].
  intros H. apply Ok_inj in H. subst.
  repeat rewrite uid_lines_app.
  rewrite (uid_lines_blocks _ _ E). cbn. apply app_nil_r.
Qed.

(** The start and end lines of an all-day event need no conversion. *)
Lemma start_end_lines_all_day ev :
  all_day ev = true -> exists l, start_end_lines year_padded ev = Ok l.
Proof.
  intros H. unfold start_end_lines. rewrite H. eauto.
Qed.

End WithDigest.

(** C4: the identifier of an event is the digest of the encoded
    [url + "|" + summary] followed by the fixed suffix; a document is
    produced whenever the start and end of every event can be rendered, and
    its identifier lines are exactly those of its events, in order; so two
    runs over events with the same urls and summaries, at any two times,
    give the same identifier lines. *)
Theorem C4_identifiers_depend_on_url_and_summary
        (year_padded : bool) (sha1_hexdigest : list Byte.byte -> str)
        (now : Datetime.naive) (events : list event) :
  (forall ev, uid sha1_hexdigest ev
              = sha1_hexdigest
                  (utf8_encode (ev_url ev ++ lit "|" ++ summary ev))
                ++ lit "@troopwebhost")
  /\ (Forall (fun ev => exists l, start_end_lines year_padded ev = Ok l)
             events ->
      exists lines, ics_lines year_padded sha1_hexdigest now events = Ok lines)
  /\ (forall lines,
        ics_lines year_padded sha1_hexdigest now events = Ok lines ->
        uid_lines lines = map (uid_line sha1_hexdigest) events)
  /\ (forall now' events' lines lines',
        map ev_url events' = map ev_url events ->
        map summary events' = map summary events ->
        ics_lines year_padded sha1_hexdigest now events = Ok lines ->
        ics_lines year_padded sha1_hexdigest now' events' = Ok lines' ->
        uid_lines lines' = uid_lines lines).
Proof.
  split; [reflexivity|]. split; [|split].
  - intros F. unfold ics_lines.
    destruct (@event_blocks_ok year_padded sha1_hexdigest
                (Datetime.strftime_utc year_padded now) _ F)
      as (bs & ->).
    cbn [bind]. eauto.
  - apply ics_lines_uids.
  - intros now' events' lines lines' Hu Hs H H'.
    rewrite (@ics_lines_uids _ _ _ _ _ H), (@ics_lines_uids _ _ _ _ _ H').
    clear H H'. revert events Hu Hs.
    induction events' as [|e' events' IH]; intros [|e events] Hu Hs;
      simpl in *; try discriminate; auto.
    inversion Hu; inversion Hs. f_equal; auto.
    unfold uid_line. congruence.
Qed.

Lemma C4_identifiers_depend_on_url_and_summary_witness :
  exists lines lines',
    ics_lines false Sample.hexdigest Sample.noon [Sample.campout] = Ok lines
    /\ ics_lines false Sample.hexdigest Sample.midnight [Sample.campout]
       = Ok lines'
    /\ uid_lines lines = [uid_line Sample.hexdigest Sample.campout]
    /\ uid_lines lines' = uid_lines lines.
Proof.
  destruct (C4_identifiers_depend_on_url_and_summary
              false Sample.hexdigest Sample.noon [Sample.campout])
    as (_ & H1 & H2 & H3).
  destruct H1 as (lines & E).
  { constructor; [|constructor].
    apply start_end_lines_all_day. reflexivity. }
  destruct (C4_identifiers_depend_on_url_and_summary
              false Sample.hexdigest Sample.midnight [Sample.campout])
    as (_ & H1' & _).
  destruct H1' as (lines' & E').
  { constructor; [|constructor].
    apply start_end_lines_all_day. reflexivity. }
  exists lines, lines'. split; [exact E|]. split; [exact E'|].
  split; [apply H2; exact E|].
  apply (H3 Sample.midnight [Sample.campout] lines lines');
    [reflexivity | reflexivity | exact E | exact E'].
Defined.

(** C10: for no events at all the serialiser returns, without an error,
    the five header lines and the footer line, each ended by CR LF, and the
    result holds no event block. *)
Theorem C10_empty_calendar
        (year_padded : bool) (sha1_hexdigest : list Byte.byte -> str)
        (now : Datetime.naive) :
  exists doc,
    build_ics year_padded sha1_hexdigest now [] = Ok doc
    /\ doc = lit "BEGIN:VCALENDAR" ++ CRLF
             ++ lit "VERSION:2.0" ++ CRLF
             ++ lit "PRODID:-//TroopCalendarSync//EN" ++ CRLF
             ++ lit "CALSCALE:GREGORIAN" ++ CRLF
             ++ lit "METHOD:PUBLISH" ++ CRLF
             ++ lit "END:VCALENDAR" ++ CRLF
    /\ Py.contains (lit "BEGIN:VEVENT") doc = false.
Proof.
  eexists. split; [reflexivity|]. split; reflexivity.
Qed.

End IcsFacts.

(** ** Date resolution and the drop rule *)

Module DetailFacts.
Import Regex RegexFacts PatFacts DatetimeFacts.

Section WithParser.
Variable year_padded : bool.
Variable dtparser_parse : str -> option Datetime.naive.

Lemma date_from_text_none text :
  ~ Contains SpecWords.short_date text ->
  date_from_text dtparser_parse text = None.
Proof.
  intros H. unfold date_from_text.
  destruct (search Pat.text_date text) eqn:E; auto.
  exfalso. apply H, text_date_to_spec. eapply search_some; eauto.
Qed.

Lemma date_from_title_none tg :
  ~ Contains Pat.title_date tg -> date_from_title tg = Ok None.
Proof.
  intros H. unfold date_from_title.
  destruct (search Pat.title_date tg) eqn:E; auto.
  exfalso. apply H. eapply search_some; eauto.
Qed.

Lemma collect_events_dropped x page rest events :
  process_link year_padded dtparser_parse x page = Ok Dropped ->
  collect_events year_padded dtparser_parse ((x, page) :: rest) events
  = collect_events year_padded dtparser_parse rest events.
Proof.
  intros H. simpl. rewrite H. reflexivity.
Qed.

Lemma date_from_text_some text m d :
  search Pat.text_date text = Some m ->
  dtparser_parse (m_all m) = Some d ->
  date_from_text dtparser_parse text
  = Some (Datetime.replace_tzinfo LOCAL_TZ d).
Proof.
  intros Hs Hp. unfold date_from_text. rewrite Hs.
  destruct (@search_text_date _ _ Hs) as (_ & _ & -> & _).
  rewrite Hp. reflexivity.
Qed.

Lemma resolve_time_all_day text dtstart dtend :
  ~ Contains Pat.clock text ->
  resolve_time year_padded dtparser_parse text dtstart dtend
  = (dtstart, dtend, true).
Proof.
  intros H. unfold resolve_time.
  apply search_none_iff in H. rewrite H. reflexivity.
Qed.

End WithParser.

(** C1, as stated, fails: a title whose parenthesised annotation carries a
    three-digit year is of neither form of the specification, and yet the
    pattern of line 306 takes it and an event in the year 123 is emitted. *)
Lemma C1_three_digit_year_is_emitted :
  ~ Contains SpecWords.short_date (lit "")
  /\ ~ Contains SpecWords.paren_date (lit "Campout (01/02/123)")
  /\ parse_detail false Sample.parse (lit "u") (lit "")
                  (lit "Campout (01/02/123)")
     = Ok (Emitted
             (mkEvent (lit "Campout")
                      (Datetime.mkDatetime
                         (Datetime.mkNaive 123 1 2 0 0 0 0) LOCAL_TZ)
                      (Datetime.mkDatetime
                         (Datetime.mkNaive 123 1 3 0 0 0 0) LOCAL_TZ)
                      (lit "") (lit "") (lit "u") true)).
Proof.
  split; [|split].
  - apply search_none. vm_compute. reflexivity.
  - apply search_none. vm_compute. reflexivity.
  - vm_compute. reflexivity.
Qed.

(** C1 (amended): when the flattened text holds no short-form token and the
    title hint holds no parenthesised annotation with a year of two to four
    digits, the round yields [Dropped], whatever the parser; no event is
    appended and the loop goes on with the remaining links. *)
Theorem C1_no_date_token_is_dropped (year_padded : bool)
        (dtparser_parse : str -> option Datetime.naive)
        (u text tg : str) :
  ~ Contains SpecWords.short_date text ->
  ~ Contains Pat.title_date tg ->
  parse_detail year_padded dtparser_parse u text tg = Ok Dropped
  /\ forall x page rest events,
       url x = u -> Py.collapse page = text -> title_guess x = tg ->
       collect_events year_padded dtparser_parse ((x, page) :: rest) events
       = collect_events year_padded dtparser_parse rest events.
Proof.
  intros Ht Hg.
  assert (D : parse_detail year_padded dtparser_parse u text tg = Ok Dropped).
  { unfold parse_detail, resolve_date.
    rewrite date_from_text_none by auto.
    rewrite date_from_title_none by auto. reflexivity. }
  split; auto.
  intros x page rest events Hu Hp Hx.
  apply collect_events_dropped. unfold process_link.
  rewrite Hu, Hp, Hx. exact D.
Qed.

Lemma C1_no_date_token_is_dropped_witness :
  parse_detail false Sample.parse (lit "u") (lit "Bring a tent") (lit "Campout")
  = Ok Dropped
  /\ forall x page rest events,
       url x = lit "u" -> Py.collapse page = lit "Bring a tent" ->
       title_guess x = lit "Campout" ->
       collect_events false Sample.parse ((x, page) :: rest) events
       = collect_events false Sample.parse rest events.
Proof.
  apply (@C1_no_date_token_is_dropped false Sample.parse (lit "u")
           (lit "Bring a tent") (lit "Campout")).
  - apply search_none. vm_compute. reflexivity.
  - apply search_none. vm_compute. reflexivity.
Defined.

(** What is assumed of [dateutil] where the month-first reading of a token
    is spoken of: called with [dayfirst=False] and [yearfirst=False], it
    reads a short-form token whose first number is one of the twelve
    months with that number as the month and the second as the day. *)
Definition reads_month_first (parse : str -> option Datetime.naive) : Prop :=
  forall mm dd yy d,
    Run is_digit 1 (Some 2) mm -> Run is_digit 1 (Some 2) dd ->
    Run is_digit 2 (Some 4) yy ->
    (1 <= Py.int mm <= 12)%Z ->
    parse (mm ++ lit "/" ++ dd ++ lit "/" ++ yy) = Some d ->
    Datetime.month d = Py.int mm /\ Datetime.day d = Py.int dd.

(** Two runs of digits that end at a character that is no digit are the
    same run. *)
Lemma digits_until a : forall b x r r',
  Forall (fun c => is_digit c = true) a ->
  Forall (fun c => is_digit c = true) b ->
  is_digit x = false ->
  a ++ x :: r = b ++ x :: r' -> a = b /\ r = r'.
Proof.
  induction a as [|h a IH]; intros b x r r' Fa Fb Hx E.
  - destruct b as [|k b]; cbn [app] in E.
    + injection E as <-. auto.
    + injection E as <- _. inversion Fb; subst. congruence.
  - inversion Fa as [|? ? Hh Fa']; subst.
    destruct b as [|k b]; cbn [app] in E.
    + injection E as -> _. congruence.
    + injection E as <- E. inversion Fb; subst.
      destruct (IH _ _ _ _ Fa' H2 Hx E) as (-> & ->). auto.
Qed.

Lemma shape_month_day m rest g :
  Matches Sample.shape m rest [] g ->
  exists s1 s3 tail,
    m = s1 ++ lit "/" ++ s3 ++ lit "/" ++ tail
    /\ Forall (fun c => is_digit c = true) s1
    /\ Forall (fun c => is_digit c = true) s3
    /\ assoc 1 g = Some s1 /\ assoc 2 g = Some s3.
Proof.
  unfold Sample.shape, Pat.seqs, fold_right. intros H.
  apply inv_seq in H as (s1 & r1 & c1 & -> & H1 & H).
  apply inv_seq in H as (s2 & r2 & c2 & -> & H2 & H).
  apply inv_seq in H as (s3 & r3 & c3 & -> & H3 & H).
  apply inv_seq in H as (s4 & r4 & c4 & -> & H4 & H).
  apply inv_seq in H as (s5 & r5 & c5 & -> & H5 & H).
  apply inv_seq in H as (s6 & r6 & c6 & -> & H6 & H).
  apply inv_eps in H as (-> & ->).
  apply inv_grp in H1 as (d1 & H1 & ->). apply inv_rep in H1 as ((F1 & _) & ->).
  apply inv_chr in H2 as (-> & ->).
  apply inv_grp in H3 as (d3 & H3 & ->). apply inv_rep in H3 as ((F3 & _) & ->).
  apply inv_chr in H4 as (-> & ->).
  apply inv_grp in H5 as (d5 & H5 & ->). apply inv_rep in H5 as (_ & ->).
  exists s1, s3, (s5 ++ s6 ++ []).
  split; [reflexivity|]. split; [exact F1|]. split; [exact F3|].
  apply inv_alt in H6 as [H6 | H6].
  - apply inv_eos in H6 as (_ & -> & _). split; reflexivity.
  - apply inv_seq in H6 as (t1 & u1 & e1 & -> & T1 & H6).
    apply inv_seq in H6 as (t2 & u2 & e2 & -> & T2 & H6).
    apply inv_seq in H6 as (t3 & u3 & e3 & -> & T3 & H6).
    apply inv_seq in H6 as (t4 & u4 & e4 & -> & T4 & H6).
    apply inv_seq in H6 as (t5 & u5 & e5 & -> & T5 & H6).
    apply inv_seq in H6 as (t6 & u6 & e6 & -> & T6 & H6).
    apply inv_seq in H6 as (t7 & u7 & e7 & -> & T7 & H6).
    apply inv_eps in H6 as (-> & ->).
    apply inv_chr in T1 as (_ & ->).
    apply inv_grp in T2 as (f2 & T2 & ->). apply inv_rep in T2 as (_ & ->).
    apply inv_chr in T3 as (_ & ->).
    apply inv_grp in T4 as (f4 & T4 & ->). apply inv_rep in T4 as (_ & ->).
    apply inv_rep in T5 as (_ & ->).
    apply inv_eos in T7 as (_ & -> & _).
    apply inv_alt in T6 as [T6 | T6];
      apply inv_grp in T6 as (f6 & T6 & ->);
      apply lit_ci_shape in T6 as (_ & ->); split; reflexivity.
Qed.

Lemma sample_reads_month_first : reads_month_first Sample.parse.
Proof.
  intros mm dd yy d (Fm & _) (Fd & _) _ _. unfold Sample.parse.
  destruct (attempt Sample.shape _) as [[rest g]|] eqn:A; [|discriminate].
  apply attempt_sound in A as (m & E & M).
  apply shape_month_day in M as (s1 & s3 & tail & -> & F1 & F3 & G1 & G2).
  rewrite G1, G2.
  cbn [lit list_ascii_of_string app] in E. rewrite <- !app_assoc in E.
  cbn [app] in E.
  apply digits_until in E as (<- & E); [|assumption..|reflexivity].
  rewrite <- ?app_assoc in E. cbn [app] in E.
  apply digits_until in E as (<- & _); [|assumption..|reflexivity].
  destruct (match assoc 4 g, assoc 5 g with
            | Some hs, Some ms => _
            | _, _ => _
            end) as [[h mi]|]; [|discriminate].
  destruct (Datetime.valid _); [|discriminate].
  intros H. injection H as <-. split; reflexivity.
Qed.

(** C2, as stated, fails: the search of line 293 stops at the leftmost
    token, here [20/20/20], which is no date; the token [3/5/2026] further
    on is one, read month-first, and yet it is not tried: the date of the
    title hint is taken, and without one the event is dropped. *)
Lemma C2_later_token_is_not_tried :
  (Sample.score_text = lit "Score 20/20/20 Meeting " ++ lit "3/5/2026"
   /\ Matches SpecWords.short_date (lit "3/5/2026") [] [] []
   /\ Sample.parse (lit "3/5/2026")
      = Some (Datetime.mkNaive 2026 3 5 0 0 0 0)
   /\ Sample.parse (lit "20/20/20") = None)
  /\ forall parse,
       parse (lit "20/20/20") = None ->
       resolve_date parse Sample.score_text (lit "Meeting (01/02/26)")
       = Ok (Some (Datetime.mkDatetime (Datetime.mkNaive 2026 1 2 0 0 0 0)
                                       LOCAL_TZ))
       /\ forall year_padded u,
            parse_detail year_padded parse u Sample.score_text (lit "Meeting")
            = Ok Dropped.
Proof.
  split; [split; [reflexivity | split; [|split; vm_compute; reflexivity]]|].
  - apply spec_short_date_shape. split; [right | reflexivity].
    exists (lit "3"), (lit "5"), (lit "2026").
    split; [reflexivity|].
    unfold Run; repeat split; try (repeat constructor); cbn; lia.
  - intros parse H.
    assert (S : search Pat.text_date Sample.score_text
                = Some (MatchObj (lit "Score ") (lit "20/20/20")
                                 (lit " Meeting 3/5/2026")
                                 [(1, lit "20/20/20")]))
      by (vm_compute; reflexivity).
    assert (D : date_from_text parse Sample.score_text = None).
    { unfold date_from_text. rewrite S.
      change (group 1 _) with (lit "20/20/20"). rewrite H. reflexivity. }
    split.
    + unfold resolve_date. rewrite D. vm_compute. reflexivity.
    + intros year_padded u. unfold parse_detail, resolve_date. rewrite D.
      reflexivity.
Qed.

(** C2 (amended): when the flattened text holds a short-form token, the
    search of line 293 finds the leftmost one, and that is the only token
    tried.  If [dateutil] reads it, the resolved date is its reading with
    the local zone attached, whatever the title hint holds, and, with a
    [dateutil] that reads month-first, its month and day are the first
    and the second number of a token whose first number is a month.  If
    [dateutil] rejects it, the title hint decides, and without an
    annotation there the event is dropped. *)
Theorem C2_text_date_has_priority
        (dtparser_parse : str -> option Datetime.naive) (text : str) :
  Contains SpecWords.short_date text ->
  exists m mm dd yy,
    search Pat.text_date text = Some m
    /\ text = m_pre m ++ m_all m ++ m_post m
    /\ m_all m = mm ++ lit "/" ++ dd ++ lit "/" ++ yy
    /\ Run is_digit 1 (Some 2) mm /\ Run is_digit 1 (Some 2) dd
    /\ Run is_digit 2 (Some 4) yy
    /\ (forall p q, m_pre m = p ++ q -> q <> [] ->
                    ~ StartsWithDate (q ++ m_all m ++ m_post m))
    /\ (forall d tg,
          dtparser_parse (m_all m) = Some d ->
          resolve_date dtparser_parse text tg
          = Ok (Some (Datetime.replace_tzinfo LOCAL_TZ d))
          /\ (reads_month_first dtparser_parse ->
              (1 <= Py.int mm <= 12)%Z ->
              Datetime.month d = Py.int mm /\ Datetime.day d = Py.int dd))
    /\ (forall tg,
          dtparser_parse (m_all m) = None ->
          resolve_date dtparser_parse text tg = date_from_title tg
          /\ (~ Contains Pat.title_date tg ->
              forall year_padded u,
                parse_detail year_padded dtparser_parse u text tg
                = Ok Dropped)).
Proof.
  intros H. apply spec_to_text_date, contains_search in H as (m & Hs).
  destruct (@search_text_date _ _ Hs)
    as (E & (mm & dd & yy & Em & Rm & Rd & Ry) & G & L).
  exists m, mm, dd, yy.
  do 7 (split; [assumption|]). split.
  - intros d tg Hp. split.
    + unfold resolve_date.
      rewrite (@date_from_text_some _ _ _ _ Hs Hp). reflexivity.
    + intros Hmf Hm. rewrite Em in Hp. apply (Hmf _ _ _ _ Rm Rd Ry Hm Hp).
  - intros tg Hp.
    assert (R : resolve_date dtparser_parse text tg = date_from_title tg).
    { unfold resolve_date, date_from_text. rewrite Hs, G, Hp. reflexivity. }
    split; [exact R|].
    intros Ht year_padded u. unfold parse_detail.
    rewrite R, (date_from_title_none Ht). reflexivity.
Qed.

Lemma C2_text_date_has_priority_witness :
  exists m,
    search Pat.text_date (lit "Meeting 3/5/2026 at 7:00 PM") = Some m
    /\ m_all m = lit "3/5/2026"
    /\ resolve_date Sample.parse (lit "Meeting 3/5/2026 at 7:00 PM")
                    (lit "Meeting (01/01/27)")
       = Ok (Some (Datetime.mkDatetime (Datetime.mkNaive 2026 3 5 0 0 0 0)
                                       LOCAL_TZ))
    /\ (forall d, Sample.parse (m_all m) = Some d ->
                  Datetime.month d = 3%Z /\ Datetime.day d = 5%Z).
Proof.
  destruct (@C2_text_date_has_priority
              Sample.parse (lit "Meeting 3/5/2026 at 7:00 PM"))
    as (m & mm & dd & yy & Hs & _ & Em & (Fm & _) & (Fd & _) & _ & _ & R & _).
  - apply search_some
      with (m := MatchObj (lit "Meeting ") (lit "3/5/20") (lit "26 at 7:00 PM")
                          []).
    vm_compute. reflexivity.
  - exists m.
    assert (Hm : m_all m = lit "3/5/2026").
    { pose proof Hs as Hs'. vm_compute in Hs'.
      injection Hs' as <-. reflexivity. }
    split; [exact Hs|]. split; [exact Hm|]. split.
    + apply R. rewrite Hm. vm_compute. reflexivity.
    + intros d Hd. rewrite Hm in Em.
      apply (@digits_until (lit "3") mm "/"%char (lit "5/2026")
                           (dd ++ lit "/" ++ yy)) in Em as (<- & Em);
        [|repeat constructor | assumption | reflexivity].
      apply (@digits_until (lit "5") dd "/"%char (lit "2026") yy)
        in Em as (<- & _);
        [|repeat constructor | assumption | reflexivity].
      apply (proj2 (R d [] Hd) sample_reads_month_first).
      vm_compute. split; discriminate.
Defined.

(** C8: for the title hint [Campout (02/14/26)], a text without a date
    token and without a clock token, the annotation of the title is used
    with the year 2026: the summary is [Campout], the event is all-day,
    starts on 14 February 2026 at midnight local time and ends on
    15 February 2026 at midnight local time. *)
Theorem C8_campout_scenario (year_padded : bool)
        (dtparser_parse : str -> option Datetime.naive) (u text : str) :
  ~ Contains SpecWords.short_date text ->
  ~ Contains Pat.clock text ->
  parse_detail year_padded dtparser_parse u text (lit "Campout (02/14/26)")
  = Ok (Emitted
          (mkEvent (lit "Campout")
                   (Datetime.mkDatetime
                      (Datetime.mkNaive 2026 2 14 0 0 0 0) LOCAL_TZ)
                   (Datetime.mkDatetime
                      (Datetime.mkNaive 2026 2 15 0 0 0 0) LOCAL_TZ)
                   (firstn 2000 text) (resolve_location text) u true)).
Proof.
  intros Ht Hc. unfold parse_detail, resolve_date.
  rewrite date_from_text_none by auto.
  replace (date_from_title (lit "Campout (02/14/26)"))
    with (Ok (Some (Datetime.mkDatetime
                      (Datetime.mkNaive 2026 2 14 0 0 0 0) LOCAL_TZ)))
    by (vm_compute; reflexivity).
  cbn [bind].
  replace (Datetime.add
             (Datetime.mkDatetime (Datetime.mkNaive 2026 2 14 0 0 0 0) LOCAL_TZ)
             (days 1))
    with (Ok (Datetime.mkDatetime
                (Datetime.mkNaive 2026 2 15 0 0 0 0) LOCAL_TZ))
    by (vm_compute; reflexivity).
  cbn [bind].
  rewrite resolve_time_all_day by auto.
  replace (resolve_summary (lit "Campout (02/14/26)")) with (lit "Campout")
    by (vm_compute; reflexivity).
  reflexivity.
Qed.

Lemma C8_campout_scenario_witness :
  parse_detail false Sample.parse (lit "u") (lit "Bring a tent")
               (lit "Campout (02/14/26)")
  = Ok (Emitted
          (mkEvent (lit "Campout")
                   (Datetime.mkDatetime
                      (Datetime.mkNaive 2026 2 14 0 0 0 0) LOCAL_TZ)
                   (Datetime.mkDatetime
                      (Datetime.mkNaive 2026 2 15 0 0 0 0) LOCAL_TZ)
                   (lit "Bring a tent") (lit "") (lit "u") true)).
Proof.
  apply (@C8_campout_scenario false Sample.parse (lit "u")
           (lit "Bring a tent")).
  - apply search_none. vm_compute. reflexivity.
  - apply search_none. vm_compute. reflexivity.
Defined.

(** ** All-day and timed events *)

(** Two datetimes on the same day of the calendar. *)
Definition same_day (a b : Datetime.naive) : Prop :=
  Datetime.year a = Datetime.year b
  /\ Datetime.month a = Datetime.month b
  /\ Datetime.day a = Datetime.day b.

Definition at_midnight (d : Datetime.naive) : Prop :=
  Datetime.hour d = 0%Z /\ Datetime.minute d = 0%Z
  /\ Datetime.second d = 0%Z /\ Datetime.microsecond d = 0%Z.

(** The instant of an aware datetime in its own zone, in microseconds. *)
Definition instant_of (d : Datetime.datetime) : Z :=
  instant (Datetime.local d).

(** What is assumed of [dateutil]: it returns datetimes of the calendar,
    and a string that holds a date only is read as midnight of that
    date. *)
Definition returns_valid (parse : str -> option Datetime.naive) : Prop :=
  forall s d, parse s = Some d -> Datetime.valid d = true.

Definition date_only_is_midnight (parse : str -> option Datetime.naive)
  : Prop :=
  forall s d, ShortDate 2 4 s -> parse s = Some d -> at_midnight d.

Lemma add_spec d td d' :
  Datetime.add d td = Ok d' ->
  Datetime.add_naive (Datetime.local d) td = Ok (Datetime.local d')
  /\ Datetime.utcoffset d' = Datetime.utcoffset d.
Proof.
  unfold Datetime.add.
  destruct (Datetime.add_naive (Datetime.local d) td) as [r|]; cbn [bind];
    [|discriminate].
  intros H. apply Ok_inj in H. subst d'. auto.
Qed.

Lemma add_instant d td d' :
  Datetime.add d td = Ok d' ->
  instant_of d'
  = (instant_of d
     + (Datetime.td_days td * 86400 + Datetime.td_seconds td) * 1000000)%Z.
Proof.
  intros H. apply add_spec in H as (H & _).
  apply add_naive_spec in H as (H & _). exact H.
Qed.

Lemma add_valid d td d' :
  Datetime.add d td = Ok d' -> Datetime.valid (Datetime.local d) = true ->
  Datetime.valid (Datetime.local d') = true.
Proof.
  intros H V. apply add_spec in H as (H & _).
  apply (add_naive_valid _ _ H).
  apply valid_spec in V. tauto.
Qed.

Lemma date_from_title_spec tg d :
  date_from_title tg = Ok (Some d) ->
  Datetime.valid (Datetime.local d) = true
  /\ at_midnight (Datetime.local d)
  /\ Datetime.utcoffset d = LOCAL_TZ.
Proof.
  unfold date_from_title.
  destruct (search Pat.title_date tg) as [m|]; [|discriminate].
  unfold Datetime.make.
  destruct (Datetime.valid_date _ _ _) eqn:V; cbn [bind]; [|discriminate].
  intros H. apply Ok_inj in H. injection H as <-.
  cbn [Datetime.local Datetime.utcoffset]. repeat split.
  unfold Datetime.valid.
  cbn [Datetime.year Datetime.month Datetime.day Datetime.hour
       Datetime.minute Datetime.second Datetime.microsecond].
  rewrite V. reflexivity.
Qed.

Lemma clock_group text m :
  search Pat.clock text = Some m -> group 1 m = m_all m.
Proof.
  intros H. apply search_spec in H as (_ & M & _).
  unfold Pat.clock in M. apply inv_grp in M as (c1 & _ & G).
  unfold group. rewrite G. reflexivity.
Qed.

Section Resolved.
Variable year_padded : bool.
Variable dtparser_parse : str -> option Datetime.naive.
Hypothesis parse_valid : returns_valid dtparser_parse.

Lemma resolve_date_valid text tg d0 :
  resolve_date dtparser_parse text tg = Ok (Some d0) ->
  Datetime.valid (Datetime.local d0) = true
  /\ Datetime.utcoffset d0 = LOCAL_TZ.
Proof.
  unfold resolve_date, date_from_text.
  destruct (search Pat.text_date text) as [m|].
  - destruct (dtparser_parse (group 1 m)) as [d|] eqn:P.
    + intros H. apply Ok_inj in H. injection H as <-.
      split; [|reflexivity]. apply (parse_valid P).
    + intros H. apply date_from_title_spec in H. tauto.
  - intros H. apply date_from_title_spec in H. tauto.
Qed.

Lemma resolve_date_midnight text tg d0 :
  date_only_is_midnight dtparser_parse ->
  resolve_date dtparser_parse text tg = Ok (Some d0) ->
  at_midnight (Datetime.local d0).
Proof.
  intros Hmid. unfold resolve_date, date_from_text.
  destruct (search Pat.text_date text) as [m|] eqn:S.
  - destruct (@search_text_date _ _ S) as (_ & Sh & G & _).
    destruct (dtparser_parse (group 1 m)) as [d|] eqn:P.
    + intros H. apply Ok_inj in H. injection H as <-.
      rewrite G in P. apply (Hmid _ _ Sh P).
    + intros H. apply date_from_title_spec in H. tauto.
  - intros H. apply date_from_title_spec in H. tauto.
Qed.

(** The body of the loop once the date is resolved. *)
Lemma parse_detail_resolved u text tg d0 :
  resolve_date dtparser_parse text tg = Ok (Some d0) ->
  parse_detail year_padded dtparser_parse u text tg
  = (dtend <- Datetime.add d0 (days 1) ;;
     let '(dtstart, dtend, all_day) :=
       resolve_time year_padded dtparser_parse text d0 dtend in
     Ok (Emitted
           (mkEvent (resolve_summary tg) dtstart dtend (firstn 2000 text)
                    (resolve_location text) u all_day))).
Proof.
  intros H. unfold parse_detail. rewrite H. reflexivity.
Qed.

(** With the clock token read on the day of [d0], the two hours fit
    whenever the day after [d0] exists. *)
Lemma resolve_time_timed text d0 dtend0 m d2 :
  Datetime.valid (Datetime.local d0) = true ->
  Datetime.add d0 (days 1) = Ok dtend0 ->
  search Pat.clock text = Some m ->
  dtparser_parse (Datetime.strftime_mdy year_padded (Datetime.local d0)
                  ++ lit " " ++ m_all m) = Some d2 ->
  same_day d2 (Datetime.local d0) ->
  exists dtend',
    Datetime.add (Datetime.replace_tzinfo LOCAL_TZ d2) (hours 2) = Ok dtend'
    /\ resolve_time year_padded dtparser_parse text d0 dtend0
       = (Datetime.replace_tzinfo LOCAL_TZ d2, dtend', false).
Proof.
  intros V0 A0 S P (Sy & Sm & Sd).
  pose proof (parse_valid P) as V2.
  assert (L : (Datetime.toordinal d2 < Datetime.MAXORDINAL)%Z).
  { replace (Datetime.toordinal d2)
      with (Datetime.toordinal (Datetime.local d0))
      by (unfold Datetime.toordinal; rewrite Sy, Sm, Sd; reflexivity).
    apply add_spec in A0 as (A0 & _).
    unfold Datetime.add_naive in A0.
    destruct ((0 <? _)%Z && (_ <=? Datetime.MAXORDINAL)%Z) eqn:R;
      [|discriminate].
    apply andb_true_iff in R. rewrite Z.ltb_lt, Z.leb_le in R.
    pose proof (seconds_of_day_range _ V0) as B.
    cbn [days Datetime.td_days Datetime.td_seconds] in R.
    revert R. Z.div_mod_to_equations. lia. }
  destruct (@add_naive_within d2 (hours 2) V2 L) as (r & Hr).
  { left. cbn. lia. }
  exists (Datetime.mkDatetime r LOCAL_TZ). split.
  - unfold Datetime.add. cbn [Datetime.replace_tzinfo Datetime.local].
    rewrite Hr. reflexivity.
  - unfold resolve_time. rewrite S, (@clock_group _ _ S), P.
    unfold Datetime.add. cbn [Datetime.replace_tzinfo Datetime.local].
    rewrite Hr. reflexivity.
Qed.

End Resolved.



(** ** The stand-in parser meets what is assumed of [dateutil] *)

Lemma sample_returns_valid : returns_valid Sample.parse.
Proof.
  intros s d. unfold Sample.parse.
  destruct (attempt Sample.shape s) as [[rest g]|]; [|discriminate].
  destruct (match assoc 4 g, assoc 5 g with
            | Some hs, Some ms => _
            | _, _ => _
            end) as [[h mi]|]; [|discriminate].
  destruct (Datetime.valid _) eqn:V; [|discriminate].
  intros H. injection H as <-. exact V.
Qed.

Lemma short_date_no_space s : ShortDate 2 4 s -> ~ In " "%char s.
Proof.
  intros (mm & dd & yy & -> & (Fm & _) & (Fd & _) & (Fy & _)) H.
  assert (D : forall l, Forall (fun a => is_digit a = true) l ->
                        ~ In " "%char l).
  { intros l F Hl. rewrite Forall_forall in F. apply F in Hl. discriminate. }
  repeat (apply in_app_or in H; destruct H as [H | H]);
    try (match goal with
         | F : Forall _ ?l, H' : In _ ?l |- _ => exact (D l F H')
         end);
    simpl in H; destruct H as [H | []]; discriminate.
Qed.

Lemma shape_groups m rest g :
  Matches Sample.shape m rest [] g ->
  (assoc 4 g = None /\ assoc 5 g = None) \/ In " "%char m.
Proof.
  unfold Sample.shape, Pat.seqs, fold_right. intros H.
  apply inv_seq in H as (s1 & r1 & c1 & -> & H1 & H).
  apply inv_seq in H as (s2 & r2 & c2 & -> & H2 & H).
  apply inv_seq in H as (s3 & r3 & c3 & -> & H3 & H).
  apply inv_seq in H as (s4 & r4 & c4 & -> & H4 & H).
  apply inv_seq in H as (s5 & r5 & c5 & -> & H5 & H).
  apply inv_seq in H as (s6 & r6 & c6 & -> & H6 & H).
  apply inv_eps in H as (-> & ->).
  apply inv_grp in H1 as (d1 & H1 & ->). apply inv_rep in H1 as (_ & ->).
  apply inv_chr in H2 as (-> & ->).
  apply inv_grp in H3 as (d3 & H3 & ->). apply inv_rep in H3 as (_ & ->).
  apply inv_chr in H4 as (-> & ->).
  apply inv_grp in H5 as (d5 & H5 & ->). apply inv_rep in H5 as (_ & ->).
  apply inv_alt in H6 as [H6 | H6].
  - apply inv_eos in H6 as (-> & -> & _). left. split; reflexivity.
  - right. apply inv_seq in H6 as (t1 & t2 & e1 & -> & T1 & _).
    apply inv_chr in T1 as (-> & _).
    do 5 (apply in_or_app; right).
    apply in_or_app. left. apply in_or_app. left. simpl. auto.
Qed.

Lemma sample_date_only_is_midnight : date_only_is_midnight Sample.parse.
Proof.
  intros s d Sh. unfold Sample.parse.
  destruct (attempt Sample.shape s) as [[rest g]|] eqn:A; [|discriminate].
  apply attempt_sound in A as (m & -> & M).
  apply shape_groups in M as [(G4 & G5) | Sp].
  - rewrite G4.
    destruct (Datetime.valid _) eqn:V; [|discriminate].
    intros H. injection H as <-. repeat split.
  - exfalso. apply (short_date_no_space Sh). apply in_or_app. auto.
Qed.




(** ** The location *)

Lemma prefix_split (A : Type) (a b x y : list A) :
  a ++ x = b ++ y -> length a <= length b ->
  exists q, b = a ++ q /\ x = q ++ y.
Proof.
  revert b. induction a as [|h a IH]; intros b E L.
  - exists b. auto.
  - destruct b as [|h' b]; [simpl in L; lia|].
    simpl in E. injection E as <- E. simpl in L.
    destruct (IH b E ltac:(lia)) as (q & -> & ->). exists q. auto.
Qed.

Lemma lstrip_run ws g :
  Forall (fun a => is_space a = true) ws ->
  Py.lstrip_by is_space (ws ++ g) = Py.lstrip_by is_space g.
Proof.
  induction 1 as [|a ws Ha _ IH]; [reflexivity|].
  cbn [app Py.lstrip_by]. rewrite Ha. exact IH.
Qed.

Lemma starts_ci_spec l : forall s rest,
  SpecWords.starts_ci l s = Some rest <->
  exists lab, eq_ci l lab /\ s = lab ++ rest.
Proof.
  induction l as [|x l IH]; intros s rest; cbn [SpecWords.starts_ci].
  - split.
    + intros H. injection H as <-. exists []. split; [constructor | auto].
    + intros (lab & E & ->). inversion E; subst. reflexivity.
  - destruct s as [|y s].
    + split; [discriminate|].
      intros (lab & E & H). inversion E; subst. discriminate.
    + destruct (chr_i x y) eqn:Hxy.
      * rewrite IH. split.
        -- intros (lab & E & ->). exists (y :: lab).
           split; [constructor; auto | reflexivity].
        -- intros (lab & E & H). inversion E as [|? y' ? lab' Hy E']; subst.
           simpl in H. injection H as -> ->. eauto.
      * split; [discriminate|].
        intros (lab & E & H). inversion E as [|? y' ? lab' Hy E']; subst.
        simpl in H. injection H as -> ->. congruence.
Qed.

(** [after_label] finds the first label. *)
Lemma after_label_some s : forall rest,
  SpecWords.after_label s = Some rest ->
  exists pre lab,
    Label lab /\ s = pre ++ lab ++ rest
    /\ forall pre' lab' rest',
         Label lab' -> s = pre' ++ lab' ++ rest' -> length pre <= length pre'.
Proof.
  induction s as [|a s IH]; intros rest H.
  - vm_compute in H. discriminate.
  - cbn [SpecWords.after_label] in H.
    destruct (SpecWords.starts_ci (lit "Location:") (a :: s)) as [r|] eqn:S.
    + injection H as ->. apply starts_ci_spec in S as (lab & L & E).
      exists [], lab. split; [exact L|]. split; [exact E|].
      intros. simpl. lia.
    + destruct (IH _ H) as (pre & lab & L & E & F).
      exists (a :: pre), lab. split; [exact L|].
      split; [simpl; congruence|].
      intros pre' lab' rest' L' E'. destruct pre' as [|b pre'].
      * exfalso. simpl in E'.
        assert (S' : SpecWords.starts_ci (lit "Location:") (a :: s)
                     = Some rest')
          by (apply starts_ci_spec; eauto).
        congruence.
      * simpl in E'. injection E' as _ E'. simpl.
        apply le_n_S. eapply F; eauto.
Qed.

Lemma after_label_none s :
  SpecWords.after_label s = None ->
  forall pre lab rest, Label lab -> s <> pre ++ lab ++ rest.
Proof.
  induction s as [|a s IH]; intros H pre lab rest L E.
  - apply Label_length in L. apply (f_equal (@length ascii)) in E.
    rewrite !length_app in E. simpl in E. lia.
  - cbn [SpecWords.after_label] in H.
    destruct (SpecWords.starts_ci (lit "Location:") (a :: s)) as [r|] eqn:S;
      [discriminate|].
    destruct pre as [|b pre].
    + assert (S' : SpecWords.starts_ci (lit "Location:") (a :: s) = Some rest)
        by (apply starts_ci_spec; eauto).
      congruence.
    + simpl in E. injection E as _ E. eapply IH; eauto.
Qed.

(** In flattened text no gap of two white-space characters occurs. *)
Lemma upto_gap_flat text rest : forall x,
  CollapseFacts.flat text = true -> text = x ++ rest ->
  SpecWords.upto_gap rest = rest.
Proof.
  induction rest as [|a rest IH]; intros x F E; [reflexivity|].
  cbn [SpecWords.upto_gap]. destruct rest as [|b rest]; [reflexivity|].
  assert (G : is_space a && is_space b = false).
  { destruct (is_space a) eqn:Ha; [|reflexivity].
    rewrite (@CollapseFacts.flat_no_gap _ _ _ _ _ F E Ha). reflexivity. }
  rewrite G. f_equal. apply (IH (x ++ [a])); [exact F|].
  rewrite <- app_assoc. exact E.
Qed.

Lemma flat_dot text x y :
  CollapseFacts.flat text = true -> text = x ++ y ->
  Forall (fun a => Pat.dot a = true) y.
Proof.
  intros F E. apply Forall_forall. intros a Ha.
  unfold Pat.dot. destruct (Ascii.eqb a newline) eqn:N; [|reflexivity].
  apply Ascii.eqb_eq in N. subst a. exfalso.
  apply (@CollapseFacts.flat_no_newline _ F). rewrite E.
  apply in_or_app. auto.
Qed.

(** The location of line 336 on flattened text is the one of the
    specification's words. *)
Lemma resolve_location_flat text :
  CollapseFacts.flat text = true ->
  resolve_location text = SpecWords.location text.
Proof.
  intros F. unfold SpecWords.location, resolve_location.
  destruct (SpecWords.after_label text) as [rest|] eqn:A.
  - destruct (@after_label_some _ _ A) as (pre & lab & L & E & First).
    destruct rest as [|r0 rest'].
    + replace (search Pat.location text) with (@None match_obj);
        [reflexivity|].
      symmetry. apply search_none_iff.
      intros (p & m & post & c & E' & M).
      apply location_shape in M
        as (lab' & ws & grp & tail & -> & L' & _ & (_ & G & _) & _ & _).
      rewrite <- !app_assoc in E'.
      pose proof (First _ _ _ L' E') as Le.
      apply Label_length in L. apply Label_length in L'.
      rewrite E in E'. apply (f_equal (@length ascii)) in E'.
      rewrite !length_app in E'. simpl in E'. lia.
    + assert (At : MatchAt Pat.location (lab ++ r0 :: rest')).
      { exists (lab ++ r0 :: rest'), [], [(1, r0 :: rest')].
        split; [rewrite app_nil_r; reflexivity|].
        apply location_shape. exists lab, [], (r0 :: rest'), [].
        split; [rewrite app_nil_r; reflexivity|].
        split; [exact L|].
        split; [split; [constructor | split; [simpl; lia | exact I]]|].
        split.
        { split; [|split; [simpl; lia | exact I]].
          apply (@flat_dot text (pre ++ lab) _ F).
          rewrite <- app_assoc. exact E. }
        split; [right; split; reflexivity | reflexivity]. }
      destruct (@contains_search Pat.location text) as (m & S).
      { destruct At as (m0 & rest0 & c0 & E0 & M0).
        exists pre, m0, rest0, c0. split; [rewrite E, E0; reflexivity | exact M0]. }
      rewrite S.
      destruct (@search_spec _ _ _ S) as (Et & M & Left).
      apply location_shape in M
        as (lab' & ws & grp & tail & Em & L' & (W & _) & _ & T & Eg).
      rewrite Em in Et. rewrite <- !app_assoc in Et.
      pose proof (First _ _ _ L' Et) as Le.
      rewrite E in Et.
      destruct (@prefix_split _ _ _ _ _ Et Le) as (q & Eq & Er).
      destruct q as [|q0 q].
      * cbn [app] in Er.
        assert (Ll : length lab <= length lab')
          by (apply Label_length in L; apply Label_length in L'; lia).
        destruct (@prefix_split _ _ _ _ _ Er Ll) as (q' & Eq' & Er').
        assert (q' = []).
        { apply Label_length in L. apply Label_length in L'.
          rewrite Eq' in L'. rewrite length_app in L'.
          destruct q'; [reflexivity | simpl in L'; lia]. }
        subst q'. cbn [app] in Er'.
        assert (Tl : tail = [] /\ m_post m = []).
        { destruct T as [(Ft & Lt & _) | (-> & Ee)].
          - exfalso. destruct tail as [|t0 [|t1 tail]]; try (simpl in Lt; lia).
            apply Forall_cons_iff in Ft as (H0 & Ft').
            apply Forall_cons_iff in Ft' as (H1 & _).
            assert (Eg' : text
                          = (pre ++ lab ++ ws ++ grp)
                              ++ t0 :: t1 :: (tail ++ m_post m)).
            { rewrite E, Er'. rewrite <- !app_assoc. reflexivity. }
            rewrite (@CollapseFacts.flat_no_gap _ _ _ _ _ F Eg' H0) in H1.
            discriminate.
          - split; [reflexivity|].
            destruct (m_post m) as [|p0 [|p1 post]] eqn:Ep;
              [reflexivity | | discriminate].
            exfalso. simpl in Ee. apply Ascii.eqb_eq in Ee. subst p0.
            apply (@CollapseFacts.flat_no_newline _ F).
            rewrite E, Er'. cbn [app].
            repeat (apply in_or_app; right). simpl. auto. }
        destruct Tl as (-> & Ep). rewrite Ep in Er'. cbn [app] in Er'.
        rewrite app_nil_r in Er'.
        unfold group. rewrite Eg. cbn [assoc Nat.eqb].
        rewrite (@upto_gap_flat text (r0 :: rest') (pre ++ lab) F)
          by (rewrite <- app_assoc; exact E).
        rewrite Er'. unfold Py.strip. rewrite lstrip_run by exact W.
        reflexivity.
      * exfalso. apply (Left pre (q0 :: q) Eq ltac:(discriminate)).
        rewrite Em. rewrite <- !app_assoc. rewrite <- Er. exact At.
  - replace (search Pat.location text) with (@None match_obj);
      [reflexivity|].
    symmetry. apply search_none_iff.
    intros (p & m & post & c & E' & M).
    apply location_shape in M
      as (lab' & ws & grp & tail & -> & L' & _).
    rewrite <- !app_assoc in E'.
    exact (@after_label_none _ A _ _ _ L' E').
Qed.

Lemma emitted_location (year_padded : bool) parse u text tg e :
  parse_detail year_padded parse u text tg = Ok (Emitted e) ->
  location e = resolve_location text.
Proof.
  unfold parse_detail.
  destruct (resolve_date parse text tg) as [[d0|]|]; cbn [bind];
    try discriminate.
  destruct (Datetime.add d0 (days 1)) as [dtend0|]; cbn [bind];
    [|discriminate].
  destruct (resolve_time year_padded parse text d0 dtend0) as [[s t] a].
  intros H. apply Ok_inj in H. injection H as <-. reflexivity.
Qed.

(** C9: for the flattened text of every detail page, the location of
    every emitted event is the text that follows the first Location: label
    (in any case) up to two consecutive white-space characters or the end
    of the string, trimmed; it is the empty string when the text holds no
    such label.  In flattened text no two white-space characters are
    adjacent, so what is trimmed is all that follows the label. *)
Theorem C9_location_follows_label (year_padded : bool)
        (dtparser_parse : str -> option Datetime.naive)
        (u page_text tg : str) (e : event) :
  parse_detail year_padded dtparser_parse u (Py.collapse page_text) tg
  = Ok (Emitted e) ->
  location e = SpecWords.location (Py.collapse page_text)
  /\ ((forall pre lab rest,
         Label lab -> Py.collapse page_text <> pre ++ lab ++ rest) ->
      location e = [])
  /\ (forall pre lab rest,
        Label lab -> Py.collapse page_text = pre ++ lab ++ rest ->
        (forall pre' lab' rest',
           Label lab' -> Py.collapse page_text = pre' ++ lab' ++ rest' ->
           length pre <= length pre') ->
        location e = Py.strip (SpecWords.upto_gap rest)
        /\ SpecWords.upto_gap rest = rest).
Proof.
  intros He. pose proof (CollapseFacts.collapse_flat page_text) as F.
  assert (El : location e = SpecWords.location (Py.collapse page_text)).
  { rewrite (@emitted_location _ _ _ _ _ _ He).
    apply resolve_location_flat, F. }
  split; [exact El|]. split.
  - intros No. rewrite El. unfold SpecWords.location.
    destruct (SpecWords.after_label _) as [rest|] eqn:A; [|reflexivity].
    exfalso. destruct (@after_label_some _ _ A) as (pre & lab & L & E & _).
    exact (No _ _ _ L E).
  - intros pre lab rest L E First. split.
    + rewrite El. unfold SpecWords.location.
      destruct (SpecWords.after_label _) as [rest0|] eqn:A.
      * destruct (@after_label_some _ _ A) as (pre0 & lab0 & L0 & E0 & First0).
        pose proof (First _ _ _ L0 E0) as Le1.
        pose proof (First0 _ _ _ L E) as Le2.
        rewrite E in E0.
        destruct (@prefix_split _ _ _ _ _ E0 Le1) as (q & Eq & Er).
        assert (q = []).
        { subst pre0. rewrite length_app in Le2.
          destruct q; [reflexivity | simpl in Le2; lia]. }
        subst q. cbn [app] in Er.
        assert (Ll : length lab <= length lab0)
          by (apply Label_length in L; apply Label_length in L0; lia).
        destruct (@prefix_split _ _ _ _ _ Er Ll) as (q' & Eq' & Er').
        assert (q' = []).
        { apply Label_length in L. apply Label_length in L0.
          rewrite Eq' in L0. rewrite length_app in L0.
          destruct q'; [reflexivity | simpl in L0; lia]. }
        subst q'. cbn [app] in Er'. subst rest0. reflexivity.
      * exfalso. exact (@after_label_none _ A _ _ _ L E).
    + apply (@upto_gap_flat (Py.collapse page_text) rest (pre ++ lab) F).
      rewrite <- app_assoc. exact E.
Qed.

Lemma C9_location_follows_label_witness :
  exists e,
    parse_detail false Sample.parse (lit "u")
      (Py.collapse (lit "Meeting 3/5/2026  at 7:00 PM   LOCATION:   Scout  Hut  "))
      (lit "Meeting")
    = Ok (Emitted e)
    /\ location e = lit "Scout Hut"
    /\ location e
       = SpecWords.location
           (Py.collapse
              (lit "Meeting 3/5/2026  at 7:00 PM   LOCATION:   Scout  Hut  ")).
Proof.
  eexists. split; [vm_compute; reflexivity|].
  split; [vm_compute; reflexivity|].
  apply (@C9_location_follows_label false
           Sample.parse (lit "u")
           (lit "Meeting 3/5/2026  at 7:00 PM   LOCATION:   Scout  Hut  ")
           (lit "Meeting")).
  vm_compute. reflexivity.
Defined.

End DetailFacts.

(** ** More on the listing page *)

Module ListingFacts.
Import Regex RegexFacts PatFacts PyFacts LinkFacts.

(** [re.search] at a known position: no match begins in [skipped], and the
    matcher succeeds right after it. *)
Lemma search_from_at r s rest c : forall skipped pre,
  (forall p q, skipped = p ++ q -> q <> [] -> ~ MatchAt r (q ++ s)) ->
  attempt r s = Some (rest, c) ->
  search_from r pre (skipped ++ s)
  = Some (MatchObj (pre ++ skipped) (firstn (length s - length rest) s)
                   rest c).
Proof.
  induction skipped as [|a sk IH]; intros pre No At.
  - cbn [app]. rewrite search_from_eq, At, app_nil_r. reflexivity.
  - cbn [app]. rewrite search_from_eq.
    destruct (attempt r (a :: sk ++ s)) as [[rest' c']|] eqn:E.
    + exfalso. apply (No [] (a :: sk) eq_refl ltac:(discriminate)).
      apply attempt_sound in E as (m & E & M).
      exists m, rest', c'. auto.
    + rewrite IH; [rewrite <- app_assoc; reflexivity | | exact At].
      intros p q Hpq Hq. apply (No (a :: p) q); [|exact Hq].
      rewrite Hpq. reflexivity.
Qed.

Lemma search_at r skipped s rest c :
  (forall p q, skipped = p ++ q -> q <> [] -> ~ MatchAt r (q ++ s)) ->
  attempt r s = Some (rest, c) ->
  search r (skipped ++ s)
  = Some (MatchObj skipped (firstn (length s - length rest) s) rest c).
Proof.
  intros No At. unfold search.
  rewrite (@search_from_at r s rest c skipped [] No At). reflexivity.
Qed.

(** What [add_href] appends: nothing, or one link whose title is the
    flattened text. *)
Lemma add_href_cases href text :
  add_href [] href text = []
  \/ exists u, add_href [] href text = [mkLink u (Py.collapse text)].
Proof.
  unfold add_href.
  destruct (negb (Py.nonempty href)); [auto|].
  destruct (negb _ || negb _); [auto|]. right. cbn [app]. eauto.
Qed.

Lemma add_href_keeps (P : link -> Prop) found href text :
  (forall u, P (mkLink u (Py.collapse text))) ->
  Forall P found -> Forall P (add_href found href text).
Proof.
  intros HP F. rewrite add_href_app. apply Forall_app. split; [exact F|].
  destruct (add_href_cases href text) as [-> | (u & ->)];
    [constructor | constructor; [apply HP | constructor]].
Qed.

(** The titles of the links: every title is flattened text, and a link
    that the scan of the page source adds has the empty title. *)
Theorem link_titles_are_flattened
        (BeautifulSoup : str -> list element) (html : str) :
  Forall (fun x => CollapseFacts.flat (title x) = true)
         (extract_event_links_from_form_list BeautifulSoup html)
  /\ Forall (fun x => title x = []) (pass_scan [] html).
Proof.
  split.
  - assert (F : Forall (fun x => CollapseFacts.flat (title x) = true)
                       (found_links BeautifulSoup html)).
    { unfold found_links, pass_scan, pass_onclick, pass_anchors.
      repeat (apply fold_add_all;
              [intros; repeat apply add_href_keeps; auto;
               intros; apply CollapseFacts.collapse_flat|]).
      constructor. }
    unfold extract_event_links_from_form_list.
    rewrite Forall_forall in *. intros x Hx.
    apply dedup_in in Hx as (Hx & _). auto.
  - unfold pass_scan. apply fold_add_all; [|constructor].
    intros found m F. apply add_href_keeps; [reflexivity | exact F].
Qed.

(** A reference that the pattern of line 63 finds in the attribute is cut
    out of it and put under the fixed host: whatever comes before it in the
    attribute (a scheme, a host, a path, a script call) and whatever comes
    after it is left out of the url. *)
Theorem reference_is_rebased
        (found : list link) (href text : str) (m : match_obj) :
  Py.nonempty href = true ->
  search Pat.linkto (Py.strip href) = Some m ->
  Py.contains (lit "FormDetail.aspx") (m_all m) = true ->
  Py.contains (lit "ID=") (m_all m) = true ->
  add_href found href text
  = found ++ [mkLink (BASE_HOST ++ m_all m) (Py.collapse text)].
Proof.
  apply add_href_match.
Qed.

Lemma reference_is_rebased_witness :
  add_href []
    (lit "https://www.troopwebhost.org/Troop1Mendon/FormDetail.aspx?Form_ID=182&ID=5")
    (lit " Winter   Campout ")
  = [mkLink (lit "https://www.troopwebhost.org/FormDetail.aspx?Form_ID=182&ID=5")
            (lit "Winter Campout")].
Proof.
  apply (@reference_is_rebased []
           (lit "https://www.troopwebhost.org/Troop1Mendon/FormDetail.aspx?Form_ID=182&ID=5")
           (lit " Winter   Campout ")
           (MatchObj (lit "https://www.troopwebhost.org/Troop1Mendon/")
                     (lit "FormDetail.aspx?Form_ID=182&ID=5") [] []));
    vm_compute; reflexivity.
Defined.

Lemma subseq_filter (A : Type) (f : A -> bool) (l : list A) :
  Subseq (filter f l) l.
Proof.
  induction l as [|a l IH]; simpl; [constructor|].
  destruct (f a); [apply sub_take | apply sub_skip]; exact IH.
Qed.

Lemma nodup_map_filter (f : link -> bool) (l : list link) :
  NoDup (map url l) -> NoDup (map url (filter f l)).
Proof.
  induction l as [|a l IH]; simpl; intros ND; [constructor|].
  inversion ND as [|? ? Hn ND']; subst.
  destruct (f a); [|auto]. simpl. constructor; [|auto].
  intros H. apply Hn. apply in_map_iff in H as (x & E & Hx).
  apply filter_In in Hx as (Hx & _). apply in_map_iff. eauto.
Qed.

(** The links that the main routine visits (lines 264-265): the second
    test of the filter rejects nothing, since [Form_ID=182] holds [ID=];
    the visited urls are pairwise distinct, in the order of the page, each
    an address under [http] with the page marker and the form number. *)
Theorem visited_links_are_form_182
        (BeautifulSoup : str -> list element) (html : str) :
  let out := event_links BeautifulSoup html in
  out = filter (fun x => Py.contains (lit "Form_ID=182") (url x))
               (extract_event_links_from_form_list BeautifulSoup html)
  /\ NoDup (map url out)
  /\ Subseq out (extract_event_links_from_form_list BeautifulSoup html)
  /\ Forall (fun x => accepted (url x)
                      /\ Py.contains (lit "Form_ID=182") (url x) = true)
            out.
Proof.
  cbv zeta.
  assert (E : event_links BeautifulSoup html
              = filter (fun x => Py.contains (lit "Form_ID=182") (url x))
                       (extract_event_links_from_form_list
                          BeautifulSoup html)).
  { unfold event_links. apply filter_ext. intros x.
    destruct (Py.contains (lit "Form_ID=182") (url x)) eqn:H; [|reflexivity].
    apply contains_spec in H as (pre & post & H).
    assert (Hi : Py.contains (lit "ID=") (url x) = true).
    { apply contains_spec. exists (pre ++ lit "Form_"), (lit "182" ++ post).
      rewrite H. rewrite <- !app_assoc. reflexivity. }
    rewrite Hi. reflexivity. }
  split; [exact E|]. rewrite E. split; [|split].
  - apply nodup_map_filter. apply dedup_nodup.
  - apply subseq_filter.
  - apply Forall_forall. intros x Hx. apply filter_In in Hx as (Hx & Hc).
    split; [|exact Hc].
    unfold extract_event_links_from_form_list in Hx.
    apply dedup_in in Hx as (Hx & _).
    pose proof (found_links_accepted BeautifulSoup html) as F.
    rewrite Forall_forall in F. auto.
Qed.

End ListingFacts.

(** ** More on the loop over the links *)

Module LoopFacts.
Import Regex RegexFacts PatFacts PyFacts DatetimeFacts DetailFacts.
Import ListingFacts.

Lemma lit_cs_shape l : forall s rest c c',
  Matches (lit_cs l) s rest c c' <-> s = l /\ c' = c.
Proof.
  induction l as [|a l IH]; intros s rest c c'; cbn [lit_cs]; split.
  - intros H. apply inv_eps in H. exact H.
  - intros (-> & ->). constructor.
  - intros H. apply inv_seq in H as (s1 & s2 & c1 & -> & H1 & H2).
    apply inv_cls in H1 as (x & -> & Hx & ->).
    apply IH in H2 as (-> & ->). unfold chr in Hx.
    apply Ascii.eqb_eq in Hx. subst x. auto.
  - intros (-> & ->).
    eapply Matches_seq with (s1 := [a]) (s2 := l);
      [constructor; apply Ascii.eqb_refl
      | apply IH; split; reflexivity | reflexivity].
Qed.

(** The matcher on a literal that is there. *)
Lemma mt_lit_cs (A : Type) l : forall s c (k : cont A),
  mt (lit_cs l) (l ++ s) c k = k s c.
Proof.
  induction l as [|a l IH]; intros s c k; [reflexivity|].
  cbn [lit_cs mt app]. unfold chr at 1. rewrite Ascii.eqb_refl. apply IH.
Qed.

(** A greedy open repetition takes the whole run when what follows the
    run is accepted. *)
Lemma rep_greedy_max (A : Type) p ds : forall lo rest c (k : cont A),
  Forall (fun a => p a = true) ds -> lo <= length ds ->
  (forall a rest', rest = a :: rest' -> p a = false) ->
  k rest c <> None ->
  rep_greedy p lo None (ds ++ rest) c k = k rest c.
Proof.
  induction ds as [|d ds IH]; intros lo rest c k F L Hr Hk.
  - simpl in L. assert (lo = 0) by lia. subst lo. cbn [app].
    destruct rest as [|a rest']; [reflexivity|].
    cbn [rep_greedy]. rewrite (Hr a rest' eq_refl). reflexivity.
  - inversion F as [|? ? Hd F']; subst. cbn [app rep_greedy].
    rewrite Hd. cbn [can_take andb dec option_map].
    rewrite IH; auto; [|simpl in L; lia].
    destruct (k rest c); [reflexivity | congruence].
Qed.

Lemma id_param_shape m rest c c' :
  Matches Pat.id_param m rest c c' <->
  exists ds, m = lit "ID=" ++ ds /\ Run is_digit 1 None ds
             /\ c' = (1, ds) :: c.
Proof.
  unfold Pat.id_param, Pat.seqs, fold_right. split.
  - intros H.
    apply inv_seq in H as (s1 & r1 & c1 & -> & H1 & H).
    apply inv_seq in H as (ds & r2 & c2 & -> & H2 & H).
    apply inv_eps in H as (-> & ->).
    apply lit_cs_shape in H1 as (-> & ->).
    apply inv_grp in H2 as (c3 & H2 & ->). apply inv_rep in H2 as (R & ->).
    exists ds. rewrite app_nil_r. auto.
  - intros (ds & -> & R & ->).
    eapply Matches_seq with (s1 := lit "ID=");
      [apply lit_cs_shape; split; reflexivity | | reflexivity].
    eapply Matches_seq with (s1 := ds) (s2 := []);
      [constructor; apply Matches_rep; exact R | constructor
      | rewrite app_nil_r; reflexivity].
Qed.

(** The matcher takes all the digits that follow [ID=]. *)
Lemma attempt_id_param ds rest :
  ds <> [] -> Forall (fun a => is_digit a = true) ds ->
  (forall a rest', rest = a :: rest' -> is_digit a = false) ->
  attempt Pat.id_param (lit "ID=" ++ ds ++ rest) = Some (rest, [(1, ds)]).
Proof.
  intros Hne F Hr. unfold attempt, Pat.id_param, Pat.seqs, fold_right.
  cbn [mt]. rewrite mt_lit_cs. cbn [mt].
  rewrite rep_greedy_max; auto.
  - rewrite length_app, Nat.add_sub, firstn_app, Nat.sub_diag, firstn_all.
    cbn [firstn]. rewrite app_nil_r. reflexivity.
  - destruct ds; [congruence | simpl; lia].
  - discriminate.
Qed.

(** Lines 272-274 for a link without a title: the title that is used
    names the digits after the leftmost [ID=] that a digit follows,
    wherever in the url it stands, and [unknown] when there is none. *)
Theorem untitled_link_is_named_by_first_id (x : link) :
  title x = [] ->
  (search Pat.id_param (url x) = None ->
   title_guess x = lit "(untitled) ID=unknown")
  /\ forall pre ds rest,
       url x = pre ++ lit "ID=" ++ ds ++ rest ->
       ds <> [] -> Forall (fun a => is_digit a = true) ds ->
       (forall a rest', rest = a :: rest' -> is_digit a = false) ->
       search Pat.id_param (pre ++ lit "ID=") = None ->
       title_guess x = lit "(untitled) ID=" ++ ds.
Proof.
  intros Ht. unfold title_guess. rewrite Ht. cbn [Py.nonempty]. split.
  - intros ->. reflexivity.
  - intros pre ds rest Eu Hne F Hr No.
    rewrite Eu.
    rewrite (@search_at Pat.id_param pre (lit "ID=" ++ ds ++ rest) rest
                        [(1, ds)]).
    + reflexivity.
    + intros p q Ep Hq (m & rest0 & c & E & M).
      apply id_param_shape in M as (ds0 & -> & (F0 & L0 & _) & _).
      destruct ds0 as [|d0 ds0]; [simpl in L0; lia|].
      inversion F0 as [|? ? Hd0 _]; subst.
      apply (search_none No).
      assert (Le : length (lit "ID=" ++ [d0]) <= length (q ++ lit "ID=")).
      { rewrite !length_app. destruct q; [congruence|]. simpl. lia. }
      assert (E' : (lit "ID=" ++ [d0]) ++ (ds0 ++ rest0)
                   = (q ++ lit "ID=") ++ (ds ++ rest)).
      { rewrite <- !app_assoc. rewrite <- !app_assoc in E.
        symmetry. exact E. }
      destruct (@prefix_split _ _ _ _ _ E' Le) as (t & Et & _).
      exists p, (lit "ID=" ++ [d0]), t, [(1, [d0])]. split.
      * rewrite <- !app_assoc. rewrite <- !app_assoc in Et.
        rewrite <- Et. reflexivity.
      * apply id_param_shape. exists [d0].
        split; [reflexivity|]. split; [|reflexivity].
        split; [constructor; [exact Hd0 | constructor]|].
        split; [simpl; lia | exact I].
    + apply attempt_id_param; auto.
Qed.

Lemma untitled_link_is_named_by_first_id_witness :
  title_guess
    (mkLink (lit "https://www.troopwebhost.org/FormDetail.aspx?Form_ID=182&ID=56")
            (lit ""))
  = lit "(untitled) ID=182".
Proof.
  apply (proj2 (@untitled_link_is_named_by_first_id
                  (mkLink (lit "https://www.troopwebhost.org/FormDetail.aspx?Form_ID=182&ID=56")
                          (lit ""))
                  eq_refl)
               (lit "https://www.troopwebhost.org/FormDetail.aspx?Form_")
               (lit "182") (lit "&ID=56")).
  - reflexivity.
  - discriminate.
  - repeat constructor.
  - intros a rest' E. injection E as <- _. reflexivity.
  - vm_compute. reflexivity.
Defined.

(** *** The date of the title *)

Lemma title_date_shape m rest c c' :
  Matches Pat.title_date m rest c c' ->
  exists mm dd yy,
    m = lit "(" ++ mm ++ lit "/" ++ dd ++ lit "/" ++ yy ++ lit ")"
    /\ Run is_digit 2 (Some 2) mm /\ Run is_digit 2 (Some 2) dd
    /\ Run is_digit 2 (Some 4) yy
    /\ c' = (3, yy) :: (2, dd) :: (1, mm) :: c.
Proof.
  unfold Pat.title_date, Pat.seqs, fold_right. intros H.
  apply inv_seq in H as (s1 & r1 & c1 & -> & H1 & H).
  apply inv_seq in H as (mm & r2 & c2 & -> & H2 & H).
  apply inv_seq in H as (s3 & r3 & c3 & -> & H3 & H).
  apply inv_seq in H as (dd & r4 & c4 & -> & H4 & H).
  apply inv_seq in H as (s5 & r5 & c5 & -> & H5 & H).
  apply inv_seq in H as (yy & r6 & c6 & -> & H6 & H).
  apply inv_seq in H as (s7 & r7 & c7 & -> & H7 & H).
  apply inv_eps in H as (-> & ->).
  apply inv_chr in H1 as (-> & ->).
  apply inv_grp in H2 as (d2 & H2 & ->). apply inv_rep in H2 as (Rm & ->).
  apply inv_chr in H3 as (-> & ->).
  apply inv_grp in H4 as (d4 & H4 & ->). apply inv_rep in H4 as (Rd & ->).
  apply inv_chr in H5 as (-> & ->).
  apply inv_grp in H6 as (d6 & H6 & ->). apply inv_rep in H6 as (Ry & ->).
  apply inv_chr in H7 as (-> & ->).
  exists mm, dd, yy. rewrite app_nil_r. auto 6.
Qed.

Lemma digit_val_range a : is_digit a = true -> (0 <= Py.digit_val a <= 9)%Z.
Proof.
  unfold is_digit, Py.digit_val. rewrite andb_true_iff, !N.leb_le. lia.
Qed.

Lemma int_fold s : forall acc,
  Forall (fun a => is_digit a = true) s ->
  (0 <= acc)%Z ->
  (acc * 10 ^ Z.of_nat (length s)
   <= fold_left (fun acc a => (10 * acc + Py.digit_val a)%Z) s acc
   < (acc + 1) * 10 ^ Z.of_nat (length s))%Z.
Proof.
  induction s as [|a s IH]; intros acc F Ha.
  - cbn [fold_left length]. change (10 ^ Z.of_nat 0)%Z with 1%Z. lia.
  - inversion F as [|? ? Hd F']; subst. apply digit_val_range in Hd.
    cbn [fold_left]. specialize (IH (10 * acc + Py.digit_val a)%Z F').
    cbn [length]. rewrite Nat2Z.inj_succ, Z.pow_succ_r by lia.
    assert (P : (0 < 10 ^ Z.of_nat (length s))%Z)
      by (apply Z.pow_pos_nonneg; lia).
    specialize (IH ltac:(lia)). nia.
Qed.

(** [int] of a string of digits. *)
Lemma int_range s :
  Forall (fun a => is_digit a = true) s ->
  (0 <= Py.int s < 10 ^ Z.of_nat (length s))%Z.
Proof.
  intros F. pose proof (@int_fold s 0%Z F ltac:(lia)) as H.
  unfold Py.int. lia.
Qed.

(** Lines 305-312: a date that comes from the title is midnight, local
    time, of a day of the calendar in a year from 100 to 9999; its month
    and day are the two-digit fields, and a two-digit year stands for
    the year 2000 plus its value. *)
Theorem title_date_year_range (tg : str) (d : Datetime.datetime) :
  date_from_title tg = Ok (Some d) ->
  exists m,
    search Pat.title_date tg = Some m
    /\ (100 <= Datetime.year (Datetime.local d) <= 9999)%Z
    /\ (length (group 3 m) = 2 ->
        Datetime.year (Datetime.local d) = (2000 + Py.int (group 3 m))%Z
        /\ (2000 <= Datetime.year (Datetime.local d) <= 2099)%Z)
    /\ Datetime.month (Datetime.local d) = Py.int (group 1 m)
    /\ Datetime.day (Datetime.local d) = Py.int (group 2 m)
    /\ Datetime.valid (Datetime.local d) = true
    /\ at_midnight (Datetime.local d)
    /\ Datetime.utcoffset d = LOCAL_TZ.
Proof.
  intros H. pose proof (date_from_title_spec _ H) as (V & Mid & Tz).
  unfold date_from_title in H.
  destruct (search Pat.title_date tg) as [m|] eqn:S; [|discriminate].
  exists m. split; [reflexivity|].
  destruct (@search_spec _ _ _ S) as (_ & M & _).
  apply title_date_shape in M as (mm & dd & yy & _ & _ & _ & (Fy & _) & G).
  assert (G3 : group 3 m = yy) by (unfold group; rewrite G; reflexivity).
  pose proof (int_range Fy) as Ry. rewrite <- G3 in Ry.
  unfold Datetime.make in H.
  destruct (Datetime.valid_date _ _ _) eqn:Vd; cbn [bind] in H;
    [|discriminate].
  apply Ok_inj in H. injection H as <-.
  cbn [Datetime.local Datetime.year Datetime.month Datetime.day].
  apply valid_date_spec in Vd as (Hy & _).
  split; [|split; [|auto 6]].
  - destruct (Py.int (group 3 m) <? 100)%Z eqn:C.
    + apply Z.ltb_lt in C. lia.
    + apply Z.ltb_ge in C. lia.
  - intros L2. rewrite L2 in Ry. change (10 ^ Z.of_nat 2)%Z with 100%Z in Ry.
    replace (Py.int (group 3 m) <? 100)%Z with true
      by (symmetry; apply Z.ltb_lt; lia).
    lia.
Qed.

Lemma title_date_year_range_witness :
  exists m,
    search Pat.title_date (lit "Campout (02/14/26)") = Some m
    /\ (100 <= 2026 <= 9999)%Z
    /\ (length (group 3 m) = 2 ->
        2026%Z = (2000 + Py.int (group 3 m))%Z /\ (2000 <= 2026 <= 2099)%Z)
    /\ 2%Z = Py.int (group 1 m)
    /\ 14%Z = Py.int (group 2 m)
    /\ Datetime.valid (Datetime.mkNaive 2026 2 14 0 0 0 0) = true
    /\ at_midnight (Datetime.mkNaive 2026 2 14 0 0 0 0)
    /\ LOCAL_TZ = LOCAL_TZ.
Proof.
  apply (@title_date_year_range
           (lit "Campout (02/14/26)")
           (Datetime.mkDatetime (Datetime.mkNaive 2026 2 14 0 0 0 0)
                                LOCAL_TZ)).
  vm_compute. reflexivity.
Defined.

(** *** What the loop raises *)

(** The year that lines 309-311 make of the year field. *)
Definition title_year (yy : str) : Z :=
  let year := Py.int yy in
  if (year <? 100)%Z then (year + 2000)%Z else year.

Lemma date_from_title_raises tg ex :
  date_from_title tg = Raise ex <->
  ex = ValueError
  /\ exists m, search Pat.title_date tg = Some m
               /\ Datetime.valid_date (title_year (group 3 m))
                                      (Py.int (group 1 m))
                                      (Py.int (group 2 m)) = false.
Proof.
  unfold date_from_title, Datetime.make, title_year.
  destruct (search Pat.title_date tg) as [m|].
  - destruct (Datetime.valid_date _ _ _) eqn:V; cbn [bind]; split.
    + discriminate.
    + intros (_ & m' & E & V'). injection E as <-. congruence.
    + intros H. injection H as <-. eauto.
    + intros (-> & _). reflexivity.
  - split; [discriminate|]. intros (_ & m & E & _). discriminate.
Qed.

(** The last day of the calendar is the only one with the last ordinal. *)
Lemma last_day d :
  Datetime.valid d = true ->
  (Datetime.toordinal d = Datetime.MAXORDINAL
   <-> Datetime.year d = 9999%Z /\ Datetime.month d = 12%Z
       /\ Datetime.day d = 31%Z).
Proof.
  intros V. apply valid_spec in V as (V & _). split.
  - intros E.
    destruct (Z.eq_dec (Datetime.year d) 9999) as [Ey|Ny];
      [destruct (Z.eq_dec (Datetime.month d) 12) as [Em|Nm];
       [destruct (Z.eq_dec (Datetime.day d) 31) as [Ed|Nd]; [auto|]|]|];
      exfalso;
      pose proof V as V'; apply valid_date_spec in V' as (Hy & Hm & Hd);
      assert (L : (Datetime.ymd2ord (Datetime.year d) (Datetime.month d)
                                    (Datetime.day d)
                   < Datetime.ymd2ord 9999 12 31)%Z).
    + apply ymd2ord_lt; [exact V | reflexivity|].
      right. split; [exact Ey|]. right. split; [exact Em|].
      rewrite Ey, Em in Hd.
      change (Datetime.days_in_month 9999 12) with 31%Z in Hd. lia.
    + unfold Datetime.toordinal in E. rewrite E in L.
      vm_compute in L. discriminate.
    + apply ymd2ord_lt; [exact V | reflexivity|].
      right. split; [exact Ey|]. left. lia.
    + unfold Datetime.toordinal in E. rewrite E in L.
      vm_compute in L. discriminate.
    + apply ymd2ord_lt; [exact V | reflexivity|]. left. lia.
    + unfold Datetime.toordinal in E. rewrite E in L.
      vm_compute in L. discriminate.
  - intros (Ey & Em & Ed). unfold Datetime.toordinal.
    rewrite Ey, Em, Ed. reflexivity.
Qed.

Lemma add_day_raises d ex :
  Datetime.valid (Datetime.local d) = true ->
  (Datetime.add d (days 1) = Raise ex <->
   ex = OverflowError
   /\ Datetime.toordinal (Datetime.local d) = Datetime.MAXORDINAL).
Proof.
  intros V.
  pose proof (seconds_of_day_range _ V) as S.
  pose proof V as V'. apply valid_spec in V' as (Vd & _).
  pose proof (toordinal_range _ Vd) as R.
  unfold Datetime.add, Datetime.add_naive.
  cbn [days Datetime.td_days Datetime.td_seconds].
  replace ((Datetime.seconds_of_day (Datetime.local d) + 0) / 86400)%Z
    with 0%Z by (Z.div_mod_to_equations; lia).
  destruct ((0 <? _)%Z && (_ <=? Datetime.MAXORDINAL)%Z) eqn:C.
  - apply andb_true_iff in C. rewrite Z.ltb_lt, Z.leb_le in C.
    destruct (Datetime.ord2ymd _) as [[y m] dd]. cbn [bind].
    split; [discriminate|]. intros (_ & E). lia.
  - cbn [bind]. apply andb_false_iff in C.
    rewrite Z.ltb_ge, Z.leb_gt in C.
    split.
    + intros H. injection H as <-. split; [reflexivity | lia].
    + intros (-> & _). reflexivity.
Qed.

(** Lines 293-350 raise in two cases only.  [ValueError]: the text gave
    no date and the title holds an annotation whose fields are not a day
    of the calendar (line 312 stands outside every [try]).
    [OverflowError]: the resolved date is 9999-12-31, which has no next
    day (line 320). *)
Theorem parse_detail_raises (year_padded : bool)
        (dtparser_parse : str -> option Datetime.naive)
        (u text tg : str) (ex : exn) :
  returns_valid dtparser_parse ->
  (parse_detail year_padded dtparser_parse u text tg = Raise ex <->
   (ex = ValueError
    /\ date_from_text dtparser_parse text = None
    /\ exists m, search Pat.title_date tg = Some m
                 /\ Datetime.valid_date (title_year (group 3 m))
                                        (Py.int (group 1 m))
                                        (Py.int (group 2 m)) = false)
   \/ (ex = OverflowError
       /\ exists d0,
            resolve_date dtparser_parse text tg = Ok (Some d0)
            /\ Datetime.year (Datetime.local d0) = 9999%Z
            /\ Datetime.month (Datetime.local d0) = 12%Z
            /\ Datetime.day (Datetime.local d0) = 31%Z)).
Proof.
  intros Hv. unfold parse_detail.
  destruct (resolve_date dtparser_parse text tg) as [[d0|]|ex0] eqn:R;
    cbn [bind].
  - destruct (resolve_date_valid Hv _ _ R) as (V0 & _).
    pose proof (add_day_raises d0 ex V0) as A.
    pose proof (@last_day _ V0) as L.
    assert (NotV : ~ (date_from_text dtparser_parse text = None
                      /\ exists m, search Pat.title_date tg = Some m
                           /\ Datetime.valid_date (title_year (group 3 m))
                                (Py.int (group 1 m))
                                (Py.int (group 2 m)) = false)).
    { intros (N & Hm). unfold resolve_date in R. rewrite N in R.
      assert (Hr : date_from_title tg = Raise ValueError)
        by (apply date_from_title_raises; auto).
      congruence. }
    destruct (Datetime.add d0 (days 1)) as [dtend0|ex1] eqn:Ad; cbn [bind].
    + destruct (resolve_time year_padded _ _ _ _) as [[s t] a].
      split; [discriminate|].
      intros [(_ & N & Hm) | (-> & d1 & E & Hl)].
      * exfalso. apply NotV. auto.
      * injection E as <-. apply L in Hl.
        destruct A as (_ & A). specialize (A (conj eq_refl Hl)).
        discriminate.
    + split.
      * intros H. injection H as <-. right.
        destruct A as (A & _). destruct (A eq_refl) as (-> & Hl).
        split; [reflexivity|]. exists d0. split; [reflexivity|].
        apply L. exact Hl.
      * intros [(_ & N & Hm) | (-> & d1 & E & Hl)].
        -- exfalso. apply NotV. auto.
        -- injection E as <-. apply L in Hl.
           destruct A as (_ & A). specialize (A (conj eq_refl Hl)).
           injection A as ->. reflexivity.
  - split; [discriminate|].
    intros [(_ & N & Hm) | (_ & d1 & E & _)]; [|discriminate].
    unfold resolve_date in R. rewrite N in R.
    assert (Hr : date_from_title tg = Raise ValueError)
      by (apply date_from_title_raises; auto).
    congruence.
  - unfold resolve_date in R.
    destruct (date_from_text dtparser_parse text) eqn:N; [discriminate|].
    apply date_from_title_raises in R as (-> & Hm).
    split.
    + intros H. injection H as <-. left. auto.
    + intros [(-> & _) | (_ & d1 & E & _)]; [reflexivity | discriminate].
Qed.

Lemma parse_detail_raises_witness :
  parse_detail false Sample.parse (lit "u") (lit "Bring a tent")
               (lit "Campout (02/30/26)")
  = Raise ValueError.
Proof.
  apply (proj2 (@parse_detail_raises false
                  Sample.parse (lit "u") (lit "Bring a tent")
                  (lit "Campout (02/30/26)") ValueError
                  sample_returns_valid)).
  left. split; [reflexivity|]. split; [vm_compute; reflexivity|].
  eexists. split; vm_compute; reflexivity.
Defined.

(** *** The list of events *)

(** The events of a list of rounds, in their order. *)
Definition kept (ds : list detail) : list event :=
  flat_map (fun d => match d with Emitted e => [e] | Dropped => [] end) ds.

(** The loop of lines 269-350 returns exactly when every round returns;
    the events are then those of the rounds that were not left by
    [continue], in the order of the links, after the ones already there. *)
Theorem collect_events_in_order (year_padded : bool)
        (dtparser_parse : str -> option Datetime.naive)
        (pages : list (link * str)) (events out : list event) :
  collect_events year_padded dtparser_parse pages events = Ok out <->
  exists ds,
    Forall2 (fun xp d =>
               process_link year_padded dtparser_parse (fst xp) (snd xp) = Ok d)
            pages ds
    /\ out = events ++ kept ds.
Proof.
  revert events out.
  induction pages as [|[x page] pages IH]; intros events out;
    cbn [collect_events].
  - split.
    + intros H. apply Ok_inj in H. subst. exists []. split; [constructor|].
      cbn. rewrite app_nil_r. reflexivity.
    + intros (ds & F & ->). inversion F; subst. cbn.
      rewrite app_nil_r. reflexivity.
  - destruct (process_link year_padded dtparser_parse x page)
      as [[e|]|ex] eqn:P; cbn [bind].
    + rewrite IH. split.
      * intros (ds & F & ->). exists (Emitted e :: ds).
        split; [constructor; [exact P | exact F]|].
        cbn [kept flat_map]. rewrite <- !app_assoc. reflexivity.
      * intros (ds & F & ->).
        inversion F as [|? d ? ds' Hd F']; subst. cbn [fst snd] in Hd.
        rewrite P in Hd. apply Ok_inj in Hd. subst d.
        exists ds'. split; [exact F'|].
        cbn [kept flat_map]. rewrite <- !app_assoc. reflexivity.
    + rewrite IH. split.
      * intros (ds & F & ->). exists (Dropped :: ds).
        split; [constructor; [exact P | exact F] | reflexivity].
      * intros (ds & F & ->).
        inversion F as [|? d ? ds' Hd F']; subst. cbn [fst snd] in Hd.
        rewrite P in Hd. apply Ok_inj in Hd. subst d.
        exists ds'. split; [exact F' | reflexivity].
    + split; [discriminate|].
      intros (ds & F & _). inversion F as [|? d ? ds' Hd F']; subst.
      cbn [fst snd] in Hd. rewrite P in Hd. discriminate.
Qed.

Lemma collect_events_in_order_witness :
  collect_events false Sample.parse
    [(mkLink (lit "u1") (lit "Hike"), lit "no date");
     (mkLink (lit "https://www.troopwebhost.org/FormDetail.aspx?ID=56")
             (lit "Meeting (03/05/26)"),
      lit "Meeting at  7:00 PM")]
    []
  = Ok [Sample.meeting].
Proof.
  apply (proj2 (@collect_events_in_order false Sample.parse _ []
                  [Sample.meeting])).
  exists [Dropped; Emitted Sample.meeting]. split; [|reflexivity].
  repeat constructor; vm_compute; reflexivity.
Defined.

(** A round that raises ends the loop with its exception, whatever the
    rounds before it have gathered and whatever follows. *)
Theorem one_failure_aborts_the_run (year_padded : bool)
        (dtparser_parse : str -> option Datetime.naive)
        (before after : list (link * str)) (x : link) (page : str)
        (events : list event) (ex : exn) :
  Forall (fun xp => exists d,
            process_link year_padded dtparser_parse (fst xp) (snd xp) = Ok d)
         before ->
  process_link year_padded dtparser_parse x page = Raise ex ->
  collect_events year_padded dtparser_parse (before ++ (x, page) :: after)
                 events
  = Raise ex.
Proof.
  intros F. revert events.
  induction F as [|[y p] before (d & Hd) _ IH]; intros events P.
  - cbn [app collect_events]. rewrite P. reflexivity.
  - cbn [app collect_events]. cbn [fst snd] in Hd. rewrite Hd. cbn [bind].
    destruct d; apply IH; exact P.
Qed.

Lemma one_failure_aborts_the_run_witness :
  collect_events false Sample.parse
    ([(mkLink (lit "https://www.troopwebhost.org/FormDetail.aspx?ID=56")
              (lit "Meeting (03/05/26)"),
       lit "Meeting at 7:00 PM")]
     ++ (mkLink (lit "u2") (lit "Campout (02/30/26)"), lit "Bring a tent")
        :: [(mkLink (lit "u3") (lit "Hike (04/01/26)"), lit "Boots")])
    []
  = Raise ValueError.
Proof.
  apply one_failure_aborts_the_run.
  - constructor; [|constructor]. eexists. vm_compute. reflexivity.
  - vm_compute. reflexivity.
Defined.

(** *** All-day or timed *)

(** Lines 318-332 for an emitted event, whose date [d0] is resolved and
    has a next day: the event is timed exactly when the text holds a
    clock token, [dateutil] reads the date and the token together, and two
    hours later is still in the calendar.  An all-day event ends one day
    after [d0], and it starts at [d0] when there is no clock token or
    [dateutil] rejects it. *)
Theorem timed_exactly_when_clock_parses (year_padded : bool)
        (dtparser_parse : str -> option Datetime.naive)
        (u text tg : str) (e : event) :
  parse_detail year_padded dtparser_parse u text tg = Ok (Emitted e) ->
  exists d0 dtend0,
    resolve_date dtparser_parse text tg = Ok (Some d0)
    /\ Datetime.add d0 (days 1) = Ok dtend0
    /\ (all_day e = false <->
        exists m d2 t,
          search Pat.clock text = Some m
          /\ dtparser_parse
               (Datetime.strftime_mdy year_padded (Datetime.local d0)
                ++ lit " " ++ m_all m) = Some d2
          /\ Datetime.add (Datetime.replace_tzinfo LOCAL_TZ d2) (hours 2)
             = Ok t)
    /\ (all_day e = true -> dtend e = dtend0)
    /\ ((forall m, search Pat.clock text = Some m ->
                   dtparser_parse
                     (Datetime.strftime_mdy year_padded (Datetime.local d0)
                      ++ lit " " ++ m_all m) = None) ->
        all_day e = true /\ dtstart e = d0).
Proof.
  unfold parse_detail.
  destruct (resolve_date dtparser_parse text tg) as [[d0|]|] eqn:R;
    cbn [bind]; try discriminate.
  destruct (Datetime.add d0 (days 1)) as [dtend0|] eqn:A; cbn [bind];
    [|discriminate].
  intros H. exists d0, dtend0. split; [reflexivity|]. split; [exact A|].
  unfold resolve_time in H.
  destruct (search Pat.clock text) as [m|] eqn:S.
  - rewrite (@clock_group _ _ S) in H.
    destruct (dtparser_parse _) as [d2|] eqn:P.
    + destruct (Datetime.add (Datetime.replace_tzinfo LOCAL_TZ d2) (hours 2))
        as [t|] eqn:A2; apply Ok_inj in H; injection H as <-;
        cbn [all_day dtstart dtend].
      * split; [split; [intros _; exists m, d2, t; auto | reflexivity]|].
        split; [discriminate|].
        intros No. specialize (No m eq_refl). congruence.
      * split.
        { split; [discriminate|].
          intros (m' & d2' & t' & Em & P' & A'). injection Em as <-.
          rewrite P in P'. injection P' as <-. congruence. }
        split; [reflexivity|].
        intros No. specialize (No m eq_refl). congruence.
    + apply Ok_inj in H. injection H as <-. cbn [all_day dtstart dtend].
      split.
      { split; [discriminate|].
        intros (m' & d2' & t' & Em & P' & _). injection Em as <-.
        congruence. }
      auto.
  - apply Ok_inj in H. injection H as <-. cbn [all_day dtstart dtend].
    split.
    { split; [discriminate|]. intros (m' & _ & _ & Em & _). discriminate. }
    auto.
Qed.

Lemma timed_exactly_when_clock_parses_witness :
  exists d0 dtend0,
    resolve_date Sample.parse (lit "Meeting at 7:00 PM")
                 (lit "Meeting (03/05/26)") = Ok (Some d0)
    /\ Datetime.add d0 (days 1) = Ok dtend0
    /\ (all_day Sample.meeting = false <->
        exists m d2 t,
          search Pat.clock (lit "Meeting at 7:00 PM") = Some m
          /\ Sample.parse (Datetime.strftime_mdy false (Datetime.local d0)
                           ++ lit " " ++ m_all m) = Some d2
          /\ Datetime.add (Datetime.replace_tzinfo LOCAL_TZ d2) (hours 2)
             = Ok t)
    /\ (all_day Sample.meeting = true -> dtend Sample.meeting = dtend0)
    /\ ((forall m, search Pat.clock (lit "Meeting at 7:00 PM") = Some m ->
                   Sample.parse (Datetime.strftime_mdy false (Datetime.local d0)
                                 ++ lit " " ++ m_all m) = None) ->
        all_day Sample.meeting = true /\ dtstart Sample.meeting = d0).
Proof.
  apply (@timed_exactly_when_clock_parses false
           Sample.parse
           (lit "https://www.troopwebhost.org/FormDetail.aspx?ID=56")
           (lit "Meeting at 7:00 PM") (lit "Meeting (03/05/26)")
           Sample.meeting).
  vm_compute. reflexivity.
Defined.

(** *** The summary *)

Lemma title_suffix_shape m rest c c' :
  Matches Pat.title_suffix m rest c c' <->
  exists wa mm dd yy wb,
    m = wa ++ lit "(" ++ mm ++ lit "/" ++ dd ++ lit "/" ++ yy ++ lit ")"
        ++ wb
    /\ Run is_space 0 None wa
    /\ Run is_digit 1 (Some 2) mm /\ Run is_digit 1 (Some 2) dd
    /\ Run is_digit 2 (Some 4) yy
    /\ Run is_space 0 None wb
    /\ at_endb rest = true /\ c' = c.
Proof.
  unfold Pat.title_suffix, Pat.seqs, fold_right, Pat.spaces, Pat.digits.
  split.
  - intros H.
    apply inv_seq in H as (wa & r0 & c0 & -> & H0 & H).
    apply inv_seq in H as (s1 & r1 & c1 & -> & H1 & H).
    apply inv_seq in H as (mm & r2 & c2 & -> & H2 & H).
    apply inv_seq in H as (s3 & r3 & c3 & -> & H3 & H).
    apply inv_seq in H as (dd & r4 & c4 & -> & H4 & H).
    apply inv_seq in H as (s5 & r5 & c5 & -> & H5 & H).
    apply inv_seq in H as (yy & r6 & c6 & -> & H6 & H).
    apply inv_seq in H as (s7 & r7 & c7 & -> & H7 & H).
    apply inv_seq in H as (wb & r8 & c8 & -> & H8 & H).
    apply inv_seq in H as (s9 & r9 & c9 & -> & H9 & H).
    apply inv_eps in H as (-> & ->).
    apply inv_rep in H0 as (Ra & ->).
    apply inv_chr in H1 as (-> & ->).
    apply inv_rep in H2 as (Rm & ->).
    apply inv_chr in H3 as (-> & ->).
    apply inv_rep in H4 as (Rd & ->).
    apply inv_chr in H5 as (-> & ->).
    apply inv_rep in H6 as (Ry & ->).
    apply inv_chr in H7 as (-> & ->).
    apply inv_rep in H8 as (Rb & ->).
    apply inv_eos in H9 as (-> & -> & E).
    exists wa, mm, dd, yy, wb. rewrite !app_nil_r. cbn [app] in E.
    auto 10.
  - intros (wa & mm & dd & yy & wb & -> & Ra & Rm & Rd & Ry & Rb & E & ->).
    eapply Matches_seq with (s1 := wa);
      [apply Matches_rep; exact Ra | | reflexivity].
    eapply Matches_seq with (s1 := lit "(");
      [apply Matches_chr | | reflexivity].
    eapply Matches_seq with (s1 := mm);
      [apply Matches_rep; exact Rm | | reflexivity].
    eapply Matches_seq with (s1 := lit "/");
      [apply Matches_chr | | reflexivity].
    eapply Matches_seq with (s1 := dd);
      [apply Matches_rep; exact Rd | | reflexivity].
    eapply Matches_seq with (s1 := lit "/");
      [apply Matches_chr | | reflexivity].
    eapply Matches_seq with (s1 := yy);
      [apply Matches_rep; exact Ry | | reflexivity].
    eapply Matches_seq with (s1 := lit ")");
      [apply Matches_chr | | reflexivity].
    eapply Matches_seq with (s1 := wb) (s2 := []);
      [apply Matches_rep; exact Rb | | rewrite app_nil_r; reflexivity].
    eapply Matches_seq with (s1 := []) (s2 := []);
      [constructor; exact E | constructor | reflexivity].
Qed.

(** The last occurrence of a character splits a string in one way. *)
Lemma last_occurrence (a : ascii) (x : str) : forall x' y y',
  x ++ a :: y = x' ++ a :: y' -> ~ In a y -> ~ In a y' ->
  x = x' /\ y = y'.
Proof.
  induction x as [|b x IH]; intros x' y y' E Ny Ny'.
  - destruct x' as [|b' x']; cbn [app] in E.
    + injection E as ->. auto.
    + injection E as <- ->. exfalso. apply Ny. apply in_or_app.
      right. left. reflexivity.
  - destruct x' as [|b' x']; cbn [app] in E.
    + injection E as -> <-. exfalso. apply Ny'. apply in_or_app.
      right. left. reflexivity.
    + injection E as <- E. destruct (IH _ _ _ E Ny Ny') as (-> & ->). auto.
Qed.

Lemma lstrip_all p w :
  Forall (fun a => p a = true) w -> Py.lstrip_by p w = [].
Proof.
  induction 1 as [|a w Ha _ IH]; [reflexivity|].
  cbn [Py.lstrip_by]. rewrite Ha. exact IH.
Qed.

Lemma lstrip_app p w : forall s,
  Forall (fun a => p a = true) w ->
  Py.lstrip_by p (s ++ w) = Py.lstrip_by p s ++ w
  \/ (Py.lstrip_by p (s ++ w) = [] /\ Py.lstrip_by p s = []).
Proof.
  intros s F. induction s as [|a s IH].
  - right. cbn [app]. split; [apply lstrip_all; exact F | reflexivity].
  - cbn [app Py.lstrip_by]. destruct (p a); [exact IH | left; reflexivity].
Qed.

Lemma rstrip_app p t w :
  Forall (fun a => p a = true) w ->
  Py.rstrip_by p (t ++ w) = Py.rstrip_by p t.
Proof.
  intros F. unfold Py.rstrip_by. rewrite rev_app_distr.
  f_equal. clear -F. apply Forall_rev in F.
  induction F as [|a r Ha _ IH]; [reflexivity|].
  cbn [app Py.lstrip_by]. rewrite Ha. exact IH.
Qed.

(** [strip] does not see white space at the end. *)
Lemma strip_app s w :
  Forall (fun a => is_space a = true) w -> Py.strip (s ++ w) = Py.strip s.
Proof.
  intros F. unfold Py.strip.
  destruct (@lstrip_app is_space w s F) as [-> | (-> & ->)]; [|reflexivity].
  apply rstrip_app. exact F.
Qed.

Lemma no_paren_digits s :
  In "("%char s -> Forall (fun a => is_digit a = true) s -> False.
Proof.
  intros H F. rewrite Forall_forall in F. apply F in H. discriminate.
Qed.

Lemma no_paren_spaces s :
  In "("%char s -> Forall (fun a => is_space a = true) s -> False.
Proof.
  intros H F. rewrite Forall_forall in F. apply F in H. discriminate.
Qed.

Lemma at_end_spaces rest :
  at_endb rest = true -> Forall (fun a => is_space a = true) rest.
Proof.
  destruct rest as [|a [|b rest]]; cbn [at_endb]; intros H;
    [constructor | | discriminate].
  apply Ascii.eqb_eq in H. subst a. repeat constructor.
Qed.

(** After the end of the suffix nothing is left to replace. *)
Lemma sub_from_end n rest :
  at_endb rest = true -> sub_from n Pat.title_suffix rest = rest.
Proof.
  intros E. destruct n as [|n]; [reflexivity|]. cbn [sub_from].
  destruct rest as [|a [|b rest]]; cbn [at_endb] in E;
    [reflexivity | | discriminate].
  apply Ascii.eqb_eq in E. subst a. reflexivity.
Qed.

Lemma resolve_summary_suffix base wa mm dd yy wb :
  Forall (fun a => is_space a = true) wa ->
  Run is_digit 1 (Some 2) mm -> Run is_digit 1 (Some 2) dd ->
  Run is_digit 2 (Some 4) yy ->
  Forall (fun a => is_space a = true) wb ->
  resolve_summary (base ++ wa ++ lit "(" ++ mm ++ lit "/" ++ dd ++ lit "/"
                   ++ yy ++ lit ")" ++ wb)
  = Py.strip base.
Proof.
  intros Fa Rm Rd Ry Fb.
  set (tg := base ++ wa ++ lit "(" ++ mm ++ lit "/" ++ dd ++ lit "/"
             ++ yy ++ lit ")" ++ wb).
  assert (Tail : forall m d y w r,
             Run is_digit 1 (Some 2) m -> Run is_digit 1 (Some 2) d ->
             Run is_digit 2 (Some 4) y ->
             Forall (fun a => is_space a = true) w ->
             Forall (fun a => is_space a = true) r ->
             ~ In "("%char (m ++ lit "/" ++ d ++ lit "/" ++ y ++ lit ")"
                            ++ w ++ r)).
  { intros m d y w r (Fm & _) (Fd & _) (Fy & _) Fw Fr H.
    repeat (apply in_app_or in H; destruct H as [H | H]);
      try (apply (no_paren_digits H); assumption);
      try (apply (no_paren_spaces H); assumption);
      destruct H as [H | []]; discriminate. }
  destruct (@contains_search Pat.title_suffix tg) as (m & S).
  { exists base,
      (wa ++ lit "(" ++ mm ++ lit "/" ++ dd ++ lit "/" ++ yy ++ lit ")"
       ++ wb), [], [].
    split; [unfold tg; rewrite app_nil_r; reflexivity|].
    apply title_suffix_shape. exists wa, mm, dd, yy, wb.
    split; [reflexivity|].
    split; [split; [exact Fa | split; [simpl; lia | exact I]]|].
    split; [exact Rm|]. split; [exact Rd|]. split; [exact Ry|].
    split; [split; [exact Fb | split; [simpl; lia | exact I]]|].
    split; reflexivity. }
  destruct (@search_spec _ _ _ S) as (Et & M & _).
  apply title_suffix_shape in M
    as (wa' & mm' & dd' & yy' & wb' & Em & (Fa' & _) & Rm' & Rd' & Ry'
        & (Fb' & _) & End & _).
  pose proof (@at_end_spaces _ End) as Fp.
  assert (Split : m_pre m ++ wa' = base ++ wa).
  { refine (proj1 (@last_occurrence
                     "("%char (m_pre m ++ wa') (base ++ wa)
                     (mm' ++ lit "/" ++ dd' ++ lit "/" ++ yy' ++ lit ")"
                      ++ wb' ++ m_post m)
                     (mm ++ lit "/" ++ dd ++ lit "/" ++ yy ++ lit ")"
                      ++ wb ++ []) _ _ _)).
    - rewrite Em in Et. unfold tg in Et.
      rewrite <- !app_assoc. rewrite <- !app_assoc in Et.
      cbn [app lit list_ascii_of_string] in *. rewrite app_nil_r.
      symmetry. exact Et.
    - apply Tail; auto.
    - apply Tail; auto. }
  unfold resolve_summary, sub_empty. cbn [sub_from]. rewrite S.
  rewrite sub_from_end by exact End.
  rewrite strip_app by exact Fp.
  rewrite <- (@strip_app (m_pre m) wa' Fa'), Split.
  apply strip_app. exact Fa.
Qed.

(** Line 340: a date in parentheses that ends the title, with the white
    space around it, is left out of the summary, which is what stands
    before it, trimmed, wherever else the title holds parentheses. *)
Theorem summary_drops_trailing_date (base wa mm dd yy wb : str) :
  Forall (fun a => is_space a = true) wa ->
  Run is_digit 1 (Some 2) mm -> Run is_digit 1 (Some 2) dd ->
  Run is_digit 2 (Some 4) yy ->
  Forall (fun a => is_space a = true) wb ->
  resolve_summary (base ++ wa ++ lit "(" ++ mm ++ lit "/" ++ dd ++ lit "/"
                   ++ yy ++ lit ")" ++ wb)
  = Py.strip base.
Proof.
  apply resolve_summary_suffix.
Qed.

Lemma summary_drops_trailing_date_witness :
  resolve_summary (lit " Winter Campout" ++ lit "  " ++ lit "(" ++ lit "2"
                   ++ lit "/" ++ lit "14" ++ lit "/" ++ lit "2026" ++ lit ")"
                   ++ lit " ")
  = lit "Winter Campout".
Proof.
  apply (@summary_drops_trailing_date
           (lit " Winter Campout") (lit "  ") (lit "2") (lit "14")
           (lit "2026") (lit " "));
    try (repeat constructor; fail);
    (split; [repeat constructor | split; [simpl; lia | simpl; lia]]).
Defined.

(** *** The identifier of a rescheduled event *)

(** A date in parentheses with white space around it, as it ends a
    title. *)
Definition DateSuffix (s : str) : Prop :=
  exists wa mm dd yy wb,
    s = wa ++ lit "(" ++ mm ++ lit "/" ++ dd ++ lit "/" ++ yy ++ lit ")"
        ++ wb
    /\ Forall (fun a => is_space a = true) wa
    /\ Run is_digit 1 (Some 2) mm /\ Run is_digit 1 (Some 2) dd
    /\ Run is_digit 2 (Some 4) yy
    /\ Forall (fun a => is_space a = true) wb.

Lemma emitted_summary (year_padded : bool) parse u text tg e :
  parse_detail year_padded parse u text tg = Ok (Emitted e) ->
  summary e = resolve_summary tg /\ ev_url e = u.
Proof.
  unfold parse_detail.
  destruct (resolve_date parse text tg) as [[d0|]|]; cbn [bind];
    try discriminate.
  destruct (Datetime.add d0 (days 1)) as [dtend0|]; cbn [bind];
    [|discriminate].
  destruct (resolve_time year_padded parse text d0 dtend0) as [[s t] a].
  intros H. apply Ok_inj in H. injection H as <-. split; reflexivity.
Qed.

(** Lines 137-138 with line 340: the identifier is made of the url and
    the summary, and the summary leaves out the date that ends the title;
    so two visits of the same url whose titles differ only in that date,
    whatever the page texts say, give events with the same identifier: an
    event that is moved to another day keeps its UID. *)
Theorem rescheduling_keeps_the_uid (year_padded : bool)
        (sha1_hexdigest : list Byte.byte -> str)
        (dtparser_parse : str -> option Datetime.naive)
        (u text1 text2 base s1 s2 : str) (e1 e2 : event) :
  DateSuffix s1 -> DateSuffix s2 ->
  parse_detail year_padded dtparser_parse u text1 (base ++ s1)
  = Ok (Emitted e1) ->
  parse_detail year_padded dtparser_parse u text2 (base ++ s2)
  = Ok (Emitted e2) ->
  summary e1 = Py.strip base
  /\ summary e2 = Py.strip base
  /\ uid sha1_hexdigest e1 = uid sha1_hexdigest e2.
Proof.
  intros (wa1 & mm1 & dd1 & yy1 & wb1 & -> & A1 & M1 & D1 & Y1 & B1)
         (wa2 & mm2 & dd2 & yy2 & wb2 & -> & A2 & M2 & D2 & Y2 & B2) H1 H2.
  apply emitted_summary in H1 as (S1 & U1).
  apply emitted_summary in H2 as (S2 & U2).
  rewrite resolve_summary_suffix in S1 by assumption.
  rewrite resolve_summary_suffix in S2 by assumption.
  split; [exact S1|]. split; [exact S2|].
  unfold uid. rewrite S1, S2, U1, U2. reflexivity.
Qed.

Lemma rescheduling_keeps_the_uid_witness :
  exists e1 e2,
    parse_detail false Sample.parse (lit "u") (lit "Bring a tent")
                 (lit "Campout" ++ lit " (02/14/26)") = Ok (Emitted e1)
    /\ parse_detail false Sample.parse (lit "u") (lit "Moved to 3/7/2026")
                    (lit "Campout" ++ lit "  (03/07/26) ") = Ok (Emitted e2)
    /\ summary e1 = Py.strip (lit "Campout")
    /\ summary e2 = Py.strip (lit "Campout")
    /\ uid Sample.hexdigest e1 = uid Sample.hexdigest e2.
Proof.
  eexists. eexists.
  split; [vm_compute; reflexivity|]. split; [vm_compute; reflexivity|].
  apply (@rescheduling_keeps_the_uid false
           Sample.hexdigest Sample.parse (lit "u") (lit "Bring a tent")
           (lit "Moved to 3/7/2026") (lit "Campout")
           (lit " (02/14/26)") (lit "  (03/07/26) ")).
  - exists (lit " "), (lit "02"), (lit "14"), (lit "26"), (lit "").
    split; [reflexivity|].
    repeat split; repeat constructor.
  - exists (lit "  "), (lit "03"), (lit "07"), (lit "26"), (lit " ").
    split; [reflexivity|].
    repeat split; repeat constructor.
  - vm_compute. reflexivity.
  - vm_compute. reflexivity.
Defined.

End LoopFacts.

(** ** More on the calendar document *)

Module CalendarFacts.
Import PyFacts DatetimeFacts DetailFacts IcsFacts.

(** A string without a line feed. *)
Definition no_lf (s : str) : Prop := ~ In newline s.

Lemma no_lf_check s : existsb (Ascii.eqb newline) s = false -> no_lf s.
Proof.
  intros E H. assert (T : existsb (Ascii.eqb newline) s = true).
  { apply existsb_exists. exists newline. split; [exact H|].
    apply Ascii.eqb_refl. }
  congruence.
Qed.

Lemma no_lf_app a b : no_lf a -> no_lf b -> no_lf (a ++ b).
Proof.
  intros Ha Hb H. apply in_app_or in H.
  destruct H as [H | H]; [exact (Ha H) | exact (Hb H)].
Qed.

Lemma no_lf_digits s : Forall (fun a => is_digit a = true) s -> no_lf s.
Proof.
  intros F H. rewrite Forall_forall in F. apply F in H. discriminate.
Qed.

Lemma digit_chr_digit d : (0 <= d <= 9)%Z -> is_digit (Py.digit_chr d) = true.
Proof.
  intros R.
  assert (C : (d = 0 \/ d = 1 \/ d = 2 \/ d = 3 \/ d = 4 \/ d = 5 \/ d = 6
               \/ d = 7 \/ d = 8 \/ d = 9)%Z) by lia.
  repeat (destruct C as [C | C]; [subst d; reflexivity|]).
  subst d. reflexivity.
Qed.

(** The fields of [strftime] are decimal digits. *)
Lemma zpad_digits w : forall n,
  Forall (fun a => is_digit a = true) (Py.zpad w n).
Proof.
  induction w as [|w IH]; intros n; cbn [Py.zpad]; [constructor|].
  apply Forall_app. split; [apply IH|].
  constructor; [|constructor]. apply digit_chr_digit.
  Z.div_mod_to_equations. lia.
Qed.

Lemma zpad_length w : forall n, length (Py.zpad w n) = w.
Proof.
  induction w as [|w IH]; intros n; cbn [Py.zpad]; [reflexivity|].
  rewrite length_app, IH. simpl. lia.
Qed.

Lemma digits_of_digits fuel : forall n,
  Forall (fun a => is_digit a = true) (Py.digits_of fuel n).
Proof.
  induction fuel as [|fuel IH]; intros n; cbn [Py.digits_of]; [constructor|].
  apply Forall_app. split.
  - destruct (n <? 10)%N; [constructor | apply IH].
  - constructor; [|constructor].
    assert (R : (n mod 10 < 10)%N) by (apply N.mod_lt; discriminate).
    remember (n mod 10)%N as k eqn:E. clear E.
    assert (C : (k = 0 \/ k = 1 \/ k = 2 \/ k = 3 \/ k = 4 \/ k = 5
                 \/ k = 6 \/ k = 7 \/ k = 8 \/ k = 9)%N) by lia.
    repeat (destruct C as [C | C]; [subst k; reflexivity|]).
    subst k. reflexivity.
Qed.

(** The [%Y] field holds no line feed, padded or not. *)
Lemma no_lf_strftime_Y padded y : no_lf (Datetime.strftime_Y padded y).
Proof.
  unfold Datetime.strftime_Y. destruct padded.
  - apply no_lf_digits, zpad_digits.
  - unfold Py.decimal. apply no_lf_app.
    + destruct (y <? 0)%Z; apply no_lf_check; reflexivity.
    + apply no_lf_digits, digits_of_digits.
Qed.

Lemma no_lf_strftime_date (year_padded : bool) d :
  no_lf (Datetime.strftime_date year_padded d).
Proof.
  unfold Datetime.strftime_date.
  apply no_lf_app; [apply no_lf_strftime_Y|].
  apply no_lf_app; apply no_lf_digits, zpad_digits.
Qed.

Lemma no_lf_strftime_utc (year_padded : bool) d :
  no_lf (Datetime.strftime_utc year_padded d).
Proof.
  unfold Datetime.strftime_utc.
  apply no_lf_app; [apply no_lf_strftime_date|].
  apply no_lf_app; [apply no_lf_check; reflexivity|].
  apply no_lf_app; [apply no_lf_digits, zpad_digits|].
  apply no_lf_app; [apply no_lf_digits, zpad_digits|].
  apply no_lf_app; [apply no_lf_digits, zpad_digits|].
  apply no_lf_check. reflexivity.
Qed.

Lemma no_lf_strip s : no_lf s -> no_lf (Py.strip s).
Proof.
  intros H N. destruct (strip_split s) as (pre & post & E).
  apply H. rewrite E. apply in_or_app. right. apply in_or_app. auto.
Qed.

(** Replacing every line feed leaves none. *)
Lemma no_lf_replace by_ s :
  no_lf by_ -> no_lf (Py.replace_chr newline by_ s).
Proof.
  intros Hb H. unfold Py.replace_chr in H.
  apply in_flat_map in H as (a & _ & H).
  destruct (Ascii.eqb a newline) eqn:E; [exact (Hb H)|].
  destruct H as [H | []]. subst a. rewrite Ascii.eqb_refl in E.
  discriminate.
Qed.

Lemma no_lf_start_end (year_padded : bool) ev l :
  start_end_lines year_padded ev = Ok l -> Forall no_lf l.
Proof.
  unfold start_end_lines, fmt_dt.
  destruct (all_day ev).
  - intros H. apply Ok_inj in H. subst l.
    repeat constructor;
      (apply no_lf_app;
       [apply no_lf_check; reflexivity | apply no_lf_strftime_date]).
  - destruct (Datetime.astimezone_utc (dtstart ev)); cbn [bind];
      [|discriminate].
    destruct (Datetime.astimezone_utc (dtend ev)); cbn [bind];
      [|discriminate].
    intros H. apply Ok_inj in H. subst l.
    repeat constructor;
      (apply no_lf_app;
       [apply no_lf_check; reflexivity | apply no_lf_strftime_utc]).
Qed.

Lemma no_lf_text_lines ev : Forall no_lf (text_lines ev).
Proof.
  unfold text_lines. apply Forall_app. split; [|apply Forall_app; split].
  - constructor; [|constructor].
    apply no_lf_app; [apply no_lf_check; reflexivity|].
    apply no_lf_strip, no_lf_replace, no_lf_check. reflexivity.
  - destruct (Py.nonempty _); constructor; [|constructor].
    apply no_lf_app; [apply no_lf_check; reflexivity|].
    apply no_lf_strip, no_lf_replace, no_lf_check. reflexivity.
  - destruct (Py.nonempty _); constructor; [|constructor].
    apply no_lf_app; [apply no_lf_check; reflexivity|].
    apply no_lf_replace, no_lf_check. reflexivity.
Qed.

Section WithDigest.
Variable year_padded : bool.
Variable sha1_hexdigest : list Byte.byte -> str.
Hypothesis digest_no_lf : forall b, no_lf (sha1_hexdigest b).

Lemma no_lf_block now_utc ev b :
  no_lf now_utc ->
  event_block year_padded sha1_hexdigest now_utc ev = Ok b -> Forall no_lf b.
Proof.
  intros Hn. unfold event_block.
  destruct (start_end_lines year_padded ev) as [se|] eqn:E; cbn [bind];
    [|discriminate].
  intros H. apply Ok_inj in H. subst b.
  apply Forall_app. split.
  - repeat constructor.
    + apply no_lf_check. reflexivity.
    + apply no_lf_app; [apply no_lf_check; reflexivity|].
      unfold uid. apply no_lf_app;
        [apply digest_no_lf | apply no_lf_check; reflexivity].
    + apply no_lf_app; [apply no_lf_check; reflexivity | exact Hn].
  - apply Forall_app. split; [apply (@no_lf_start_end _ ev _ E)|].
    apply Forall_app. split; [apply no_lf_text_lines|].
    repeat constructor. apply no_lf_check. reflexivity.
Qed.

Lemma no_lf_blocks now_utc events : forall bs,
  no_lf now_utc ->
  event_blocks year_padded sha1_hexdigest now_utc events = Ok bs ->
  Forall no_lf bs.
Proof.
  induction events as [|ev events IH]; intros bs Hn; cbn [event_blocks].
  - intros H. apply Ok_inj in H. subst. constructor.
  - destruct (event_block year_padded sha1_hexdigest now_utc ev) as [b|] eqn:E;
      cbn [bind]; [|discriminate].
    destruct (event_blocks year_padded sha1_hexdigest now_utc events)
      as [bs'|] eqn:E'; cbn [bind]; [|discriminate].
    intros H. apply Ok_inj in H. subst bs.
    apply Forall_app. split; [apply (@no_lf_block _ _ _ Hn E) | apply IH; auto].
Qed.

End WithDigest.

Lemma join_terminated sep l :
  l <> [] -> Py.join sep l ++ sep = flat_map (fun x => x ++ sep) l.
Proof.
  induction l as [|x l IH]; [congruence|]. intros _.
  destruct l as [|y l].
  - cbn [Py.join flat_map]. rewrite app_nil_r. reflexivity.
  - change (Py.join sep (x :: y :: l)) with (x ++ sep ++ Py.join sep (y :: l)).
    change (flat_map (fun x => x ++ sep) (x :: y :: l))
      with ((x ++ sep) ++ flat_map (fun x => x ++ sep) (y :: l)).
    rewrite <- IH by discriminate. rewrite <- !app_assoc. reflexivity.
Qed.

(** The document is its lines, each followed by CR LF, and no line holds
    a line feed of its own: the line feeds of a summary and of a location
    are written as spaces, those of a description as a backslash and an
    [n], and the other lines are made of fixed text, digits and the
    digest.  (A carriage return in a summary is written as it is.) *)
Theorem document_is_crlf_lines (year_padded : bool)
        (sha1_hexdigest : list Byte.byte -> str) (now : Datetime.naive)
        (events : list event) (doc : str) :
  (forall b, ~ In newline (sha1_hexdigest b)) ->
  build_ics year_padded sha1_hexdigest now events = Ok doc ->
  exists lines,
    ics_lines year_padded sha1_hexdigest now events = Ok lines
    /\ doc = flat_map (fun l => l ++ CRLF) lines
    /\ Forall (fun l => ~ In newline l) lines.
Proof.
  intros Hd. unfold build_ics.
  destruct (ics_lines year_padded sha1_hexdigest now events) as [lines|] eqn:E;
    cbn [bind]; [|discriminate].
  intros H. apply Ok_inj in H. subst doc.
  exists lines. split; [reflexivity|].
  unfold ics_lines in E.
  destruct (event_blocks year_padded sha1_hexdigest
                         (Datetime.strftime_utc year_padded now) events)
    as [bs|] eqn:B; cbn [bind] in E; [|discriminate].
  apply Ok_inj in E. subst lines. split.
  - apply join_terminated. discriminate.
  - apply Forall_app. split.
    + repeat constructor; apply no_lf_check; reflexivity.
    + apply Forall_app. split.
      * apply (@no_lf_blocks year_padded sha1_hexdigest Hd _ _ _
                 (@no_lf_strftime_utc year_padded now) B).
      * repeat constructor. apply no_lf_check. reflexivity.
Qed.

Lemma hexdigest_no_lf b : no_lf (Sample.hexdigest b).
Proof.
  unfold Sample.hexdigest. intros H.
  apply in_flat_map in H as (x & _ & H).
  revert H. apply no_lf_check. destruct x; reflexivity.
Qed.

(** An event whose texts hold line feeds, for running the serialiser. *)
Definition two_lines : event :=
  mkEvent [ascii_of_N 65; newline; ascii_of_N 66]
          (Datetime.mkDatetime (Datetime.mkNaive 2026 3 5 19 0 0 0) LOCAL_TZ)
          (Datetime.mkDatetime (Datetime.mkNaive 2026 3 5 21 0 0 0) LOCAL_TZ)
          [ascii_of_N 67; newline; ascii_of_N 68]
          [ascii_of_N 69; newline; ascii_of_N 70]
          (lit "https://www.troopwebhost.org/FormDetail.aspx?ID=56") false.

Lemma document_is_crlf_lines_witness :
  exists doc lines,
    build_ics false Sample.hexdigest Sample.noon [two_lines] = Ok doc
    /\ ics_lines false Sample.hexdigest Sample.noon [two_lines] = Ok lines
    /\ doc = flat_map (fun l => l ++ CRLF) lines
    /\ Forall (fun l => ~ In newline l) lines.
Proof.
  destruct (build_ics false Sample.hexdigest Sample.noon [two_lines])
    as [doc|] eqn:E; [|vm_compute in E; discriminate].
  destruct (@document_is_crlf_lines false
              Sample.hexdigest Sample.noon [two_lines] doc
              hexdigest_no_lf E) as (lines & H).
  exists doc, lines. split; [reflexivity | exact H].
Defined.

(** *** Time stamps *)

(** [fmt_dt] on a datetime of the local zone adds five hours. *)
Lemma fmt_dt_local (year_padded : bool) dt :
  Datetime.utcoffset dt = LOCAL_TZ ->
  fmt_dt year_padded dt
  = (u <- Datetime.add_naive (Datetime.local dt) (hours 5) ;;
     Ok (Datetime.strftime_utc year_padded u)).
Proof.
  intros H. unfold fmt_dt, Datetime.astimezone_utc. rewrite H.
  change (Datetime.mkTimedelta ((- LOCAL_TZ) / 86400)
                               ((- LOCAL_TZ) mod 86400))
    with (hours 5).
  destruct (Datetime.add_naive (Datetime.local dt) (hours 5));
    reflexivity.
Qed.

Lemma add_naive_raises d td ex :
  Datetime.add_naive d td = Raise ex -> ex = OverflowError.
Proof.
  unfold Datetime.add_naive.
  destruct ((0 <? _)%Z && (_ <=? Datetime.MAXORDINAL)%Z).
  - destruct (Datetime.ord2ymd _) as [[y m] dd]. discriminate.
  - intros H. injection H as <-. reflexivity.
Qed.

Lemma fmt_dt_raises (year_padded : bool) dt ex :
  fmt_dt year_padded dt = Raise ex -> ex = OverflowError.
Proof.
  unfold fmt_dt, Datetime.astimezone_utc.
  destruct (Datetime.add_naive _ _) as [r|ex'] eqn:A; cbn [bind];
    [discriminate|].
  intros H. injection H as <-. apply (add_naive_raises _ _ A).
Qed.

(** With enough fuel, a number of four digits is written with four
    characters, and a smaller one with fewer. *)
Lemma digits_of_length4 f n :
  (1000 <= n <= 9999)%N -> 3 <= f -> length (Py.digits_of (S f) n) = 4.
Proof.
  intros R F. destruct f as [|[|[|f]]]; try lia.
  assert (A : (100 <= n / 10 <= 999)%N).
  { split; [apply N.div_le_lower_bound; lia|].
    apply N.lt_succ_r, N.Div0.div_lt_upper_bound. lia. }
  assert (B : (10 <= n / 10 / 10 <= 99)%N).
  { split; [apply N.div_le_lower_bound; lia|].
    apply N.lt_succ_r, N.Div0.div_lt_upper_bound. lia. }
  assert (C : (n / 10 / 10 / 10 < 10)%N)
    by (apply N.Div0.div_lt_upper_bound; lia).
  cbn [Py.digits_of].
  destruct (N.ltb_spec n 10); [lia|].
  destruct (N.ltb_spec (n / 10) 10); [lia|].
  destruct (N.ltb_spec (n / 10 / 10) 10); [lia|].
  destruct (N.ltb_spec (n / 10 / 10 / 10) 10); [|lia].
  reflexivity.
Qed.

Lemma digits_of_length_lt4 f n :
  (n < 1000)%N -> length (Py.digits_of f n) < 4.
Proof.
  intros R.
  assert (A : (n / 10 < 100)%N) by (apply N.Div0.div_lt_upper_bound; lia).
  assert (B : (n / 10 / 10 < 10)%N) by (apply N.Div0.div_lt_upper_bound; lia).
  destruct f as [|[|[|f]]]; cbn [Py.digits_of];
    repeat match goal with
           | |- context [(?x <? 10)%N] => destruct (N.ltb_spec x 10)
           end; cbn [app length]; rewrite ?length_app; cbn [length]; try lia.
Qed.

Lemma decimal_length4 y : (1000 <= y <= 9999)%Z -> length (Py.decimal y) = 4.
Proof.
  intros R. unfold Py.decimal.
  destruct (Z.ltb_spec y 0); [lia|]. cbn [app].
  apply digits_of_length4; [lia|].
  assert (L : (N.log2 512 <= N.log2 (Z.abs_N y))%N)
    by (apply N.log2_le_mono; lia).
  change (N.log2 512) with 9%N in L. lia.
Qed.

Lemma decimal_length_lt4 y : (0 <= y < 1000)%Z -> length (Py.decimal y) < 4.
Proof.
  intros R. unfold Py.decimal.
  destruct (Z.ltb_spec y 0); [lia|]. cbn [app].
  apply digits_of_length_lt4. lia.
Qed.

(** The stamp has the sixteen characters of the iCalendar form exactly
    when the year is written with four digits. *)
Lemma strftime_utc_length (year_padded : bool) d :
  Datetime.valid d = true ->
  (length (Datetime.strftime_utc year_padded d) = 16 <->
   year_padded = true \/ (1000 <= Datetime.year d)%Z).
Proof.
  intros V. apply valid_spec in V as (Vd & _).
  assert (Y : (1 <= Datetime.year d <= 9999)%Z).
  { unfold Datetime.valid_date, Datetime.MINYEAR, Datetime.MAXYEAR in Vd.
    repeat (apply andb_true_iff in Vd as (Vd & ?)).
    rewrite Z.leb_le in *. lia. }
  unfold Datetime.strftime_utc, Datetime.strftime_date, Datetime.strftime_Y.
  rewrite !length_app, !zpad_length. cbn [lit list_ascii_of_string length].
  destruct year_padded.
  - rewrite zpad_length. split; [auto | reflexivity].
  - destruct (Z.le_gt_cases 1000 (Datetime.year d)) as [G | G].
    + rewrite decimal_length4 by lia. split; [auto | reflexivity].
    + pose proof (@decimal_length_lt4 (Datetime.year d)) as L.
      split; [intros E | intros [E | E]]; [|discriminate|]; lia.
Qed.

(** Lines 122-124 on a datetime of the local zone, five hours behind
    UTC: the stamp is the wall clock five hours later; it cannot be
    written, and [OverflowError] is raised, exactly from 19:00 on of
    9999-12-31.  The stamp is sixteen characters long exactly when the C
    library pads the year or the year in UTC is 1000 or later: for a year
    below 1000 glibc gives a shorter stamp. *)
Theorem stamps_are_five_hours_ahead
        (year_padded : bool) (dt : Datetime.datetime) :
  Datetime.valid (Datetime.local dt) = true ->
  Datetime.utcoffset dt = LOCAL_TZ ->
  (fmt_dt year_padded dt = Raise OverflowError <->
   Datetime.year (Datetime.local dt) = 9999%Z
   /\ Datetime.month (Datetime.local dt) = 12%Z
   /\ Datetime.day (Datetime.local dt) = 31%Z
   /\ (19 <= Datetime.hour (Datetime.local dt))%Z)
  /\ forall s,
       fmt_dt year_padded dt = Ok s ->
       exists u,
         s = Datetime.strftime_utc year_padded u
         /\ Datetime.valid u = true
         /\ instant u
            = (instant (Datetime.local dt) + 5 * 3600 * 1000000)%Z
         /\ (length s = 16 <->
             year_padded = true \/ (1000 <= Datetime.year u)%Z).
Proof.
  intros V Tz. rewrite (fmt_dt_local year_padded dt Tz). split.
  - pose proof (@LoopFacts.last_day _ V) as L.
    pose proof V as V'. apply valid_spec in V' as (Vd & Hh & Hm & Hs & _).
    pose proof (toordinal_range _ Vd) as R.
    unfold Datetime.add_naive.
    cbn [hours Datetime.td_days Datetime.td_seconds].
    set (secs := (Datetime.seconds_of_day (Datetime.local dt) + 5 * 3600)%Z).
    assert (Hsecs : (secs / 86400 = 0 /\ Datetime.hour (Datetime.local dt) < 19
                     \/ secs / 86400 = 1
                        /\ 19 <= Datetime.hour (Datetime.local dt))%Z).
    { unfold secs, Datetime.seconds_of_day.
      Z.div_mod_to_equations. lia. }
    destruct ((0 <? _)%Z && (_ <=? Datetime.MAXORDINAL)%Z) eqn:C.
    + apply andb_true_iff in C. rewrite Z.ltb_lt, Z.leb_le in C.
      destruct (Datetime.ord2ymd _) as [[y m] dd]. cbn [bind].
      split; [discriminate|]. intros (Ey & Em & Ed & Hh19).
      assert (Datetime.toordinal (Datetime.local dt) = Datetime.MAXORDINAL)
        by (apply L; auto).
      lia.
    + apply andb_false_iff in C. rewrite Z.ltb_ge, Z.leb_gt in C.
      cbn [bind]. split; [intros _ | reflexivity].
      assert (T : Datetime.toordinal (Datetime.local dt)
                  = Datetime.MAXORDINAL) by lia.
      apply L in T as (Ey & Em & Ed). repeat split; auto. lia.
  - intros s.
    destruct (Datetime.add_naive (Datetime.local dt) (hours 5))
      as [u|] eqn:A; cbn [bind]; [|discriminate].
    intros H. apply Ok_inj in H. subst s. exists u.
    assert (Vu : Datetime.valid u = true)
      by (apply (add_naive_valid _ _ A); apply valid_spec in V; tauto).
    split; [reflexivity|]. split; [exact Vu|].
    split; [|apply strftime_utc_length; exact Vu].
    apply add_naive_spec in A as (A & _). rewrite A. reflexivity.
Qed.

Lemma stamps_are_five_hours_ahead_witness :
  exists u,
    lit "1230102T050000Z" = Datetime.strftime_utc false u
    /\ Datetime.valid u = true
    /\ instant u
       = (instant (Datetime.mkNaive 123 1 2 0 0 0 0) + 5 * 3600 * 1000000)%Z
    /\ (length (lit "1230102T050000Z") = 16 <->
        false = true \/ (1000 <= Datetime.year u)%Z).
Proof.
  apply (proj2 (@stamps_are_five_hours_ahead false
                  (Datetime.mkDatetime (Datetime.mkNaive 123 1 2 0 0 0 0)
                                       LOCAL_TZ)
                  eq_refl eq_refl)).
  vm_compute. reflexivity.
Defined.

(** *** When the serialiser fails *)

Lemma start_end_lines_raises (year_padded : bool) ev ex :
  start_end_lines year_padded ev = Raise ex ->
  ex = OverflowError
  /\ all_day ev = false
  /\ (fmt_dt year_padded (dtstart ev) = Raise OverflowError
      \/ fmt_dt year_padded (dtend ev) = Raise OverflowError).
Proof.
  unfold start_end_lines. destruct (all_day ev); [discriminate|].
  destruct (fmt_dt year_padded (dtstart ev)) as [s|ex1] eqn:S; cbn [bind].
  - destruct (fmt_dt year_padded (dtend ev)) as [e|ex2] eqn:E; cbn [bind];
      [discriminate|].
    intros H. injection H as <-.
    pose proof (@fmt_dt_raises _ _ _ E) as ->. auto.
  - intros H. injection H as <-.
    pose proof (@fmt_dt_raises _ _ _ S) as ->. auto.
Qed.

Lemma event_blocks_raises (year_padded : bool) sha now_utc events : forall ex,
  event_blocks year_padded sha now_utc events = Raise ex ->
  ex = OverflowError
  /\ exists ev, In ev events /\ all_day ev = false
                /\ (fmt_dt year_padded (dtstart ev) = Raise OverflowError
                    \/ fmt_dt year_padded (dtend ev) = Raise OverflowError).
Proof.
  induction events as [|ev events IH]; intros ex; cbn [event_blocks];
    [discriminate|].
  unfold event_block.
  destruct (start_end_lines year_padded ev) as [se|ex1] eqn:E; cbn [bind].
  - destruct (event_blocks year_padded sha now_utc events) as [bs|ex2] eqn:B;
      cbn [bind]; [discriminate|].
    intros H. injection H as <-.
    destruct (IH _ eq_refl) as (-> & ev' & Hin & Hev).
    split; [reflexivity|]. exists ev'. split; [right; exact Hin | exact Hev].
  - intros H. injection H as <-.
    apply start_end_lines_raises in E as (-> & Ha & Hf).
    split; [reflexivity|]. exists ev. split; [left; reflexivity | auto].
Qed.

(** [build_ics] raises nothing but [OverflowError], and only for an event
    that is not all-day and whose start or end has no time stamp in UTC;
    a list of all-day events is always written. *)
Theorem build_ics_fails_only_on_timed_overflow (year_padded : bool)
        (sha1_hexdigest : list Byte.byte -> str) (now : Datetime.naive)
        (events : list event) :
  (forall ex,
     build_ics year_padded sha1_hexdigest now events = Raise ex ->
     ex = OverflowError
     /\ exists ev, In ev events /\ all_day ev = false
                   /\ (fmt_dt year_padded (dtstart ev) = Raise OverflowError
                       \/ fmt_dt year_padded (dtend ev) = Raise OverflowError))
  /\ (forallb all_day events = true ->
      exists doc, build_ics year_padded sha1_hexdigest now events = Ok doc).
Proof.
  split.
  - intros ex. unfold build_ics, ics_lines.
    destruct (event_blocks year_padded sha1_hexdigest
                           (Datetime.strftime_utc year_padded now) events)
      as [bs|ex1] eqn:B; cbn [bind]; [discriminate|].
    intros H. injection H as <-. apply (@event_blocks_raises _ _ _ _ _ B).
  - intros A. unfold build_ics, ics_lines.
    destruct (@event_blocks_ok year_padded sha1_hexdigest
                               (Datetime.strftime_utc year_padded now)
                               events) as (bs & ->).
    + rewrite forallb_forall in A. apply Forall_forall. intros ev Hin.
      apply start_end_lines_all_day. apply A. exact Hin.
    + cbn [bind]. eauto.
Qed.

(** *** The lines of an event *)

(** Lines 136-170: an event is written as seven to nine lines, in the
    order BEGIN, UID, DTSTAMP, DTSTART, DTEND, SUMMARY, then a LOCATION
    line exactly when the location is not blank, then at most a
    DESCRIPTION line, then END. *)
Theorem event_block_has_required_lines (year_padded : bool)
        (sha1_hexdigest : list Byte.byte -> str) (now_utc : str)
        (ev : event) (b : list str) :
  event_block year_padded sha1_hexdigest now_utc ev = Ok b ->
  exists ds de loc desc,
    b = [lit "BEGIN:VEVENT"; lit "UID:" ++ uid sha1_hexdigest ev;
         lit "DTSTAMP:" ++ now_utc; ds; de;
         lit "SUMMARY:"
         ++ Py.strip (Py.replace_chr newline (lit " ") (summary ev))]
        ++ loc ++ desc ++ [lit "END:VEVENT"]
    /\ Py.startswith (lit "DTSTART") ds = true
    /\ Py.startswith (lit "DTEND") de = true
    /\ (Py.strip (Py.replace_chr newline (lit " ") (location ev)) = []
        /\ loc = []
        \/ Py.strip (Py.replace_chr newline (lit " ") (location ev)) <> []
           /\ loc = [lit "LOCATION:"
                     ++ Py.strip (Py.replace_chr newline (lit " ")
                                                 (location ev))])
    /\ (desc = []
        \/ exists d, d <> [] /\ desc = [lit "DESCRIPTION:" ++ d])
    /\ 7 <= length b <= 9.
Proof.
  unfold event_block.
  destruct (start_end_lines year_padded ev) as [se|] eqn:E; cbn [bind];
    [|discriminate].
  intros H. apply Ok_inj in H. subst b.
  assert (Se : exists ds de, se = [ds; de]
                             /\ Py.startswith (lit "DTSTART") ds = true
                             /\ Py.startswith (lit "DTEND") de = true).
  { unfold start_end_lines in E. destruct (all_day ev).
    - apply Ok_inj in E. subst se. eauto.
    - destruct (fmt_dt year_padded (dtstart ev)); cbn [bind] in E;
        [|discriminate].
      destruct (fmt_dt year_padded (dtend ev)); cbn [bind] in E;
        [|discriminate].
      apply Ok_inj in E. subst se. eauto. }
  destruct Se as (ds & de & -> & Hs & He).
  unfold text_lines.
  set (loc := Py.strip (Py.replace_chr newline (lit " ") (location ev))).
  set (desc := Py.replace_chr newline backslash_n _).
  exists ds, de,
    (if Py.nonempty loc then [lit "LOCATION:" ++ loc] else []),
    (if Py.nonempty desc then [lit "DESCRIPTION:" ++ desc] else []).
  split; [destruct (Py.nonempty loc); destruct (Py.nonempty desc);
          reflexivity|].
  split; [exact Hs|]. split; [exact He|].
  split; [|split].
  - destruct loc; cbn [Py.nonempty]; [left; auto | right].
    split; [discriminate | reflexivity].
  - destruct desc as [|a desc'] eqn:D; cbn [Py.nonempty]; [left; auto|].
    right. exists (a :: desc'). split; [discriminate | reflexivity].
  - rewrite !length_app.
    destruct (Py.nonempty loc); destruct (Py.nonempty desc); simpl; lia.
Qed.

Lemma event_block_has_required_lines_witness :
  exists ds de loc desc,
    [lit "BEGIN:VEVENT";
     lit "UID:" ++ uid Sample.hexdigest Sample.meeting;
     lit "DTSTAMP:20261104T120000Z";
     lit "DTSTART:20260306T000000Z";
     lit "DTEND:20260306T020000Z";
     lit "SUMMARY:Meeting";
     lit "DESCRIPTION:Meeting at 7:00 PM\n\nhttps://www.troopwebhost.org/FormDetail.aspx?ID=56";
     lit "END:VEVENT"]
    = [lit "BEGIN:VEVENT"; lit "UID:" ++ uid Sample.hexdigest Sample.meeting;
       lit "DTSTAMP:" ++ lit "20261104T120000Z"; ds; de;
       lit "SUMMARY:"
       ++ Py.strip (Py.replace_chr newline (lit " ")
                                   (summary Sample.meeting))]
      ++ loc ++ desc ++ [lit "END:VEVENT"]
    /\ Py.startswith (lit "DTSTART") ds = true
    /\ Py.startswith (lit "DTEND") de = true
    /\ (Py.strip (Py.replace_chr newline (lit " ") (location Sample.meeting))
        = []
        /\ loc = []
        \/ Py.strip (Py.replace_chr newline (lit " ")
                                    (location Sample.meeting)) <> []
           /\ loc = [lit "LOCATION:"
                     ++ Py.strip (Py.replace_chr newline (lit " ")
                                                 (location Sample.meeting))])
    /\ (desc = []
        \/ exists d, d <> [] /\ desc = [lit "DESCRIPTION:" ++ d])
    /\ 7 <= 8 <= 9.
Proof.
  apply (@event_block_has_required_lines false
           Sample.hexdigest (lit "20261104T120000Z") Sample.meeting).
  vm_compute. reflexivity.
Defined.

(** *** From the loop to the document *)

(** The datetimes of an emitted event are of the calendar and of the local
    zone. *)
Lemma emitted_valid (year_padded : bool) parse u text tg e :
  returns_valid parse ->
  parse_detail year_padded parse u text tg = Ok (Emitted e) ->
  Datetime.valid (Datetime.local (dtstart e)) = true
  /\ Datetime.valid (Datetime.local (dtend e)) = true
  /\ Datetime.utcoffset (dtstart e) = LOCAL_TZ
  /\ Datetime.utcoffset (dtend e) = LOCAL_TZ.
Proof.
  intros Hv. unfold parse_detail.
  destruct (resolve_date parse text tg) as [[d0|]|] eqn:R; cbn [bind];
    try discriminate.
  destruct (resolve_date_valid Hv _ _ R) as (V0 & Tz0).
  destruct (Datetime.add d0 (days 1)) as [dtend0|] eqn:A; cbn [bind];
    [|discriminate].
  pose proof (add_valid _ _ A V0) as V1.
  destruct (add_spec _ _ A) as (_ & Tz1). rewrite Tz0 in Tz1.
  unfold resolve_time.
  destruct (Regex.search Pat.clock text) as [m|].
  - destruct (parse _) as [d2|] eqn:P.
    + pose proof (Hv _ _ P) as V2.
      destruct (Datetime.add (Datetime.replace_tzinfo LOCAL_TZ d2) (hours 2))
        as [t|] eqn:A2; intros H; apply Ok_inj in H; injection H as <-;
        cbn [dtstart dtend].
      * pose proof (add_valid _ _ A2 V2) as V3.
        destruct (add_spec _ _ A2) as (_ & Tz3). auto.
      * auto.
    + intros H. apply Ok_inj in H. injection H as <-. cbn [dtstart dtend].
      auto.
  - intros H. apply Ok_inj in H. injection H as <-. cbn [dtstart dtend].
    auto.
Qed.

Lemma collect_events_all (year_padded : bool) (P : event -> Prop) parse
      pages : forall events out,
  (forall x page e,
     In (x, page) pages ->
     process_link year_padded parse x page = Ok (Emitted e) -> P e) ->
  Forall P events ->
  collect_events year_padded parse pages events = Ok out -> Forall P out.
Proof.
  induction pages as [|[x page] pages IH]; intros events out HP F;
    cbn [collect_events].
  - intros H. apply Ok_inj in H. subst. exact F.
  - destruct (process_link year_padded parse x page) as [[e|]|] eqn:E;
      cbn [bind]; [| |discriminate].
    + apply IH.
      * intros y p e' Hin. apply HP. right. exact Hin.
      * apply Forall_app. split; [exact F|]. constructor; [|constructor].
        apply (HP x page e); [left; reflexivity | exact E].
    + apply IH; [|exact F].
      intros y p e' Hin. apply HP. right. exact Hin.
Qed.

Lemma fmt_dt_ok (year_padded : bool) dt :
  Datetime.valid (Datetime.local dt) = true ->
  Datetime.utcoffset dt = LOCAL_TZ ->
  (Datetime.year (Datetime.local dt) < 9999)%Z ->
  exists s, fmt_dt year_padded dt = Ok s.
Proof.
  intros V Tz Y. rewrite (fmt_dt_local year_padded dt Tz).
  destruct (@add_naive_within (Datetime.local dt) (hours 5) V) as (u & ->).
  - pose proof V as V'. apply valid_spec in V' as (Vd & _).
    pose proof (toordinal_range _ Vd) as R.
    destruct (Z.eq_dec (Datetime.toordinal (Datetime.local dt))
                       Datetime.MAXORDINAL) as [E|N]; [|lia].
    apply (@LoopFacts.last_day _ V) in E. lia.
  - left. cbn. lia.
  - cbn [bind]. eauto.
Qed.

(** What the loop gathers, [build_ics] writes: with a [dateutil] that
    returns datetimes of the calendar, the events of a run of the loop
    that start and end before the year 9999 are serialised without an
    error. *)
Theorem gathered_events_are_written (year_padded : bool)
        (dtparser_parse : str -> option Datetime.naive)
        (sha1_hexdigest : list Byte.byte -> str) (now : Datetime.naive)
        (pages : list (link * str)) (events : list event) :
  returns_valid dtparser_parse ->
  collect_events year_padded dtparser_parse pages [] = Ok events ->
  Forall (fun e => (Datetime.year (Datetime.local (dtstart e)) < 9999)%Z
                   /\ (Datetime.year (Datetime.local (dtend e)) < 9999)%Z)
         events ->
  exists doc, build_ics year_padded sha1_hexdigest now events = Ok doc.
Proof.
  intros Hv C Y.
  assert (F : Forall (fun e =>
                        Datetime.valid (Datetime.local (dtstart e)) = true
                        /\ Datetime.valid (Datetime.local (dtend e)) = true
                        /\ Datetime.utcoffset (dtstart e) = LOCAL_TZ
                        /\ Datetime.utcoffset (dtend e) = LOCAL_TZ) events).
  { apply (@collect_events_all year_padded _ dtparser_parse pages [] events);
      [|constructor | exact C].
    intros x page e _ H. unfold process_link in H.
    apply (@emitted_valid _ _ _ _ _ _ Hv H). }
  unfold build_ics, ics_lines.
  destruct (@event_blocks_ok year_padded sha1_hexdigest
               (Datetime.strftime_utc year_padded now)
                             events) as (bs & ->); [|cbn [bind]; eauto].
  rewrite Forall_forall in *. intros e Hin.
  destruct (F e Hin) as (Vs & Ve & Ts & Te).
  destruct (Y e Hin) as (Ys & Ye).
  unfold start_end_lines. destruct (all_day e); [eauto|].
  destruct (@fmt_dt_ok year_padded _ Vs Ts Ys) as (s & ->).
  destruct (@fmt_dt_ok year_padded _ Ve Te Ye) as (t & ->).
  cbn [bind]. eauto.
Qed.

Lemma gathered_events_are_written_witness :
  exists doc,
    build_ics false Sample.hexdigest Sample.noon [Sample.meeting] = Ok doc.
Proof.
  apply (@gathered_events_are_written false
           Sample.parse Sample.hexdigest Sample.noon
           [(mkLink (lit "https://www.troopwebhost.org/FormDetail.aspx?ID=56")
                    (lit "Meeting (03/05/26)"),
             lit "Meeting at  7:00 PM")]
           [Sample.meeting] sample_returns_valid).
  - vm_compute. reflexivity.
  - constructor; [|constructor]. vm_compute. split; reflexivity.
Defined.

End CalendarFacts.

(** ** The settings *)

Module SettingsFacts.
Import PyFacts.

Lemma lstrip_by_head p s a t : Py.lstrip_by p s = a :: t -> p a = false.
Proof.
  induction s as [|b s IH]; cbn [Py.lstrip_by]; [discriminate|].
  destruct (p b) eqn:E; [exact IH|].
  intros H. injection H as <- _. exact E.
Qed.

Lemma run_of_chr ch l :
  Forall (fun a => chr ch a = true) l -> l = repeat ch (length l).
Proof.
  induction 1 as [|a l Ha _ IH]; [reflexivity|].
  unfold chr in Ha. apply Ascii.eqb_eq in Ha. subst a.
  cbn [length repeat]. f_equal. exact IH.
Qed.

Lemma rev_repeat (A : Type) (a : A) k : rev (repeat a k) = repeat a k.
Proof.
  induction k as [|k IH]; [reflexivity|].
  cbn [repeat rev]. rewrite IH. symmetry. apply repeat_cons.
Qed.

(** [s.rstrip(ch)] takes away the run of [ch] that ends [s], all of it
    and nothing else. *)
Lemma rstrip_chr_spec ch s :
  exists k, s = Py.rstrip_chr ch s ++ repeat ch k
            /\ forall t, Py.rstrip_chr ch s <> t ++ [ch].
Proof.
  unfold Py.rstrip_chr, Py.rstrip_by.
  destruct (lstrip_by_split (chr ch) (rev s)) as (pre & E & F).
  exists (length pre). split.
  - apply (f_equal (@rev ascii)) in E.
    rewrite rev_involutive, rev_app_distr in E.
    rewrite (@run_of_chr ch pre F), rev_repeat in E. exact E.
  - intros t H. apply (f_equal (@rev ascii)) in H.
    rewrite rev_involutive, rev_app_distr in H. cbn [rev app] in H.
    apply lstrip_by_head in H. unfold chr in H.
    rewrite Ascii.eqb_refl in H. discriminate.
Qed.

Lemma rstrip_chr_empty ch s :
  Py.rstrip_chr ch s = [] <-> Forall (fun a => a = ch) s.
Proof.
  split.
  - intros H. destruct (rstrip_chr_spec ch s) as (k & E & _).
    rewrite H in E. cbn [app] in E. rewrite E.
    apply Forall_forall. intros a Ha. apply repeat_spec in Ha. exact Ha.
  - intros F. unfold Py.rstrip_chr, Py.rstrip_by.
    replace (Py.lstrip_by (chr ch) (rev s)) with (@nil ascii);
      [reflexivity|].
    symmetry. apply Forall_rev in F.
    induction F as [|a l Ha _ IH]; [reflexivity|].
    subst a. cbn [Py.lstrip_by]. unfold chr at 1.
    rewrite Ascii.eqb_refl. exact IH.
Qed.

(** Lines 32 and 182-196: the run stops with the error of line 183 exactly
    when the base address is unset, empty or made of slashes only, or the
    user name or the password is unset or empty; otherwise the page that
    is opened first is the base address without the slashes that end it,
    followed by [/Index.htm]. *)
Theorem base_has_no_trailing_slash (env : environ) :
  (index_url env = None <->
   Forall (fun a => a = "/"%char) (getenv_default env (lit "TWH_BASE") [])
   \/ truthy (env (lit "TWH_USERNAME")) = false
   \/ truthy (env (lit "TWH_PASSWORD")) = false)
  /\ forall u,
       index_url env = Some u ->
       exists b k,
         u = b ++ lit "/Index.htm"
         /\ getenv_default env (lit "TWH_BASE") [] = b ++ repeat "/"%char k
         /\ b <> []
         /\ forall t, b <> t ++ lit "/".
Proof.
  unfold index_url, BASE, USERNAME, PASSWORD.
  set (v := getenv_default env (lit "TWH_BASE") []).
  pose proof (rstrip_chr_empty "/" v) as Em.
  destruct (rstrip_chr_spec "/" v) as (k & E & Nt).
  destruct (Py.rstrip_chr "/" v) as [|b0 b] eqn:R.
  - cbn [Py.nonempty andb]. split; [|discriminate].
    split; [intros _; left; apply Em; reflexivity | reflexivity].
  - cbn [Py.nonempty andb].
    destruct (truthy (env (lit "TWH_USERNAME")));
      destruct (truthy (env (lit "TWH_PASSWORD"))); cbn [andb]; split;
      try (split; [auto | reflexivity]); try discriminate.
    + split; [discriminate|].
      intros [F | [F | F]]; try discriminate.
      apply Em in F. discriminate.
    + intros u H. injection H as <-. exists (b0 :: b), k.
      split; [reflexivity|]. split; [exact E|].
      split; [discriminate | exact Nt].
Qed.

Lemma base_has_no_trailing_slash_witness :
  index_url (fun k => if str_eqb k (lit "TWH_BASE")
                      then Some (lit "https://www.troopwebhost.org/Troop1Mendon//")
                      else Some (lit "x"))
  = Some (lit "https://www.troopwebhost.org/Troop1Mendon/Index.htm")
  /\ index_url (fun k => if str_eqb k (lit "TWH_BASE") then Some (lit "//")
                         else Some (lit "x"))
     = None.
Proof.
  split.
  - reflexivity.
  - apply (proj1 (@base_has_no_trailing_slash _)). left.
    repeat constructor.
Defined.

End SettingsFacts.

(** ** The scan of the page source *)

Module ScanFacts.
Import Regex RegexFacts PatFacts PyFacts LinkFacts ListingFacts.

(** A character that is no delimiter for either pattern and no white
    space. *)
Definition plain (a : ascii) : bool :=
  Pat.not_delim a && Pat.not_quote_paren a && negb (is_space a).

(** A reference to a detail page as the listing page writes it. *)
Definition reference (q1 ds q2 : str) : str :=
  lit "FormDetail.aspx?" ++ q1 ++ lit "ID=" ++ ds ++ q2.

Lemma not_delim_lower y : Pat.not_delim (lower y) = Pat.not_delim y.
Proof.
  destruct y as [[] [] [] [] [] [] [] []]; reflexivity.
Qed.

Lemma digit_not_delim a : is_digit a = true -> Pat.not_delim a = true.
Proof.
  destruct a as [[] [] [] [] [] [] [] []]; vm_compute; congruence.
Qed.

Lemma digit_not_quote_paren a :
  is_digit a = true -> Pat.not_quote_paren a = true.
Proof.
  destruct a as [[] [] [] [] [] [] [] []]; vm_compute; congruence.
Qed.

Lemma digit_not_space a : is_digit a = true -> is_space a = false.
Proof.
  destruct a as [[] [] [] [] [] [] [] []]; vm_compute; congruence.
Qed.

Lemma plain_spec a :
  plain a = true ->
  Pat.not_delim a = true /\ Pat.not_quote_paren a = true
  /\ is_space a = false.
Proof.
  unfold plain. rewrite !andb_true_iff, negb_true_iff. tauto.
Qed.

Lemma eq_ci_not_delim l : forall s,
  eq_ci l s ->
  Forall (fun a => Pat.not_delim a = true) l ->
  Forall (fun a => Pat.not_delim a = true) s.
Proof.
  intros s E. induction E as [|x y l s Hxy _ IH]; intros F; [constructor|].
  inversion F as [|? ? Hx F']; subst. constructor; [|auto].
  unfold chr_i in Hxy. apply Ascii.eqb_eq in Hxy.
  rewrite <- not_delim_lower, <- Hxy, not_delim_lower. exact Hx.
Qed.

Lemma eq_ci_refl l : eq_ci l l.
Proof.
  induction l as [|a l IH]; constructor; [|exact IH].
  unfold chr_i. apply Ascii.eqb_refl.
Qed.

Lemma mt_seq (A : Type) a b s c (k : cont A) :
  mt (Seq a b) s c k = mt a s c (fun s1 c1 => mt b s1 c1 k).
Proof.
  reflexivity.
Qed.

Lemma mt_lit_ci (A : Type) l : forall s c (k : cont A),
  mt (lit_ci l) (l ++ s) c k = k s c.
Proof.
  induction l as [|a l IH]; intros s c k; [reflexivity|].
  cbn [lit_ci mt app]. unfold chr_i at 1. rewrite Ascii.eqb_refl. apply IH.
Qed.

(** A run of characters of a class that begins a string lies within the
    longest such run. *)
Lemma run_prefix (p : ascii -> bool) a : forall r x post,
  a ++ x = r ++ post ->
  Forall (fun c => p c = true) a ->
  (forall c t, post = c :: t -> p c = false) ->
  exists r', r = a ++ r' /\ x = r' ++ post.
Proof.
  induction a as [|h a IH]; intros r x post E F Hp.
  - exists r. auto.
  - inversion F as [|? ? Hh F']; subst.
    destruct r as [|h' r]; cbn [app] in E.
    + rewrite (Hp h (a ++ x)) in Hh; [discriminate | symmetry; exact E].
    + injection E as <- E. destruct (IH _ _ _ E F' Hp) as (r' & -> & ->).
      exists r'. auto.
Qed.

(** The pattern of line 96 matches characters that are no delimiters. *)
Lemma scan_shape m rest c c' :
  Matches Pat.scan m rest c c' <->
  exists lab r1 idl ds r2,
    m = lab ++ r1 ++ idl ++ ds ++ r2
    /\ eq_ci (lit "FormDetail.aspx?") lab
    /\ Run Pat.not_delim 0 None r1
    /\ eq_ci (lit "ID=") idl
    /\ Run is_digit 1 None ds
    /\ Run Pat.not_delim 0 None r2
    /\ c' = c.
Proof.
  unfold Pat.scan, Pat.seqs, fold_right. split.
  - intros H.
    apply inv_seq in H as (lab & t1 & c1 & -> & H1 & H).
    apply inv_seq in H as (r1 & t2 & c2 & -> & H2 & H).
    apply inv_seq in H as (idl & t3 & c3 & -> & H3 & H).
    apply inv_seq in H as (ds & t4 & c4 & -> & H4 & H).
    apply inv_seq in H as (r2 & t5 & c5 & -> & H5 & H).
    apply inv_eps in H as (-> & ->).
    apply lit_ci_shape in H1 as (L & ->).
    apply inv_rep in H2 as (R1 & ->).
    apply lit_ci_shape in H3 as (I3 & ->).
    apply inv_rep in H4 as (D & ->).
    apply inv_rep in H5 as (R2 & ->).
    exists lab, r1, idl, ds, r2. rewrite app_nil_r. auto 8.
  - intros (lab & r1 & idl & ds & r2 & -> & L & R1 & I3 & D & R2 & ->).
    eapply Matches_seq with (s1 := lab);
      [apply lit_ci_shape; split; [exact L | reflexivity] | | reflexivity].
    eapply Matches_seq with (s1 := r1);
      [apply Matches_rep; exact R1 | | reflexivity].
    eapply Matches_seq with (s1 := idl);
      [apply lit_ci_shape; split; [exact I3 | reflexivity] | | reflexivity].
    eapply Matches_seq with (s1 := ds);
      [apply Matches_rep; exact D | | reflexivity].
    eapply Matches_seq with (s1 := r2) (s2 := []);
      [apply Matches_rep; exact R2 | constructor
      | rewrite app_nil_r; reflexivity].
Qed.

Lemma scan_not_delim m rest c c' :
  Matches Pat.scan m rest c c' ->
  Forall (fun a => Pat.not_delim a = true) m /\ m <> [].
Proof.
  intros H. apply scan_shape in H
    as (lab & r1 & idl & ds & r2 & -> & L & (F1 & _) & I3 & (D & _)
        & (F2 & _) & _).
  split.
  - repeat (apply Forall_app; split); auto.
    + apply (@eq_ci_not_delim _ _ L). repeat constructor.
    + apply (@eq_ci_not_delim _ _ I3). repeat constructor.
    + apply Forall_forall. intros a Ha. apply digit_not_delim.
      rewrite Forall_forall in D. auto.
  - inversion L; subst. discriminate.
Qed.

(** Where [re.search] finds a match, the matcher gives it. *)
Lemma search_from_attempt r s : forall pre m,
  search_from r pre s = Some m ->
  attempt r (m_all m ++ m_post m) = Some (m_post m, m_groups m).
Proof.
  induction s as [|a s IH]; intros pre m H; rewrite search_from_eq in H.
  - destruct (attempt r []) as [[rest c]|] eqn:E; [|discriminate].
    injection H as <-.
    change (attempt r (firstn (length (@nil ascii) - length rest) []
                       ++ rest) = Some (rest, c)).
    destruct (@attempt_hit _ _ _ _ E) as (E' & _). rewrite <- E'. exact E.
  - destruct (attempt r (a :: s)) as [[rest c]|] eqn:E.
    + injection H as <-.
      change (attempt r (firstn (length (a :: s) - length rest) (a :: s)
                         ++ rest) = Some (rest, c)).
      destruct (@attempt_hit _ _ _ _ E) as (E' & _). rewrite <- E'. exact E.
    + eapply IH. exact H.
Qed.

(** A match of the pattern of line 96 that begins a run of characters
    that are no delimiters takes the whole run: its last part is greedy
    and nothing follows it. *)
Lemma scan_extent r post rest c :
  Forall (fun a => Pat.not_delim a = true) r ->
  (forall a t, post = a :: t -> Pat.not_delim a = false) ->
  attempt Pat.scan (r ++ post) = Some (rest, c) -> rest = post.
Proof.
  intros Fr Hp H. unfold attempt, Pat.scan, Pat.seqs, fold_right in H.
  rewrite mt_seq in H.
  apply mt_sound in H as (s1 & t1 & c1 & E1 & M1 & H). cbn beta in H.
  rewrite mt_seq in H.
  apply mt_sound in H as (s2 & t2 & c2 & E2 & M2 & H). cbn beta in H.
  rewrite mt_seq in H.
  apply mt_sound in H as (s3 & t3 & c3 & E3 & M3 & H). cbn beta in H.
  rewrite mt_seq in H.
  apply mt_sound in H as (s4 & t4 & c4 & E4 & M4 & H). cbn beta in H.
  apply lit_ci_shape in M1 as (L & _).
  apply inv_rep in M2 as ((F2 & _) & _).
  apply lit_ci_shape in M3 as (I3 & _).
  apply inv_rep in M4 as ((D & _) & _).
  assert (Fa : Forall (fun a => Pat.not_delim a = true)
                      (s1 ++ s2 ++ s3 ++ s4)).
  { repeat (apply Forall_app; split); auto.
    - apply (@eq_ci_not_delim _ _ L). repeat constructor.
    - apply (@eq_ci_not_delim _ _ I3). repeat constructor.
    - apply Forall_forall. intros a Ha. apply digit_not_delim.
      rewrite Forall_forall in D. auto. }
  assert (E : (s1 ++ s2 ++ s3 ++ s4) ++ t4 = r ++ post).
  { rewrite E1, E2, E3, E4. rewrite <- !app_assoc. reflexivity. }
  destruct (@run_prefix _ _ _ _ _ E Fa Hp) as (r' & Er & ->).
  rewrite Er in Fr. apply Forall_app in Fr as (_ & Fr').
  rewrite mt_seq in H. cbn [mt] in H.
  rewrite (@LoopFacts.rep_greedy_max _ Pat.not_delim r' 0 post) in H;
    [| exact Fr' | apply Nat.le_0_l | exact Hp | discriminate].
  injection H as <- _. reflexivity.
Qed.

Section Reference.
Variables q1 ds q2 : str.
Hypothesis q1_plain : Forall (fun a => plain a = true) q1.
Hypothesis q2_plain : Forall (fun a => plain a = true) q2.
Hypothesis ds_digits : Forall (fun a => is_digit a = true) ds.
Hypothesis ds_nonempty : ds <> [].

Lemma plain_all (P : ascii -> Prop) l :
  (forall a, plain a = true -> P a) ->
  Forall (fun a => plain a = true) l -> Forall P l.
Proof.
  intros H F. apply Forall_forall. intros a Ha. apply H.
  rewrite Forall_forall in F. auto.
Qed.

Lemma digits_all (P : ascii -> Prop) :
  (forall a, is_digit a = true -> P a) -> Forall P ds.
Proof.
  intros H. apply Forall_forall. intros a Ha. apply H.
  pose proof ds_digits as F. rewrite Forall_forall in F. auto.
Qed.

Lemma ds_run : Run is_digit 1 None ds.
Proof.
  split; [exact ds_digits|]. split; [|exact I].
  destruct ds; [exfalso; apply ds_nonempty; reflexivity | simpl; lia].
Qed.

(** The reference is matched where it stands. *)
Lemma reference_matches post :
  MatchAt Pat.scan (reference q1 ds q2 ++ post).
Proof.
  exists (reference q1 ds q2), post, []. split; [reflexivity|].
  apply scan_shape.
  exists (lit "FormDetail.aspx?"), q1, (lit "ID="), ds, q2.
  split; [reflexivity|]. split; [apply eq_ci_refl|].
  split; [split; [|split; [lia | exact I]]|].
  { apply plain_all; [|exact q1_plain]. intros a H.
    apply plain_spec in H. tauto. }
  split; [apply eq_ci_refl|]. split; [exact ds_run|].
  split; [|reflexivity]. split; [|split; [lia | exact I]].
  apply plain_all; [|exact q2_plain]. intros a H.
  apply plain_spec in H. tauto.
Qed.

Lemma reference_not_delim :
  Forall (fun a => Pat.not_delim a = true) (reference q1 ds q2).
Proof.
  unfold reference.
  repeat (apply Forall_app; split).
  - repeat constructor.
  - apply plain_all; [|exact q1_plain]. intros a H.
    apply plain_spec in H. tauto.
  - repeat constructor.
  - apply digits_all. apply digit_not_delim.
  - apply plain_all; [|exact q2_plain]. intros a H.
    apply plain_spec in H. tauto.
Qed.

(** A string ends with a delimiter, or is empty. *)
Definition ends_delim (p : str) : Prop :=
  forall t a, p = t ++ [a] -> Pat.not_delim a = false.

Lemma split_run (p0 : ascii -> bool) s :
  exists r rest,
    s = r ++ rest /\ Forall (fun a => p0 a = true) r
    /\ forall a t, rest = a :: t -> p0 a = false.
Proof.
  induction s as [|h s (r & rest & -> & F & Hr)].
  - exists [], []. split; [reflexivity|]. split; [constructor|].
    discriminate.
  - destruct (p0 h) eqn:Hh.
    + exists (h :: r), rest. split; [reflexivity|].
      split; [constructor; auto | exact Hr].
    + exists [], (h :: r ++ rest). split; [reflexivity|].
      split; [constructor|]. intros a t E. injection E as <- _. exact Hh.
Qed.

(** [re.finditer] reaches the reference: a match that begins before it
    ends before the delimiter in front of it. *)
Lemma finditer_finds post :
  (forall a t, post = a :: t -> Pat.not_delim a = false) ->
  forall fuel p,
    length p < fuel -> ends_delim p ->
    In (reference q1 ds q2)
       (finditer_from fuel Pat.scan (p ++ reference q1 ds q2 ++ post)).
Proof.
  intros Hp. induction fuel as [|fuel IH]; intros p L Inv; [lia|].
  cbn [finditer_from].
  destruct (search Pat.scan (p ++ reference q1 ds q2 ++ post))
    as [m|] eqn:S.
  - destruct (@search_spec _ _ _ S) as (Es & M & Left).
    pose proof (@search_from_attempt _ _ _ _ S) as At.
    destruct (le_lt_dec (length (m_pre m)) (length p)) as [Le | Gt].
    + symmetry in Es.
      destruct (@DetailFacts.prefix_split _ _ _ _ _ Es Le)
        as (q & Eq & Em).
      destruct q as [|q0 q'].
      * cbn [app] in Em. rewrite Em in At.
        apply (@scan_extent _ _ _ _ reference_not_delim Hp) in At.
        rewrite At in Em. apply app_inv_tail in Em. rewrite Em.
        left. reflexivity.
      * destruct (split_run Pat.not_delim (q0 :: q'))
          as (r0 & rest0 & Er & F0 & H0).
        assert (Ne : rest0 <> []).
        { intros ->. rewrite app_nil_r in Er.
          destruct (@exists_last _ (q0 :: q') ltac:(discriminate))
            as (t & a & Et).
          assert (Ha : Pat.not_delim a = false).
          { apply (Inv (m_pre m ++ t) a). rewrite Eq, Et.
            rewrite <- app_assoc. reflexivity. }
          rewrite <- Er in F0. rewrite Et in F0.
          apply Forall_app in F0 as (_ & F0).
          inversion F0; subst. congruence. }
        assert (Hp' : forall a t, rest0 ++ reference q1 ds q2 ++ post
                                  = a :: t -> Pat.not_delim a = false).
        { intros a t E. destruct rest0 as [|b rest0']; [congruence|].
          injection E as <- _. apply (H0 b rest0'). reflexivity. }
        assert (Em' : m_all m ++ m_post m
                      = r0 ++ rest0 ++ reference q1 ds q2 ++ post).
        { rewrite Em, Er. rewrite <- !app_assoc. reflexivity. }
        rewrite Em' in At.
        apply (@scan_extent _ _ _ _ F0 Hp') in At.
        rewrite At in Em'. apply app_inv_tail in Em'.
        right. rewrite At. apply IH.
        -- destruct (scan_not_delim M) as (_ & Nm).
           assert (length r0 <> 0)
             by (rewrite <- Em'; destruct (m_all m); [congruence | discriminate]).
           apply (f_equal (@length ascii)) in Eq.
           apply (f_equal (@length ascii)) in Er.
           rewrite !length_app in *. lia.
        -- intros t a Et. apply (Inv (m_pre m ++ r0 ++ t) a).
           rewrite Eq, Er, Et. rewrite <- !app_assoc. reflexivity.
    + exfalso.
      assert (Le : length p <= length (m_pre m)) by lia.
      destruct (@DetailFacts.prefix_split _ _ _ _ _ Es Le)
        as (q & Eq & Em).
      apply (Left p q Eq).
      * intros ->. rewrite app_nil_r in Eq. rewrite Eq in Gt. lia.
      * rewrite <- Em. apply reference_matches.
  - exfalso. apply (search_none S).
    destruct (reference_matches post) as (m & rest & c & E & M).
    exists p, m, rest, c. split; [rewrite E; reflexivity | exact M].
Qed.

Lemma reference_nonspace :
  Forall (fun a => is_space a = false) (reference q1 ds q2).
Proof.
  unfold reference.
  repeat (apply Forall_app; split).
  - repeat constructor.
  - apply plain_all; [|exact q1_plain]. intros a H.
    apply plain_spec in H. tauto.
  - repeat constructor.
  - apply digits_all. apply digit_not_space.
  - apply plain_all; [|exact q2_plain]. intros a H.
    apply plain_spec in H. tauto.
Qed.

Lemma strip_nonspace s :
  Forall (fun a => is_space a = false) s -> Py.strip s = s.
Proof.
  intros F.
  assert (K : forall t, Forall (fun a => is_space a = false) t ->
                        Py.lstrip_by is_space t = t).
  { intros t Ft. destruct Ft as [|a t Ha _]; [reflexivity|].
    cbn [Py.lstrip_by]. rewrite Ha. reflexivity. }
  unfold Py.strip, Py.rstrip_by. rewrite (K s F).
  rewrite (K (rev s)) by (apply Forall_rev; exact F).
  apply rev_involutive.
Qed.

(** What [add_href] makes of the reference. *)
Lemma add_href_reference found :
  add_href found (reference q1 ds q2) []
  = found ++ [mkLink (BASE_HOST ++ reference q1 ds q2) []].
Proof.
  set (ref := reference q1 ds q2).
  assert (At : attempt Pat.linkto ref = Some ([], [])).
  { unfold attempt, Pat.linkto, Pat.seqs, fold_right, ref, reference.
    rewrite mt_seq, mt_lit_ci, mt_seq. cbn [mt].
    rewrite <- (app_nil_r (q1 ++ lit "ID=" ++ ds ++ q2)).
    rewrite (@LoopFacts.rep_greedy_max
               _ Pat.not_quote_paren (q1 ++ lit "ID=" ++ ds ++ q2) 1 []).
    - reflexivity.
    - repeat (apply Forall_app; split).
      + apply plain_all; [|exact q1_plain]. intros a H.
        apply plain_spec in H. tauto.
      + repeat constructor.
      + apply digits_all. apply digit_not_quote_paren.
      + apply plain_all; [|exact q2_plain]. intros a H.
        apply plain_spec in H. tauto.
    - rewrite !length_app. simpl. lia.
    - discriminate.
    - discriminate. }
  assert (S : search Pat.linkto (Py.strip ref)
              = Some (MatchObj [] ref [] [])).
  { unfold ref. rewrite (strip_nonspace reference_nonspace). fold ref.
    pose proof (@search_at Pat.linkto [] ref [] []) as X.
    cbn [app length] in X. rewrite Nat.sub_0_r, firstn_all in X.
    apply X; [|exact At].
    intros p q E Hq. destruct p; destruct q; try discriminate.
    congruence. }
  apply (@add_href_match found ref [] (MatchObj [] ref [] [])).
  - reflexivity.
  - exact S.
  - apply contains_spec.
    exists [], (lit "?" ++ q1 ++ lit "ID=" ++ ds ++ q2). reflexivity.
  - apply contains_spec.
    exists (lit "FormDetail.aspx?" ++ q1), (ds ++ q2).
    cbn [m_all]. unfold ref, reference. rewrite <- !app_assoc.
    reflexivity.
Qed.

End Reference.

Lemma fold_add_in (f : list link -> str -> list link) m x :
  (forall found b, f found b = found ++ f [] b) ->
  In x (f [] m) ->
  forall l found, In m l -> In x (fold_left f l found).
Proof.
  intros Hf Hx. induction l as [|a l IH]; intros found Hin; [destruct Hin|].
  cbn [fold_left]. destruct Hin as [-> | Hin]; [|apply IH; exact Hin].
  rewrite (fold_add_app f Hf), Hf.
  apply in_or_app. left. apply in_or_app. right. exact Hx.
Qed.

Lemma dedup_keeps u found :
  In u (map url found) -> In u (map url (dedup [] found)).
Proof.
  intros H. destruct (find_has_url _ _ H) as (t & F).
  rewrite <- (@dedup_find u found [] ltac:(intros [])) in F.
  apply find_some in F as (F & _).
  apply in_map_iff. exists (mkLink u t). auto.
Qed.

(** The scan of line 96 is the last resort that the listing's docstring
    promises: whatever the HTML parser makes of the page, a reference
    [FormDetail.aspx?...ID=digits...] that stands in the page source
    between delimiters (quotes, angle brackets, spaces, or the ends of
    the source) is returned, as an address under the fixed host. *)
Theorem reference_in_source_is_returned
        (BeautifulSoup : str -> list element)
        (pre q1 ds q2 post : str) :
  Forall (fun a => plain a = true) q1 ->
  Forall (fun a => plain a = true) q2 ->
  Forall (fun a => is_digit a = true) ds -> ds <> [] ->
  (forall t a, pre = t ++ [a] -> Pat.not_delim a = false) ->
  (forall a t, post = a :: t -> Pat.not_delim a = false) ->
  In (BASE_HOST ++ reference q1 ds q2)
     (map url (extract_event_links_from_form_list
                 BeautifulSoup (pre ++ reference q1 ds q2 ++ post))).
Proof.
  intros P1 P2 D Ne Hpre Hpost.
  unfold extract_event_links_from_form_list. apply dedup_keeps.
  rewrite found_links_passes, !map_app.
  apply in_or_app. right. apply in_or_app. right.
  apply in_map_iff.
  exists (mkLink (BASE_HOST ++ reference q1 ds q2) []).
  split; [reflexivity|].
  unfold pass_scan.
  apply (@fold_add_in (fun f m => add_href f m []) (reference q1 ds q2)).
  - intros found b. apply add_href_app.
  - rewrite (@add_href_reference q1 ds q2 P1 P2 D []). left. reflexivity.
  - unfold finditer. apply finditer_finds; auto.
    rewrite !length_app. lia.
Qed.

Lemma reference_in_source_is_returned_witness :
  In (lit "https://www.troopwebhost.org/FormDetail.aspx?Form_ID=182&ID=56")
     (map url
          (extract_event_links_from_form_list
             (fun _ => [])
             (lit "<a href='formdetail.aspx?ID=7'>a</a> <a onclick='LinkTo("
              ++ [Pat.dquote]
              ++ reference (lit "Form_ID=182&") (lit "56") []
              ++ [Pat.dquote] ++ lit ")'>b</a>"))).
Proof.
  apply (@reference_in_source_is_returned
           (fun _ => [])
           (lit "<a href='formdetail.aspx?ID=7'>a</a> <a onclick='LinkTo("
            ++ [Pat.dquote])
           (lit "Form_ID=182&") (lit "56") []
           ([Pat.dquote] ++ lit ")'>b</a>")).
  - repeat constructor.
  - constructor.
  - repeat constructor.
  - discriminate.
  - intros t a E. apply app_inj_tail in E as (_ & <-). reflexivity.
  - intros a t E. injection E as <- _. reflexivity.
Defined.

End ScanFacts.

(** ** Flattening *)

Module FlattenFacts.
Import CollapseFacts.

Lemma split_aux_nonempty s : forall cur,
  cur <> [] -> Py.split_aux cur s <> [].
Proof.
  induction s as [|a s IH]; intros cur Hc; cbn [Py.split_aux].
  - destruct cur; [congruence | discriminate].
  - destruct (is_space a).
    + destruct cur; [congruence | discriminate].
    + apply IH. discriminate.
Qed.

Lemma join_cons sep x l :
  l <> [] -> Py.join sep (x :: l) = x ++ sep ++ Py.join sep l.
Proof.
  destruct l; [congruence | reflexivity].
Qed.

(** Splitting flattened text at white space and joining the words with
    single spaces gives the text back. *)
Lemma flat_join s :
  (forall cur, cur <> [] -> flat_from false s = true ->
               Py.join [space] (Py.split_aux cur s) = rev cur ++ s)
  /\ (flat_from true s = true ->
      Py.join [space] (Py.split_aux [] s) = s /\ Py.split_aux [] s <> []).
Proof.
  induction s as [|a s (IH1 & IH2)]; split.
  - intros cur Hc _. cbn [Py.split_aux].
    destruct cur; [congruence|]. cbn [Py.join]. rewrite app_nil_r.
    reflexivity.
  - cbn [flat_from negb]. discriminate.
  - intros cur Hc F. cbn [Py.split_aux flat_from] in *.
    destruct (is_space a) eqn:Sa.
    + cbn [negb andb] in F. apply andb_true_iff in F as (Ea & F).
      apply Ascii.eqb_eq in Ea. subst a.
      destruct (IH2 F) as (J & Ne).
      destruct cur as [|c cur]; [congruence|].
      rewrite join_cons by exact Ne. rewrite J. reflexivity.
    + rewrite IH1 by (discriminate || exact F).
      cbn [rev]. rewrite <- app_assoc. reflexivity.
  - intros F. cbn [Py.split_aux flat_from] in *.
    destruct (is_space a) eqn:Sa; [cbn [negb andb] in F; discriminate|].
    split.
    + rewrite IH1 by (discriminate || exact F). reflexivity.
    + apply split_aux_nonempty. discriminate.
Qed.

Lemma collapse_fixed s : flat s = true -> Py.collapse s = s.
Proof.
  unfold flat, Py.collapse, Py.split. destruct s as [|a s]; [reflexivity|].
  intros F. apply (proj2 (flat_join (a :: s)) F).
Qed.

(** The idiom of lines 76 and 289 gives text without white space at
    either end, whose only white space is single spaces between words,
    and applying it again changes nothing: titles and page texts are in
    normal form. *)
Theorem flattening_is_idempotent (raw : str) :
  flat (Py.collapse raw) = true
  /\ Py.collapse (Py.collapse raw) = Py.collapse raw
  /\ (forall x a y, Py.collapse raw = x ++ a :: y -> is_space a = true ->
        a = space
        /\ x <> [] /\ y <> []
        /\ (forall b y', y = b :: y' -> is_space b = false)).
Proof.
  pose proof (collapse_flat raw) as F.
  split; [exact F|]. split; [apply collapse_fixed; exact F|].
  intros x a y E Ha. split; [|split; [|split]].
  - unfold flat in F. destruct (Py.collapse raw) as [|h t] eqn:C.
    + destruct x; discriminate.
    + apply (@flat_from_space (h :: t) true a F); [|exact Ha].
      rewrite E. apply in_or_app. right. left. reflexivity.
  - intros ->. cbn [app] in E. unfold flat in F. rewrite E in F.
    cbn [flat_from] in F. rewrite Ha in F. cbn [negb andb] in F.
    discriminate.
  - intros ->.
    assert (N : is_space a = false)
      by (apply (@flat_last (Py.collapse raw) x a F E)).
    congruence.
  - intros b y' ->. apply (@flat_no_gap (Py.collapse raw) x a b y' F E Ha).
Qed.

End FlattenFacts.
